(** * EPiC Grasshopper: the flow-calculation and aggregation engine

    A shallow embedding of the flow arithmetic of [epic/epic.py]:
    the replacement scheduler [_get_num_replacements], the assembly flow
    calculator ([EPiCAssembly._calculate_flows], [_fill_flows_dict],
    [calculate_flows]), the dictionary merge [sum_numerical_dictionary_values]
    and the analysis aggregator ([EPiCAnalysis.__init__],
    [sum_by_assembly_and_material], [EPiCBuiltAsset.__init__]).

    Modelling conventions.
    - The plugin runs under IronPython 2.7 (it imports [cPickle] and calls
      [reload]); Python 2 semantics are used where they differ from
      Python 3 (integer [/], comparison of [None] with a number).
    - Python [int] is [Z].  Python [float] is an exact rational kept in
      lowest terms; rounding, overflow, infinities and NaN are outside the
      model.  In particular addition is associative here: where the code
      adds leaves that were themselves sums (the merge of two entries of
      one name), an equality proved here can differ in the last bit under
      IEEE arithmetic.
    - Periods of analysis and service lives are years, typed [int] as the
      docstrings of the source say; [None] is [None] of [option].
    - A Python [dict] / [OrderedDict] is an association list in insertion
      order with unique keys.
    - A raised exception is the [Raise] constructor of [outcome]. *)

From Stdlib Require Import ZArith QArith Qabs Qround Qreduction.
From Stdlib Require Import String Ascii List Bool Lia.
Import ListNotations.

Set Warnings "-register-all".

Local Open Scope string_scope.
Local Open Scope Z_scope.

(** ** Exceptions and the error monad *)

Inductive exn : Type :=
| TypeError
| ZeroDivisionError
| ValueError
| KeyError
| AttributeError.

Inductive outcome (A : Type) : Type :=
| Ok (a : A)
| Raise (e : exn).

Arguments Ok {A} a.
Arguments Raise {A} e.

Definition bind {A B : Type} (c : outcome A) (k : A -> outcome B) : outcome B :=
  match c with
  | Ok a => k a
  | Raise e => Raise e
  end.

Notation "x <- c ;; k" := (bind c (fun x => k))
  (at level 61, c at next level, right associativity).

(** ** Python numbers *)

Module PyNum.

(** A float: a rational in lowest terms. *)
Definition float : Type := Q.

Definition fadd (x y : float) : float := Qred (x + y).
Definition fmul (x y : float) : float := Qred (x * y).
Definition fdiv (x y : float) : float := Qred (x / y).
Definition fabs (x : float) : float := Qred (Qabs x).

Inductive num : Type :=
| NInt (z : Z)
| NFloat (q : float).

(** The value of a number as a float (Python's implicit coercion). *)
Definition to_float (n : num) : float :=
  match n with
  | NInt z => inject_Z z
  | NFloat q => q
  end.

Definition is_float (n : num) : bool :=
  match n with
  | NInt _ => false
  | NFloat _ => true
  end.

(** [a + b] *)
Definition nadd (a b : num) : num :=
  match a, b with
  | NInt x, NInt y => NInt (x + y)
  | _, _ => NFloat (fadd (to_float a) (to_float b))
  end.

(** [a * b] *)
Definition nmul (a b : num) : num :=
  match a, b with
  | NInt x, NInt y => NInt (x * y)
  | _, _ => NFloat (fmul (to_float a) (to_float b))
  end.

(** [abs(a)] *)
Definition nabs (a : num) : num :=
  match a with
  | NInt x => NInt (Z.abs x)
  | NFloat q => NFloat (fabs q)
  end.

(** [a == b] on numbers *)
Definition num_eqb (a b : num) : bool := Qeq_bool (to_float a) (to_float b).

(** Truth value of a number: non-zero. *)
Definition truthy (a : num) : bool := negb (num_eqb a (NInt 0)).

(** [a / b] in Python 2: floor division on two ints, true division as
    soon as one operand is a float. *)
Definition ndiv (a b : num) : outcome num :=
  if num_eqb b (NInt 0) then Raise ZeroDivisionError
  else match a, b with
       | NInt x, NInt y => Ok (NInt (x / y))
       | _, _ => Ok (NFloat (fdiv (to_float a) (to_float b)))
       end.

(** [sum(l)]: a left fold from the int [0]. *)
Definition nsum (l : list num) : num := fold_left nadd l (NInt 0).

End PyNum.
Export PyNum.

(** ** Replacement scheduler *)

(** [_get_num_replacements(period_of_analysis, service_life)].
    [service_life >= period_of_analysis] with [service_life = None] is
    [False] in Python 2 and the following [%] raises [TypeError]; in
    Python 3 the comparison itself raises [TypeError].  Python's [//] and
    [%] on ints are [Z.div] and [Z.modulo] (floor, sign of the divisor). *)
Definition _get_num_replacements (period_of_analysis : Z) (service_life : option Z)
  : outcome Z :=
  match service_life with
  | None => Raise TypeError
  | Some service_life =>
      if service_life >=? period_of_analysis then Ok 0
      else if service_life =? 0 then Raise ZeroDivisionError
      else if period_of_analysis mod service_life =? 0
           then Ok (period_of_analysis / service_life - 1)
           else Ok (period_of_analysis / service_life)
  end.

(** ** Strings *)

(** [sub in s] on strings *)
Definition str_in (sub s : string) : bool :=
  match index 0 sub s with
  | Some _ => true
  | None => false
  end.

(** [text.replace(",", " ")] *)
Fixpoint replace_commas (text : string) : string :=
  match text with
  | EmptyString => EmptyString
  | String c rest =>
      String (if Ascii.eqb c ","%char then " "%char else c) (replace_commas rest)
  end.

(** [remove_commas_and_flatten_list_for_csv_export(text_inputs)] on a
    single string with the default flags. *)
Definition remove_commas_and_flatten_list_for_csv_export (text_inputs : string)
  : string :=
  replace_commas text_inputs.

(** ** Materials *)

Module EPiCMaterial.

(** The attributes of an [EPiCMaterial] that the flow engine reads.
    [wastage] is the stored fraction, [service_life] may be [None]. *)
Record t : Type := {
  name : string;
  energy : num;
  water : num;
  ghg : num;
  functional_unit : string;
  material_id : string;
  wastage : num;
  service_life : option Z
}.

(** [getattr(material, flow)] for a flow name *)
Definition getattr (m : t) (flow : string) : outcome num :=
  if (flow =? "energy")%string then Ok (energy m)
  else if (flow =? "water")%string then Ok (water m)
  else if (flow =? "ghg")%string then Ok (ghg m)
  else Raise AttributeError.

End EPiCMaterial.

(** ** Values and dictionaries *)

(** What a flows dictionary can hold. *)
Inductive value : Type :=
| VNone
| VNum (n : num)
| VStr (s : string)
| VMat (m : EPiCMaterial.t)
| VDict (items : list (string * value)).

Definition dict : Type := list (string * value).

Fixpoint lookup {A : Type} (k : string) (d : list (string * A)) : option A :=
  match d with
  | [] => None
  | (k', v) :: rest => if (k' =? k)%string then Some v else lookup k rest
  end.

(** Assignment to a key: in place when the key exists, appended otherwise. *)
Fixpoint update {A : Type} (k : string) (v : A) (d : list (string * A))
  : list (string * A) :=
  match d with
  | [] => [(k, v)]
  | (k', v') :: rest =>
      if (k' =? k)%string then (k', v) :: rest else (k', v') :: update k v rest
  end.

(** [d[k]] *)
Definition getitem (d : value) (k : string) : outcome value :=
  match d with
  | VDict items =>
      match lookup k items with
      | Some v => Ok v
      | None => Raise KeyError
      end
  | _ => Raise TypeError
  end.

(** [d[k] = v], returning the dictionary after the assignment *)
Definition setitem (d : value) (k : string) (v : value) : outcome value :=
  match d with
  | VDict items => Ok (VDict (update k v items))
  | _ => Raise TypeError
  end.

(** [k in d] *)
Definition contains (d : value) (k : string) : outcome bool :=
  match d with
  | VDict items =>
      match lookup k items with
      | Some _ => Ok true
      | None => Ok false
      end
  | _ => Raise TypeError
  end.

(** [d.get(k, default)] *)
Definition get (d : value) (k : string) (default : value) : outcome value :=
  match d with
  | VDict items =>
      match lookup k items with
      | Some v => Ok v
      | None => Ok default
      end
  | _ => Raise AttributeError
  end.

(** [d.setdefault(k, default)]: the dictionary after the call and the
    value now stored under [k]. *)
Definition setdefault (d : value) (k : string) (default : value)
  : outcome (value * value) :=
  match d with
  | VDict items =>
      match lookup k items with
      | Some v => Ok (d, v)
      | None => Ok (VDict (update k default items), default)
      end
  | _ => Raise AttributeError
  end.

(** [a + b] on values: numbers add, strings concatenate. *)
Definition py_add (a b : value) : outcome value :=
  match a, b with
  | VNum x, VNum y => Ok (VNum (nadd x y))
  | VStr x, VStr y => Ok (VStr (x ++ y))
  | _, _ => Raise TypeError
  end.

(** [a == s] for a string [s] *)
Definition eq_str (a : value) (s : string) : bool :=
  match a with
  | VStr x => (x =? s)%string
  | _ => false
  end.

(** [sum_numerical_dictionary_values(dict_1, dict_2)].  [dict_3] starts as
    a deep copy of [dict_1]; values are immutable here, so the copy is
    [dict_1] itself. *)
Fixpoint sum_numerical_dictionary_values (dict_1 dict_2 : value) {struct dict_2}
  : outcome value :=
  match dict_2 with
  | VDict items =>
      (fix loop (items : dict) (dict_3 : value) {struct items} : outcome value :=
         match items with
         | [] => Ok dict_3
         | (key, value) :: rest =>
             dict_3' <-
               match value with
               | VNum _ =>
                   old <- getitem dict_3 key ;;
                   new <- py_add old value ;;
                   setitem dict_3 key new
               | VDict _ =>
                   old <- getitem dict_3 key ;;
                   new <- sum_numerical_dictionary_values old value ;;
                   setitem dict_3 key new
               | _ => Ok dict_3
               end ;;
             loop rest dict_3'
         end) items dict_1
  | _ => Raise AttributeError
  end.

(** [DEFINED_FLOWS.keys()] *)
Definition DEFINED_FLOWS : list string := ["energy"; "water"; "ghg"].

(** [mapM] in the error monad *)
Fixpoint map_m {A B : Type} (f : A -> outcome B) (l : list A) : outcome (list B) :=
  match l with
  | [] => Ok []
  | a :: rest => b <- f a ;; bs <- map_m f rest ;; Ok (b :: bs)
  end.

(** A left fold in the error monad: a [for] loop over [l] updating [acc]. *)
Fixpoint fold_m {A S : Type} (f : S -> A -> outcome S) (l : list A) (acc : S)
  : outcome S :=
  match l with
  | [] => Ok acc
  | a :: rest => acc' <- f acc a ;; fold_m f rest acc'
  end.

(** ** Assemblies *)

Module EPiCAssembly.

(** An [EPiCAssembly] after construction.  [epic_materials] pairs each
    material with its quantity per unit; [total_units] is what the
    geometry measurement returned. *)
Record t : Type := {
  name : string;
  category : string;
  service_life : option Z;
  wastage_override : option num;
  total_units : num;
  epic_materials : list (EPiCMaterial.t * num);
  flows : value;
  recalculated_flows : value
}.

(** [EPiCAssembly.template_flows] *)
Definition template_flows : dict :=
  [("initial", VDict []);
   ("initial_wastage", VDict []);
   ("recurrent", VDict []);
   ("recurrent_wastage", VDict []);
   ("life_cycle", VDict []);
   ("life_cycle_wastage", VDict [])].

(** Truth value of [self.service_life] *)
Definition service_life_set (service_life : option Z) : bool :=
  match service_life with
  | Some z => negb (z =? 0)
  | None => false
  end.

(** One iteration of the [try] / [except (ZeroDivisionError, TypeError)]
    of [_calculate_flows]. *)
Definition recurrent_of_material (period_of_analysis : Z) (embodied_flow : num)
  (material : EPiCMaterial.t * num) : outcome num :=
  match _get_num_replacements period_of_analysis
          (EPiCMaterial.service_life (fst material)) with
  | Ok replacements => Ok (nmul embodied_flow (NInt replacements))
  | Raise ZeroDivisionError => Ok (NFloat 0%Q)
  | Raise TypeError => Ok (NFloat 0%Q)
  | Raise e => Raise e
  end.

(** The list [result] of [_calculate_flows] as the first [if] / [elif] /
    [else] builds it, one embodied flow per material, before the period
    of analysis is looked at. *)
Definition initial_result (self : t) (materials_list : list (EPiCMaterial.t * num))
  (flow : string) (wastage_only : bool) (quantity : option num)
  : outcome (list num) :=
  let base_quantity := if wastage_only then NFloat 0%Q else NFloat 1%Q in
  let quantity :=
    match quantity with
    | None => total_units self
    | Some q => q
    end in
  match wastage_override self with
  | Some override =>
      if truthy override then
        map_m (fun m =>
                 coefficient <- EPiCMaterial.getattr (fst m) flow ;;
                 Ok (nmul (nmul (nmul quantity (nabs (snd m))) coefficient)
                       (nadd base_quantity override)))
          materials_list
      else
        map_m (fun m =>
                 coefficient <- EPiCMaterial.getattr (fst m) flow ;;
                 Ok (nmul (nmul (nmul quantity (nabs (snd m))) coefficient)
                       base_quantity))
          materials_list
  | None =>
      map_m (fun m =>
               coefficient <- EPiCMaterial.getattr (fst m) flow ;;
               Ok (nmul (nmul (nmul quantity (nabs (snd m))) coefficient)
                     (nadd base_quantity (EPiCMaterial.wastage (fst m)))))
        materials_list
  end.

(** [self._calculate_flows(materials_list, flow, wastage_only,
    period_of_analysis, quantity)] *)
Definition _calculate_flows (self : t) (materials_list : list (EPiCMaterial.t * num))
  (flow : string) (wastage_only : bool) (period_of_analysis : option Z)
  (quantity : option num) : outcome num :=
  result <- initial_result self materials_list flow wastage_only quantity ;;
  result <-
    match period_of_analysis with
    | None => Ok result
    | Some period =>
        if period =? 0 then Ok [NFloat 0%Q]
        else if (period >? 0) && service_life_set (service_life self) then
          replacements <- _get_num_replacements period (service_life self) ;;
          Ok (map (fun ef => nmul ef (NInt replacements)) result)
        else if (period >? 0) && negb (service_life_set (service_life self)) then
          map_m (fun em => recurrent_of_material period (fst em) (snd em))
            (combine result materials_list)
        else Ok result
    end ;;
  Ok (nsum result).

(** The body of the two loops of [_fill_flows_dict] for one
    [(flow_type, env_flow)] pair. *)
Definition fill_one (self : t) (period_of_analysis : option Z)
  (materials_list : list (EPiCMaterial.t * num)) (quantity : option num)
  (flow_type : string) (results : value) (env_flow : string) : outcome value :=
  let wastage_only := str_in "wastage" flow_type in
  let period :=
    if str_in "recurrent" flow_type then
      match period_of_analysis with
      | None => Some 0
      | Some p => Some p
      end
    else None in
  bucket <- getitem results flow_type ;;
  if negb (str_in "life" flow_type) then
    v <- _calculate_flows self materials_list env_flow wastage_only period quantity ;;
    bucket' <- setitem bucket env_flow (VNum v) ;;
    setitem results flow_type bucket'
  else
    initial_bucket <-
      getitem results (if wastage_only then "initial_wastage" else "initial") ;;
    initial <- getitem initial_bucket env_flow ;;
    recurrent_bucket <-
      getitem results (if wastage_only then "recurrent_wastage" else "recurrent") ;;
    recurrent <- getitem recurrent_bucket env_flow ;;
    total <- py_add initial recurrent ;;
    bucket' <- setitem bucket env_flow total ;;
    setitem results flow_type bucket'.

(** [self._fill_flows_dict(period_of_analysis, materials_list, quantity)] *)
Definition _fill_flows_dict (self : t) (period_of_analysis : option Z)
  (materials_list : option (list (EPiCMaterial.t * num))) (quantity : option num)
  : outcome value :=
  let materials_list :=
    match materials_list with
    | None => epic_materials self
    | Some l => l
    end in
  fold_m (fun results flow_type =>
            fold_m (fill_one self period_of_analysis materials_list quantity flow_type)
              DEFINED_FLOWS results)
    (map fst template_flows) (VDict template_flows).

(** The body of the loop of [calculate_flows] for one
    [(material, quantity)] pair. *)
Definition add_by_material (self : t) (period_of_analysis : option Z)
  (result : value) (mq : EPiCMaterial.t * num) : outcome value :=
  let material := fst mq in
  let quantity := snd mq in
  let mat_name := EPiCMaterial.name material in
  by_material <- _fill_flows_dict self period_of_analysis
                   (Some [(material, quantity)]) None ;;
  group <- getitem result "by_material" ;;
  present <- contains group mat_name ;;
  by_material <-
    (if negb present then
       d <- setitem by_material "quantity" (VNum quantity) ;;
       d <- setitem d "material_object" (VMat material) ;;
       setitem d "material_name" (VStr mat_name)
     else
       existing <- getitem group mat_name ;;
       merged <- sum_numerical_dictionary_values existing by_material ;;
       q <- getitem merged "quantity" ;;
       q' <- py_add q (VNum quantity) ;;
       merged <- setitem merged "quantity" q' ;;
       object <- getitem merged "material_object" ;;
       match object with
       | VMat first =>
           if (EPiCMaterial.material_id first =? EPiCMaterial.material_id material)%string
           then Ok merged
           else Raise ValueError
       | _ => Raise AttributeError
       end) ;;
  group' <- setitem group mat_name by_material ;;
  setitem result "by_material" group'.

(** [self.calculate_flows(period_of_analysis)] *)
Definition calculate_flows (self : t) (period_of_analysis : option Z)
  : outcome value :=
  result <- _fill_flows_dict self period_of_analysis None None ;;
  result <- setitem result "by_material" (VDict []) ;;
  fold_m (add_by_material self period_of_analysis) (epic_materials self) result.

(** [EPiCAssembly.__init__].  The geometry intake is external: the
    constructor receives the total that
    [verify_input_and_calculate_geometry_units] summed, and stores its
    absolute value.  [epic_materials] is the list of
    [(material, quantity)] inputs. *)
Definition __init__ (name : option string) (service_life : option Z)
  (wastage : option num) (units_total : num)
  (epic_materials : list (EPiCMaterial.t * num)) (category : option string)
  : outcome t :=
  let name :=
    match name with
    | Some n => if (n =? "")%string then "EPiC Assembly"
                else remove_commas_and_flatten_list_for_csv_export n
    | None => "EPiC Assembly"
    end in
  let category :=
    match category with
    | Some c => if (c =? "")%string then name
                else remove_commas_and_flatten_list_for_csv_export c
    | None => name
    end in
  let service_life :=
    match service_life with
    | Some z => if z =? 0 then None else Some (Z.abs z)
    | None => None
    end in
  wastage_override <-
    match wastage with
    | Some w =>
        if truthy w then
          r <- ndiv (nabs w) (NInt 100) ;; Ok (Some r)
        else Ok (Some (NFloat 0%Q))
    | None => Ok None
    end ;;
  let self := {|
    name := name;
    category := category;
    service_life := service_life;
    wastage_override := wastage_override;
    total_units := nabs units_total;
    epic_materials := map (fun y => (fst y, nabs (snd y))) epic_materials;
    flows := VNone;
    recalculated_flows := VNone
  |} in
  flows <- calculate_flows self None ;;
  recalculated_flows <- calculate_flows self None ;;
  Ok {|
    name := name;
    category := category;
    service_life := service_life;
    wastage_override := wastage_override;
    total_units := nabs units_total;
    epic_materials := map (fun y => (fst y, nabs (snd y))) epic_materials;
    flows := flows;
    recalculated_flows := recalculated_flows
  |}.

(** [assembly.recalculated_flows = v] *)
Definition set_recalculated_flows (self : t) (v : value) : t := {|
  name := name self;
  category := category self;
  service_life := service_life self;
  wastage_override := wastage_override self;
  total_units := total_units self;
  epic_materials := epic_materials self;
  flows := flows self;
  recalculated_flows := v
|}.

End EPiCAssembly.

(** ** Analyses and built assets *)

Module EPiCAnalysis.

(** An [EPiCAnalysis] (or, with [component_type = "EPiCBuiltAsset"], an
    [EPiCBuiltAsset]) after construction.  The graph elements are
    external and left out.  [epic_assemblies] holds the assemblies as the
    constructor left them, [recalculated_flows] overwritten. *)
Record t : Type := {
  component_type : string;
  name : string;
  period_of_analysis : option Z;
  epic_assemblies : list EPiCAssembly.t;
  epic_materials : list (EPiCMaterial.t * num);
  flows : value
}.

(** An element of the [epic_assemblies] argument of the constructor,
    told apart by its [component_type]. *)
Inductive input : Type :=
| Assembly (a : EPiCAssembly.t)
| Analysis (b : t).

(** [[mat[0].name for mat in assembly.epic_materials]] *)
Definition material_names (assembly : EPiCAssembly.t) : list string :=
  map (fun mat => EPiCMaterial.name (fst mat)) (EPiCAssembly.epic_materials assembly).

(** [k in names] *)
Definition name_in (k : string) (names : list string) : bool :=
  existsb (fun n => (k =? n)%string) names.

(** [self._sum_by_assembly_and_material(final_dict_result,
    iterative_dict_result, by_material, assembly)].  The source mutates
    [final_dict_result] in place; here the dictionary after the call is
    returned.  [assembly = None] is the default [assembly=False]. *)
Fixpoint _sum_by_assembly_and_material (final_dict_result iterative_dict_result : value)
  (by_material : bool) (assembly : option EPiCAssembly.t)
  {struct iterative_dict_result} : outcome value :=
  match iterative_dict_result with
  | VDict items =>
      (fix loop (items : dict) (final : value) {struct items} : outcome value :=
         match items with
         | [] => Ok final
         | (k, v) :: rest =>
             final' <-
               match v with
               | VDict _ =>
                   if (k =? "by_material")%string then
                     if by_material then
                       fs <- setdefault final k (VDict []) ;;
                       sub <- _sum_by_assembly_and_material (snd fs) v true assembly ;;
                       setitem (fst fs) k sub
                     else Ok final
                   else
                     fs <- setdefault final k (VDict []) ;;
                     sub <- _sum_by_assembly_and_material (snd fs) v false None ;;
                     final <- setitem (fst fs) k sub ;;
                     match assembly with
                     | Some a =>
                         if by_material
                            && (0 <? Z.of_nat (length (EPiCAssembly.epic_materials a)))
                            && name_in k (material_names a)
                         then
                           entry <- getitem final k ;;
                           present <- contains entry "by_assembly" ;;
                           entry <- (if negb present
                                     then setitem entry "by_assembly" (VDict [])
                                     else Ok entry) ;;
                           group <- getitem entry "by_assembly" ;;
                           present <- contains group (EPiCAssembly.name a) ;;
                           group <- (if negb present
                                     then setitem group (EPiCAssembly.name a) (VDict [])
                                     else Ok group) ;;
                           target <- getitem group (EPiCAssembly.name a) ;;
                           target <- _sum_by_assembly_and_material target v false None ;;
                           group <- setitem group (EPiCAssembly.name a) target ;;
                           entry <- setitem entry "by_assembly" group ;;
                           setitem final k entry
                         else Ok final
                     | None => Ok final
                     end
               | VNum (NFloat _) =>
                   old <- get final k (VNum (NInt 0)) ;;
                   new <- py_add old v ;;
                   setitem final k new
               | VStr s =>
                   present <- contains final k ;;
                   if present then
                     old <- getitem final k ;;
                     if negb (eq_str old s) then
                       old <- get final k (VStr "") ;;
                       with_sep <- py_add old (VStr "/") ;;
                       new <- py_add with_sep v ;;
                       setitem final k new
                     else Ok final
                   else setitem final k v
               | _ => setitem final k v
               end ;;
             loop rest final'
         end) items final_dict_result
  | _ => Raise AttributeError
  end.

(** The body of the loop of [sum_by_assembly_and_material] for one
    assembly. *)
Definition sum_one (result : value) (assembly : EPiCAssembly.t) : outcome value :=
  result <- _sum_by_assembly_and_material result
              (EPiCAssembly.recalculated_flows assembly) true (Some assembly) ;;
  present <- contains result "by_assembly" ;;
  result <- (if negb present then setitem result "by_assembly" (VDict [])
             else Ok result) ;;
  group <- getitem result "by_assembly" ;;
  present <- contains group (EPiCAssembly.category assembly) ;;
  group <- (if negb present
            then setitem group (EPiCAssembly.category assembly) (VDict [])
            else Ok group) ;;
  target <- getitem group (EPiCAssembly.category assembly) ;;
  target <- _sum_by_assembly_and_material target
              (EPiCAssembly.recalculated_flows assembly) true None ;;
  group <- setitem group (EPiCAssembly.category assembly) target ;;
  setitem result "by_assembly" group.

(** [self.sum_by_assembly_and_material()], as a function of
    [self.epic_assemblies] *)
Definition sum_by_assembly_and_material (epic_assemblies : list EPiCAssembly.t)
  : outcome value :=
  fold_m sum_one epic_assemblies (VDict []).

(** [assembly.recalculated_flows = assembly.calculate_flows(period_of_analysis)] *)
Definition recalculate (period_of_analysis : option Z) (assembly : EPiCAssembly.t)
  : outcome EPiCAssembly.t :=
  v <- EPiCAssembly.calculate_flows assembly period_of_analysis ;;
  Ok (EPiCAssembly.set_recalculated_flows assembly v).

(** The default of the [period_of_analysis] parameter of [__init__] *)
Definition default_period_of_analysis : option Z := Some 100.

(** [EPiCAnalysis.__init__(name, epic_assemblies, period_of_analysis)],
    without the graph; [epic_inputs] is the [epic_assemblies] argument. *)
Definition __init__ (name : option string) (epic_inputs : list input)
  (period_of_analysis : option Z) : outcome t :=
  let name :=
    match name with
    | Some n => if (n =? "")%string then "EPiCAnalysis"
                else remove_commas_and_flatten_list_for_csv_export n
    | None => "EPiCAnalysis"
    end in
  let built_asset_objects :=
    flat_map (fun x => match x with Analysis b => [b] | Assembly _ => [] end)
      epic_inputs in
  let assemblies :=
    flat_map (fun x => match x with Assembly a => [a] | Analysis _ => [] end)
      epic_inputs in
  let assemblies := (assemblies ++ flat_map epic_assemblies built_asset_objects)%list in
  let materials :=
    flat_map (fun x => map (fun y => (fst y, nmul (snd y) (EPiCAssembly.total_units x)))
                         (EPiCAssembly.epic_materials x))
      assemblies in
  assemblies <- map_m (recalculate period_of_analysis) assemblies ;;
  flows <- sum_by_assembly_and_material assemblies ;;
  Ok {|
    component_type := "EPiCAnalysis";
    name := name;
    period_of_analysis := period_of_analysis;
    epic_assemblies := assemblies;
    epic_materials := materials;
    flows := flows
  |}.

End EPiCAnalysis.

Module EPiCBuiltAsset.

(** [EPiCBuiltAsset.__init__]: it passes all its arguments on to the
    constructor of [EPiCAnalysis], then makes the two assignments. *)
Definition __init__ (name : option string) (epic_assemblies : list EPiCAnalysis.input)
  (period_of_analysis : option Z) : outcome EPiCAnalysis.t :=
  self <- EPiCAnalysis.__init__ name epic_assemblies period_of_analysis ;;
  Ok {|
    EPiCAnalysis.component_type := "EPiCBuiltAsset";
    EPiCAnalysis.name := EPiCAnalysis.name self;
    EPiCAnalysis.period_of_analysis := Some 0;
    EPiCAnalysis.epic_assemblies := EPiCAnalysis.epic_assemblies self;
    EPiCAnalysis.epic_materials := EPiCAnalysis.epic_materials self;
    EPiCAnalysis.flows := EPiCAnalysis.flows self
  |}.

(** The call of the Built Asset component,
    [epic.EPiCBuiltAsset(input_name, epic_assemblies, comments=...)]:
    [period_of_analysis] is left to its default. *)
Definition RunScript (input_name : option string)
  (epic_assemblies : list EPiCAnalysis.input) : outcome EPiCAnalysis.t :=
  __init__ (match input_name with
            | Some n => if (n =? "")%string then Some "EPiC Built Asset" else Some n
            | None => Some "EPiC Built Asset"
            end) epic_assemblies EPiCAnalysis.default_period_of_analysis.

End EPiCBuiltAsset.

(** ** Reading a flows dictionary *)

(** The six bucket names, in the order of the template. *)
Definition BUCKETS : list string := map fst EPiCAssembly.template_flows.

(** [d[bucket][flow]] *)
Definition leaf (d : value) (bucket flow : string) : outcome value :=
  b <- getitem d bucket ;; getitem b flow.

(** [d[bucket][flow]] holds a number that compares equal to zero. *)
Definition leaf_is_zero (d : value) (bucket flow : string) : Prop :=
  exists x, leaf d bucket flow = Ok (VNum x) /\ num_eqb x (NInt 0) = true.


(** ** Shapes of the computed dictionaries *)

(** A flow-totals table: bucket name, then flow name. *)
Definition table : Type := string -> string -> num.

(** Entry-wise sum of two tables *)
Definition tadd (F G : table) : table := fun b f => nadd (F b f) (G b f).

(** The dictionary of one bucket *)
Definition bucket_items (x : string -> num) : dict :=
  map (fun f => (f, VNum (x f))) DEFINED_FLOWS.

(** The six buckets that [_fill_flows_dict] returns *)
Definition flows_items (F : table) : dict :=
  map (fun b => (b, VDict (bucket_items (F b)))) BUCKETS.

(** An entry of [by_material]: the six buckets and the three metadata
    keys that [calculate_flows] adds. *)
Definition entry_items (F : table) (quantity : num) (material : EPiCMaterial.t)
  (mat_name : string) : dict :=
  (flows_items F ++
   [("quantity", VNum quantity);
    ("material_object", VMat material);
    ("material_name", VStr mat_name)])%list.

(** The number [_calculate_flows] returns ([0] where it raises) *)
Definition flow_value (self : EPiCAssembly.t)
  (materials_list : list (EPiCMaterial.t * num)) (flow : string)
  (wastage_only : bool) (period_of_analysis : option Z) (quantity : option num)
  : num :=
  match EPiCAssembly._calculate_flows self materials_list flow wastage_only
          period_of_analysis quantity with
  | Ok v => v
  | Raise _ => NInt 0
  end.

(** The period that [_fill_flows_dict] passes on for the recurrent
    buckets *)
Definition recurrent_period (period_of_analysis : option Z) : option Z :=
  match period_of_analysis with
  | None => Some 0
  | Some p => Some p
  end.

(** The table that [_fill_flows_dict] computes *)
Definition table_of (self : EPiCAssembly.t) (period_of_analysis : option Z)
  (materials_list : list (EPiCMaterial.t * num)) (quantity : option num) : table :=
  fun bucket flow =>
    let initial := flow_value self materials_list flow false None quantity in
    let initial_wastage := flow_value self materials_list flow true None quantity in
    let recurrent :=
      flow_value self materials_list flow false
        (recurrent_period period_of_analysis) quantity in
    let recurrent_wastage :=
      flow_value self materials_list flow true
        (recurrent_period period_of_analysis) quantity in
    if (bucket =? "initial")%string then initial
    else if (bucket =? "initial_wastage")%string then initial_wastage
    else if (bucket =? "recurrent")%string then recurrent
    else if (bucket =? "recurrent_wastage")%string then recurrent_wastage
    else if (bucket =? "life_cycle")%string then nadd initial recurrent
    else nadd initial_wastage recurrent_wastage.

(** ** The grouping by material, typed *)

(** The [by_material] dictionary seen through its shape: per material
    name, the table of the entry, its quantity and its material object. *)
Definition group : Type := list (string * (table * num * EPiCMaterial.t)).

(** The dictionary a typed group stands for *)
Definition group_items (G : group) : dict :=
  map (fun ne => (fst ne,
                  VDict (entry_items (fst (fst (snd ne))) (snd (fst (snd ne)))
                           (snd (snd ne)) (fst ne)))) G.

(** The loop body of [calculate_flows] on a typed group: a new name is
    appended; a known name has its table and quantity added to, and the
    catalog identifier of the stored object compared. *)
Definition group_step (self : EPiCAssembly.t) (period_of_analysis : option Z)
  (G : group) (mq : EPiCMaterial.t * num) : outcome group :=
  let material := fst mq in
  let quantity := snd mq in
  let mat_name := EPiCMaterial.name material in
  let F := table_of self period_of_analysis [(material, quantity)] None in
  match lookup mat_name G with
  | None => Ok (update mat_name (F, quantity, material) G)
  | Some (F0, quantity0, first) =>
      if (EPiCMaterial.material_id first =? EPiCMaterial.material_id material)%string
      then Ok (update mat_name (tadd F0 F, nadd quantity0 quantity, first) G)
      else Raise ValueError
  end.

(** The dictionary [calculate_flows] returns for a typed group *)
Definition flows_with_group (self : EPiCAssembly.t) (period_of_analysis : option Z)
  (G : group) : value :=
  VDict (flows_items (table_of self period_of_analysis
                        (EPiCAssembly.epic_materials self) None)
         ++ [("by_material", VDict (group_items G))])%list.

(** The material object stored under a name of a typed group *)
Definition stored_object (n : string) (G : group) : option EPiCMaterial.t :=
  option_map snd (lookup n G).



(** ** The aggregator seen key by key *)

(** The ["by_assembly"] block that [_sum_by_assembly_and_material] runs
    on [final_dict_result[k]] (with [by_material = false]) and
    [sum_by_assembly_and_material] on [result] (with [by_material = true]):
    [v] is merged into [entry["by_assembly"][key]], both dictionaries
    being created when missing. *)
Definition nest_by_assembly (by_material : bool) (key : string) (entry v : value)
  : outcome value :=
  present <- contains entry "by_assembly" ;;
  entry <- (if negb present then setitem entry "by_assembly" (VDict []) else Ok entry) ;;
  group <- getitem entry "by_assembly" ;;
  present <- contains group key ;;
  group <- (if negb present then setitem group key (VDict []) else Ok group) ;;
  target <- getitem group key ;;
  target <- EPiCAnalysis._sum_by_assembly_and_material target v by_material None ;;
  group <- setitem group key target ;;
  setitem entry "by_assembly" group.

(** One iteration of the loop of [_sum_by_assembly_and_material], as a
    function of the value [old] that [final_dict_result] holds under [k]:
    the value assigned to [k], or [None] when the iteration assigns
    nothing. *)
Definition item_step (by_material : bool) (assembly : option EPiCAssembly.t)
  (old : option value) (k : string) (v : value) : outcome (option value) :=
  let sub := match old with Some x => x | None => VDict [] end in
  match v with
  | VDict _ =>
      if (k =? "by_material")%string then
        if by_material then
          sub' <- EPiCAnalysis._sum_by_assembly_and_material sub v true assembly ;;
          Ok (Some sub')
        else Ok None
      else
        sub' <- EPiCAnalysis._sum_by_assembly_and_material sub v false None ;;
        match assembly with
        | Some a =>
            if by_material
               && (0 <? Z.of_nat (length (EPiCAssembly.epic_materials a)))
               && EPiCAnalysis.name_in k (EPiCAnalysis.material_names a)
            then
              entry <- nest_by_assembly false (EPiCAssembly.name a) sub' v ;;
              Ok (Some entry)
            else Ok (Some sub')
        | None => Ok (Some sub')
        end
  | VNum (NFloat _) =>
      new <- py_add (match old with Some x => x | None => VNum (NInt 0) end) v ;;
      Ok (Some new)
  | VStr s =>
      match old with
      | Some o =>
          if negb (eq_str o s) then
            with_sep <- py_add o (VStr "/") ;;
            new <- py_add with_sep v ;;
            Ok (Some new)
          else Ok None
      | None => Ok (Some v)
      end
  | _ => Ok (Some v)
  end.

(** The dictionary after an iteration that assigned [r] to [k] *)
Definition assign (k : string) (r : option value) (d : dict) : dict :=
  match r with
  | Some new => update k new d
  | None => d
  end.

(** The loop of [_sum_by_assembly_and_material] over [items], on the
    association list of [final_dict_result] *)
Definition merge_items (by_material : bool) (assembly : option EPiCAssembly.t)
  (items d : dict) : outcome dict :=
  fold_m (fun d kv =>
            r <- item_step by_material assembly (lookup (fst kv) d) (fst kv) (snd kv) ;;
            Ok (assign (fst kv) r d))
    items d.

(** ** Well-formed accumulators *)

(** The value under [k], when there is one, satisfies [P]. *)
Definition field_ok (P : value -> Prop) (k : string) (d : dict) : Prop :=
  forall v, lookup k d = Some v -> P v.

Definition is_num (v : value) : Prop := exists x, v = VNum x.

Definition is_str (v : value) : Prop := exists s, v = VStr s.

(** A dictionary all of whose values satisfy [P] *)
Definition dict_of (P : value -> Prop) (g : value) : Prop :=
  exists gd, g = VDict gd /\ forall k, field_ok P k gd.

(** What the aggregator can have accumulated where it merges buckets:
    numbers under the flow names, and under ["by_assembly"] a
    dictionary of such accumulators. *)
Inductive bucket_acc : value -> Prop :=
| bucket_acc_intro (d : dict) :
    (forall f, In f DEFINED_FLOWS -> field_ok is_num f d) ->
    field_ok (dict_of bucket_acc) "by_assembly" d ->
    bucket_acc (VDict d).

(** What the aggregator can have accumulated where it merges entries of
    [by_material]. *)
Inductive entry_acc : value -> Prop :=
| entry_acc_intro (d : dict) :
    (forall b, In b BUCKETS -> field_ok bucket_acc b d) ->
    field_ok is_num "quantity" d ->
    field_ok is_str "material_name" d ->
    field_ok (dict_of entry_acc) "by_assembly" d ->
    entry_acc (VDict d).

(** What the aggregator can have accumulated where it merges the flows
    of whole assemblies. *)
Definition flows_acc (v : value) : Prop :=
  exists d, v = VDict d /\
    (forall b, In b BUCKETS -> field_ok bucket_acc b d) /\
    field_ok (dict_of entry_acc) "by_material" d.

(** The result dictionary of [sum_by_assembly_and_material] between two
    assemblies. *)
Definition result_acc (v : value) : Prop :=
  exists d, v = VDict d /\
    (forall b, In b BUCKETS -> field_ok bucket_acc b d) /\
    field_ok (dict_of entry_acc) "by_material" d /\
    field_ok (dict_of flows_acc) "by_assembly" d.

(** The number a float or int leaf [x] leaves under a key that held
    [old]: floats add to what is there (to [0] when nothing is), anything
    else replaces it. *)
Definition acc_leaf (old : option value) (x : num) : value :=
  match x with
  | NFloat _ =>
      VNum (nadd (match old with Some (VNum o) => o | _ => NInt 0 end) x)
  | NInt _ => VNum x
  end.

(** [o[k]] for an optional dictionary [o] *)
Definition sub_lookup (o : option value) (k : string) : option value :=
  match o with
  | Some (VDict d) => lookup k d
  | _ => None
  end.

(** [o[bucket][flow]] for an optional dictionary [o] *)
Definition leaf_at (o : option value) (bucket flow : string) : option value :=
  sub_lookup (sub_lookup o bucket) flow.

(** The keys of an entry of [by_material] *)
Definition ENTRY_KEYS : list string :=
  (BUCKETS ++ ["quantity"; "material_object"; "material_name"])%list.

(** The keys of the dictionary that [calculate_flows] returns *)
Definition FLOWS_KEYS : list string := (BUCKETS ++ ["by_material"])%list.

(** The items of the dictionary [calculate_flows] returns *)
Definition assembly_items (T : table) (G : group) : dict :=
  (flows_items T ++ [("by_material", VDict (group_items G))])%list.

(** [d["by_material"][n]], when it is there *)
Definition entry_of (d : dict) (n : string) : option value :=
  sub_lookup (lookup "by_material" d) n.

(** Every leaf of a table is a float. *)
Definition table_of_floats (F : table) : Prop :=
  forall b f, In b BUCKETS -> In f DEFINED_FLOWS -> is_float (F b f) = true.

(** An assembly whose [recalculated_flows] is what a call of
    [calculate_flows] returned *)
Definition recalculated (a : EPiCAssembly.t) : Prop :=
  exists T G,
    EPiCAssembly.recalculated_flows a = VDict (assembly_items T G) /\
    NoDup (map fst G).

(** The assemblies an [EPiCAnalysis] is built on: the assemblies among
    the inputs, then those of the built assets and analyses among them. *)
Definition input_assemblies (epic_inputs : list EPiCAnalysis.input)
  : list EPiCAssembly.t :=
  (flat_map (fun x => match x with
                      | EPiCAnalysis.Assembly a => [a]
                      | EPiCAnalysis.Analysis _ => []
                      end) epic_inputs
   ++ flat_map EPiCAnalysis.epic_assemblies
        (flat_map (fun x => match x with
                            | EPiCAnalysis.Analysis b => [b]
                            | EPiCAnalysis.Assembly _ => []
                            end) epic_inputs))%list.

(** [d["by_material"][n]] *)
Definition entry (d : value) (n : string) : outcome value :=
  by_material <- getitem d "by_material" ;; getitem by_material n.

(** The leaf accumulated from [old] over the leaves [xs], in order *)
Definition acc_leaves (old : option value) (xs : list num) : option value :=
  fold_left (fun o x => Some (acc_leaf o x)) xs old.

(** An assembly with the table and the typed group of its
    [recalculated_flows] *)
Definition described : Type := EPiCAssembly.t * (table * group).

Definition well_described (ag : described) : Prop :=
  EPiCAssembly.recalculated_flows (fst ag)
  = VDict (assembly_items (fst (snd ag)) (snd (snd ag))) /\
  NoDup (map fst (snd (snd ag))).

(** The typed entries under the name [n], one per assembly that has the
    name, in the order of the assemblies *)
Definition named (n : string) (ags : list described)
  : list (table * num * EPiCMaterial.t) :=
  flat_map (fun ag => match lookup n (snd (snd ag)) with
                      | Some y => [y]
                      | None => []
                      end) ags.

(** The entries under the name [n] of the dictionaries [rs], one per
    dictionary that has the name, in order *)
Definition entries_named (rs : list value) (n : string) : list value :=
  flat_map (fun r => match entry r n with
                     | Ok e => [e]
                     | Raise _ => []
                     end) rs.

(** ** Wastage *)

(** The buckets that hold wastage only *)
Definition WASTAGE_BUCKETS : list string :=
  ["initial_wastage"; "recurrent_wastage"; "life_cycle_wastage"].

(** A number that compares equal to zero *)
Definition is_zero (x : num) : Prop := num_eqb x (NInt 0) = true.



(** Every wastage bucket of a table is zero for every flow. *)
Definition table_without_wastage (F : table) : Prop :=
  forall b f, In b WASTAGE_BUCKETS -> In f DEFINED_FLOWS -> is_zero (F b f).

(** Every wastage bucket of a dictionary is zero for every flow. *)
Definition no_wastage (d : value) : Prop :=
  forall b f, In b WASTAGE_BUCKETS -> In f DEFINED_FLOWS -> leaf_is_zero d b f.

(** ** Recurrent flows *)

Definition RECURRENT_BUCKETS : list string := ["recurrent"; "recurrent_wastage"].

(** No period of analysis, or a period of [0] *)
Definition no_period (period_of_analysis : option Z) : Prop :=
  period_of_analysis = None \/ period_of_analysis = Some 0.

(** Every recurrent bucket of a table is zero for every flow. *)
Definition table_without_recurrent (F : table) : Prop :=
  forall b f, In b RECURRENT_BUCKETS -> In f DEFINED_FLOWS -> is_zero (F b f).

(** Every recurrent bucket of a dictionary is zero for every flow. *)
Definition no_recurrent (d : value) : Prop :=
  forall b f, In b RECURRENT_BUCKETS -> In f DEFINED_FLOWS -> leaf_is_zero d b f.

(** Every recurrent leaf that a dictionary has is a number equal to
    zero. *)
Definition recurrent_leaves_zero (d : dict) : Prop :=
  forall b f x, In b RECURRENT_BUCKETS -> In f DEFINED_FLOWS ->
    sub_lookup (lookup b d) f = Some x -> exists z, x = VNum z /\ is_zero z.

(** What the recurrent loop adds for one material, in the words of the
    specification: the material's embodied flow [c] times
    [num_replacements(period, service_life)], and [0.] for a material
    whose service life is [0] or [None]. *)
Definition recurrent_contribution (period : Z) (c : num) (m : EPiCMaterial.t)
  (r : num) : Prop :=
  match EPiCMaterial.service_life m with
  | None => r = NFloat 0%Q
  | Some sl =>
      if sl =? 0 then r = NFloat 0%Q
      else exists n, _get_num_replacements period (Some sl) = Ok n /\
                     r = nmul c (NInt n)
  end.

(** ** Example data *)

Module Examples.

Definition steel : EPiCMaterial.t := {|
  EPiCMaterial.name := "Steel";
  EPiCMaterial.energy := NFloat 10%Q;
  EPiCMaterial.water := NFloat 3%Q;
  EPiCMaterial.ghg := NInt 2;
  EPiCMaterial.functional_unit := "kg";
  EPiCMaterial.material_id := "m-steel";
  EPiCMaterial.wastage := NFloat (1 # 10);
  EPiCMaterial.service_life := Some 10
|}.

(** A material that is never replaced: service life [0]. *)
Definition concrete : EPiCMaterial.t := {|
  EPiCMaterial.name := "Concrete";
  EPiCMaterial.energy := NFloat 4%Q;
  EPiCMaterial.water := NFloat 7%Q;
  EPiCMaterial.ghg := NFloat 1%Q;
  EPiCMaterial.functional_unit := "m3";
  EPiCMaterial.material_id := "m-concrete";
  EPiCMaterial.wastage := NFloat (1 # 20);
  EPiCMaterial.service_life := Some 0
|}.

(** A material whose service life is undefined. *)
Definition glass : EPiCMaterial.t := {|
  EPiCMaterial.name := "Glass";
  EPiCMaterial.energy := NFloat 6%Q;
  EPiCMaterial.water := NFloat 2%Q;
  EPiCMaterial.ghg := NFloat 5%Q;
  EPiCMaterial.functional_unit := "m2";
  EPiCMaterial.material_id := "m-glass";
  EPiCMaterial.wastage := NFloat (1 # 4);
  EPiCMaterial.service_life := None
|}.

(** An assembly without overrides, before its flows are computed. *)
Definition wall : EPiCAssembly.t := {|
  EPiCAssembly.name := "Wall";
  EPiCAssembly.category := "Walls";
  EPiCAssembly.service_life := None;
  EPiCAssembly.wastage_override := None;
  EPiCAssembly.total_units := NInt 5;
  EPiCAssembly.epic_materials := [(steel, NInt 2); (concrete, NFloat 3%Q); (glass, NInt 1)];
  EPiCAssembly.flows := VNone;
  EPiCAssembly.recalculated_flows := VNone
|}.

(** The name of [steel] under another catalog identifier. *)
Definition steel_imported : EPiCMaterial.t := {|
  EPiCMaterial.name := "Steel";
  EPiCMaterial.energy := NFloat 12%Q;
  EPiCMaterial.water := NFloat 3%Q;
  EPiCMaterial.ghg := NInt 2;
  EPiCMaterial.functional_unit := "kg";
  EPiCMaterial.material_id := "m-steel-imported";
  EPiCMaterial.wastage := NFloat (1 # 10);
  EPiCMaterial.service_life := Some 10
|}.

(** An assembly that lists [steel] twice. *)
Definition frame : EPiCAssembly.t := {|
  EPiCAssembly.name := "Frame";
  EPiCAssembly.category := "Structure";
  EPiCAssembly.service_life := Some 40;
  EPiCAssembly.wastage_override := Some (NFloat (1 # 5));
  EPiCAssembly.total_units := NFloat (7 # 2);
  EPiCAssembly.epic_materials := [(steel, NInt 2); (concrete, NInt 1); (steel, NFloat 3%Q)];
  EPiCAssembly.flows := VNone;
  EPiCAssembly.recalculated_flows := VNone
|}.

(** An assembly with the two steels. *)
Definition clash : EPiCAssembly.t := {|
  EPiCAssembly.name := "Clash";
  EPiCAssembly.category := "Structure";
  EPiCAssembly.service_life := None;
  EPiCAssembly.wastage_override := None;
  EPiCAssembly.total_units := NInt 1;
  EPiCAssembly.epic_materials := [(steel, NInt 2); (steel_imported, NInt 3)];
  EPiCAssembly.flows := VNone;
  EPiCAssembly.recalculated_flows := VNone
|}.

(** Two assemblies of one unit each, holding [steel] and the other
    steel. *)
Definition beam : EPiCAssembly.t := {|
  EPiCAssembly.name := "Beam";
  EPiCAssembly.category := "Structure";
  EPiCAssembly.service_life := None;
  EPiCAssembly.wastage_override := None;
  EPiCAssembly.total_units := NInt 1;
  EPiCAssembly.epic_materials := [(steel, NInt 2); (concrete, NFloat 1%Q)];
  EPiCAssembly.flows := VNone;
  EPiCAssembly.recalculated_flows := VNone
|}.

Definition column : EPiCAssembly.t := {|
  EPiCAssembly.name := "Column";
  EPiCAssembly.category := "Structure";
  EPiCAssembly.service_life := None;
  EPiCAssembly.wastage_override := None;
  EPiCAssembly.total_units := NInt 1;
  EPiCAssembly.epic_materials := [(glass, NFloat 4%Q); (steel_imported, NInt 3)];
  EPiCAssembly.flows := VNone;
  EPiCAssembly.recalculated_flows := VNone
|}.

(** Two assemblies of one material each, [steel] in the int
    quantities [2] and [3]. *)
Definition panel_two : EPiCAssembly.t := {|
  EPiCAssembly.name := "Panel A";
  EPiCAssembly.category := "Panels";
  EPiCAssembly.service_life := None;
  EPiCAssembly.wastage_override := None;
  EPiCAssembly.total_units := NInt 1;
  EPiCAssembly.epic_materials := [(steel, NInt 2)];
  EPiCAssembly.flows := VNone;
  EPiCAssembly.recalculated_flows := VNone
|}.

Definition panel_three : EPiCAssembly.t := {|
  EPiCAssembly.name := "Panel B";
  EPiCAssembly.category := "Panels";
  EPiCAssembly.service_life := None;
  EPiCAssembly.wastage_override := None;
  EPiCAssembly.total_units := NInt 1;
  EPiCAssembly.epic_materials := [(steel, NInt 3)];
  EPiCAssembly.flows := VNone;
  EPiCAssembly.recalculated_flows := VNone
|}.

End Examples.


From Stdlib Require Import Permutation Sorted.

(** * Further functions of [epic/epic.py] *)

(** ** Sequences, the Python way *)

(** The position a slice bound [k] stands for in a sequence of length
    [n]: a negative bound counts from the end, and bounds are clipped to
    the sequence. *)
Definition slice_bound (k : Z) (n : nat) : nat :=
  Z.to_nat (if k <? 0 then Z.max 0 (Z.of_nat n + k) else Z.min k (Z.of_nat n)).

(** [l[k:]] *)
Definition slice_from {A : Type} (k : Z) (l : list A) : list A :=
  skipn (slice_bound k (List.length l)) l.

(** [l[k:] = new], the list after the assignment *)
Definition set_slice_from {A : Type} (k : Z) (l new : list A) : list A :=
  (firstn (slice_bound k (List.length l)) l ++ new)%list.

(** [range(a, b)] *)
Definition range (a b : Z) : list Z :=
  map (fun i => a + Z.of_nat i) (seq 0 (Z.to_nat (b - a))).

(** ** Number of instances over the years *)

(** [_get_accumulated_number_of_instances(period_of_analysis,
    service_life, include_initial)].  [[1] * period_of_analysis] is empty
    for a period that is not positive; [replacement * service_life] with
    [service_life = None] would raise [TypeError], but
    [_get_num_replacements] has raised before. *)
Definition _get_accumulated_number_of_instances (period_of_analysis : Z)
  (service_life : option Z) (include_initial : bool) : outcome (list Z) :=
  let acc_num_instances :=
    if include_initial then repeat 1 (Z.to_nat period_of_analysis)
    else repeat 0 (Z.to_nat period_of_analysis) in
  num_replacements <- _get_num_replacements period_of_analysis service_life ;;
  if num_replacements =? 0 then Ok acc_num_instances
  else
    fold_m (fun acc_num_instances replacement =>
              match service_life with
              | Some service_life =>
                  Ok (set_slice_from (replacement * service_life) acc_num_instances
                        (map (fun num_instances => num_instances + 1)
                           (slice_from (replacement * service_life)
                              acc_num_instances)))
              | None => Raise TypeError
              end)
      (range 1 (num_replacements + 1)) acc_num_instances.

(** The list after the replacements [1] to [j]: year [y] holds the
    initial count plus the replacements that have happened by then. *)
Definition instances_after (service_life init : Z) (years j : nat) : list Z :=
  map (fun y => init + Z.min (Z.of_nat y / service_life) (Z.of_nat j)) (seq 0 years).

(** ** Text for the reports *)

(** [text.replace(' ', '_')] *)
Fixpoint replace_spaces (text : string) : string :=
  match text with
  | EmptyString => EmptyString
  | String c rest =>
      String (if Ascii.eqb c " "%char then "_"%char else c) (replace_spaces rest)
  end.

(** [c in text] for a character [c] *)
Fixpoint has_char (c : ascii) (text : string) : bool :=
  match text with
  | EmptyString => false
  | String c' rest => Ascii.eqb c' c || has_char c rest
  end.

Module Csv.

(** What [remove_commas_and_flatten_list_for_csv_export] is called on: a
    list of strings, a string, or something else. *)
Inductive text : Type :=
| TextList (items : list string)
| TextStr (s : string)
| TextOther (v : value).

(** [remove_commas_and_flatten_list_for_csv_export(text_inputs,
    list_separator, remove_spaces, limit_characters)], all parameters
    given. *)
Definition remove_commas_and_flatten_list_for_csv_export (text_inputs : text)
  (list_separator : string) (remove_spaces limit_characters : bool) : text :=
  match text_inputs with
  | TextOther v => TextOther v
  | _ =>
      let flat_text :=
        match text_inputs with
        | TextList items => replace_commas (String.concat list_separator items)
        | TextStr s => replace_commas s
        | TextOther _ => ""
        end in
      let flat_text := if remove_spaces then replace_spaces flat_text else flat_text in
      let flat_text := if limit_characters then substring 0 50 flat_text else flat_text in
      TextStr flat_text
  end.

End Csv.

(** ** Material names with their functional unit *)

(** The first position of the character [c] in [s] *)
Fixpoint find_char (c : ascii) (s : string) : option nat :=
  match s with
  | EmptyString => None
  | String c' rest =>
      if Ascii.eqb c' c then Some 0%nat else option_map S (find_char c rest)
  end.

(** [s.index(c)] for a one-character string [c] *)
Definition str_index (c : ascii) (s : string) : outcome Z :=
  match find_char c s with
  | Some i => Ok (Z.of_nat i)
  | None => Raise ValueError
  end.

(** [s[:k]] *)
Definition str_slice_to (k : Z) (s : string) : string :=
  substring 0 (slice_bound k (String.length s)) s.

(** [EPiCMaterial.remove_func_unit_from_mat_name(mat_name_and_func_unit)] *)
Definition remove_func_unit_from_mat_name (mat_name_and_func_unit : string)
  : outcome string :=
  i <- str_index "|"%char mat_name_and_func_unit ;;
  Ok (str_slice_to (i - 1) mat_name_and_func_unit).

(** [EPiCMaterial._concatenate_mat_name_func_unit(mat_name, functional_unit)] *)
Definition _concatenate_mat_name_func_unit (mat_name functional_unit : string)
  : string :=
  ((((mat_name ++ " ") ++ "|") ++ " (") ++ functional_unit) ++ ")".

(** ** Functional units *)



(** The strings ['m²'] and ['m³'], in the UTF-8 bytes of the source file *)
Definition SQUARE_METRE : string :=
  String "m"%char (String (ascii_of_nat 194) (String (ascii_of_nat 178) EmptyString)).

Definition CUBIC_METRE : string :=
  String "m"%char (String (ascii_of_nat 194) (String (ascii_of_nat 179) EmptyString)).




(** ** The dictionary merge, one key at a time *)

(** One iteration of the loop of [sum_numerical_dictionary_values], on
    the item [(key, value)] of [dict_2] *)
Definition sum_numerical_step (dict_3 : value) (item : string * value)
  : outcome value :=
  match snd item with
  | VNum _ =>
      old <- getitem dict_3 (fst item) ;;
      new <- py_add old (snd item) ;;
      setitem dict_3 (fst item) new
  | VDict _ =>
      old <- getitem dict_3 (fst item) ;;
      new <- sum_numerical_dictionary_values old (snd item) ;;
      setitem dict_3 (fst item) new
  | _ => Ok dict_3
  end.

(** A value that [sum_numerical_dictionary_values] merges: a number or a
    dictionary *)
Definition is_summed (v : value) : bool :=
  match v with
  | VNum _ | VDict _ => true
  | _ => false
  end.

(** ** Materials of one name *)

(** Materials of the same name bear the same catalog identifier. *)
Definition consistent_ids (materials : list (EPiCMaterial.t * num)) : Prop :=
  forall m1 q1 m2 q2,
    In (m1, q1) materials -> In (m2, q2) materials ->
    EPiCMaterial.name m1 = EPiCMaterial.name m2 ->
    EPiCMaterial.material_id m1 = EPiCMaterial.material_id m2.

(** ** Flows in closed form *)

(** The sum of [f] over a list, in the rationals *)
Definition qsum {A : Type} (f : A -> Q) (l : list A) : Q :=
  fold_right (fun a acc => (f a + acc)%Q) 0%Q l.

(** The coefficient of a material for a flow *)
Definition coefficient (m : EPiCMaterial.t) (flow : string) : Q :=
  match EPiCMaterial.getattr m flow with
  | Ok c => to_float c
  | Raise _ => 0%Q
  end.

(** The wastage fraction applied to a material: the override of the
    assembly when it has one, the material's own otherwise *)
Definition wastage_fraction (self : EPiCAssembly.t) (m : EPiCMaterial.t) : Q :=
  match EPiCAssembly.wastage_override self with
  | Some override => to_float override
  | None => to_float (EPiCMaterial.wastage m)
  end.

(** The embodied flow of one material of an assembly: units of the
    assembly, times the quantity of the material per unit, times its
    coefficient, times one plus the wastage fraction (the wastage
    fraction alone when only wastage is asked for). *)
Definition embodied_flow (self : EPiCAssembly.t) (flow : string) (wastage_only : bool)
  (mq : EPiCMaterial.t * num) : Q :=
  (to_float (EPiCAssembly.total_units self) * Qabs (to_float (snd mq))
   * coefficient (fst mq) flow
   * ((if wastage_only then 0 else 1) + wastage_fraction self (fst mq)))%Q.

(** The service life that decides the replacements of a material: that
    of the assembly when it is set, the material's own otherwise *)
Definition service_life_of (self : EPiCAssembly.t) (m : EPiCMaterial.t) : option Z :=
  if EPiCAssembly.service_life_set (EPiCAssembly.service_life self)
  then EPiCAssembly.service_life self
  else EPiCMaterial.service_life m.

(** The number of times a material is replaced within the period: none
    where [_get_num_replacements] raises *)
Definition replacements_of (self : EPiCAssembly.t) (period : Z) (m : EPiCMaterial.t) : Z :=
  match _get_num_replacements period (service_life_of self m) with
  | Ok n => n
  | Raise _ => 0
  end.

(** The element of the list [result] of [_calculate_flows] for one
    material, before the period is looked at *)
Definition embodied (self : EPiCAssembly.t) (flow : string) (wastage_only : bool)
  (quantity : num) (m : EPiCMaterial.t * num) : num :=
  let base_quantity := if wastage_only then NFloat 0%Q else NFloat 1%Q in
  let coefficient :=
    match EPiCMaterial.getattr (fst m) flow with
    | Ok c => c
    | Raise _ => NInt 0
    end in
  nmul (nmul (nmul quantity (nabs (snd m))) coefficient)
    (match EPiCAssembly.wastage_override self with
     | Some override =>
         if truthy override then nadd base_quantity override else base_quantity
     | None => nadd base_quantity (EPiCMaterial.wastage (fst m))
     end).

(** The number under [d[bucket][flow]] as a rational ([0] where there is
    no number) *)
Definition leaf_float (d : value) (bucket flow : string) : Q :=
  match leaf d bucket flow with
  | Ok (VNum x) => to_float x
  | _ => 0%Q
  end.


(** The materials of a list that bear the name [n] *)
Definition materials_named (n : string) (materials : list (EPiCMaterial.t * num))
  : list (EPiCMaterial.t * num) :=
  filter (fun mq => (EPiCMaterial.name (fst mq) =? n)%string) materials.

(** The quantity a typed group holds under a name *)
Definition quantity_of (n : string) (G : group) : option num :=
  option_map (fun x => snd (fst x)) (lookup n G).

(** A quantity that may be missing, as a rational *)
Definition quantity_float (q : option num) : Q :=
  match q with
  | Some x => to_float x
  | None => 0%Q
  end.

(** ** More example data *)

Module MoreExamples.

(** An assembly that has no material yet *)
Definition shell : EPiCAssembly.t := {|
  EPiCAssembly.name := "Shell";
  EPiCAssembly.category := "Shell";
  EPiCAssembly.service_life := None;
  EPiCAssembly.wastage_override := None;
  EPiCAssembly.total_units := NInt 1;
  EPiCAssembly.epic_materials := [];
  EPiCAssembly.flows := VNone;
  EPiCAssembly.recalculated_flows := VNone
|}.

End MoreExamples.

(** ** Inputs of the analysis component *)

Module Inputs.

Import EPiCAnalysis.

(** [x.component_type == 'EPiCAssembly' or x.component_type == 'EPiCBuiltAsset'] *)
Definition is_assembly_or_built_asset (x : input) : bool :=
  match x with
  | Assembly _ => true
  | Analysis b => (component_type b =? "EPiCBuiltAsset")%string
  end.

(** [x.component_type == 'EPiCAssembly'] *)
Definition is_assembly (x : input) : bool :=
  match x with
  | Assembly _ => true
  | Analysis _ => false
  end.

(** [x.component_type == 'EPiCBuiltAsset'] *)
Definition is_built_asset (x : input) : bool :=
  match x with
  | Assembly _ => false
  | Analysis b => (component_type b =? "EPiCBuiltAsset")%string
  end.

(** [x.name] of an input *)
Definition input_name (x : input) : string :=
  match x with
  | Assembly a => EPiCAssembly.name a
  | Analysis b => name b
  end.

(** An input as the analyses built on it leave it: its assemblies are
    shared with them and have been recalculated in place. *)
Definition recalculated_input (period_of_analysis : option Z) (x : input)
  : outcome input :=
  match x with
  | Assembly a =>
      a' <- recalculate period_of_analysis a ;; Ok (Assembly a')
  | Analysis b =>
      assemblies <- map_m (recalculate period_of_analysis) (epic_assemblies b) ;;
      Ok (Analysis {|
            component_type := component_type b;
            name := name b;
            period_of_analysis := EPiCAnalysis.period_of_analysis b;
            epic_assemblies := assemblies;
            epic_materials := epic_materials b;
            flows := flows b
          |})
  end.

(** [EPiCAnalysis.process_inputs(epic_inputs, ..., period_of_analysis,
    report_name, epic_assemblies_name)], without the graph: the analysis
    (or [None]) and the inputs that were kept.  An element of
    [epic_inputs] is [None] or an object that is true. *)
Definition process_inputs (epic_inputs : list (option input))
  (period_of_analysis : option Z) (report_name epic_assemblies_name : string)
  : outcome (option t * list input) :=
  let epic_inputs :=
    flat_map (fun x => match x with Some i => [i] | None => [] end) epic_inputs in
  let epic_inputs := filter is_assembly_or_built_asset epic_inputs in
  let epic_assemblies := filter is_assembly epic_inputs in
  let built_assets := filter is_built_asset epic_inputs in
  of_built_assets <-
    map_m (fun built_asset =>
             __init__ (Some (input_name built_asset)) [built_asset] period_of_analysis)
      built_assets ;;
  of_assemblies <-
    match epic_assemblies with
    | [] => Ok []
    | _ :: _ =>
        an <- __init__ (Some epic_assemblies_name) epic_assemblies period_of_analysis ;;
        Ok [an]
    end ;;
  let _epic_analyses := (of_built_assets ++ of_assemblies)%list in
  match _epic_analyses with
  | [] => Ok (None, epic_inputs)
  | _ :: _ =>
      epic_analysis <- __init__ (Some report_name) (map Analysis _epic_analyses)
                         period_of_analysis ;;
      epic_inputs <- map_m (recalculated_input period_of_analysis) epic_inputs ;;
      Ok (Some epic_analysis, epic_inputs)
  end.

(** The inputs that [process_inputs] keeps: the assemblies and the
    built assets *)
Definition kept_inputs (epic_inputs : list (option input)) : list input :=
  filter is_assembly_or_built_asset
    (flat_map (fun x => match x with Some i => [i] | None => [] end) epic_inputs).

(** The assemblies of the kept inputs in the order in which the report
    takes them: those of each built asset, then the assemblies given
    directly *)
Definition analysed_assemblies (inputs : list input) : list EPiCAssembly.t :=
  (flat_map (fun x => input_assemblies [x]) (filter is_built_asset inputs)
   ++ input_assemblies (filter is_assembly inputs))%list.

End Inputs.

(** ** Nested lists *)

(** An element of a list that may hold lists *)
Inductive nested (A : Type) : Type :=
| Item (a : A)
| Nested (items : list (nested A)).

Arguments Item {A} a.
Arguments Nested {A} items.

(** What one [list_item] adds to [list_vals] in the loop of
    [_flatten_list]: the item itself, or the flattened list it is *)
Fixpoint flatten_item {A : Type} (list_item : nested A) : list A :=
  match list_item with
  | Item a => [a]
  | Nested items => flat_map flatten_item items
  end.

(** [_flatten_list(list_of_lists)] *)
Definition _flatten_list {A : Type} (list_of_lists : list (nested A)) : list A :=
  flat_map flatten_item list_of_lists.

(** ** The units of an assembly *)

Section Geometry.

(** The Rhino geometries, and what the branch of a functional unit does
    with one: the type tests that raise [TypeError] on a geometry of the
    wrong kind, then the measurement by [ghcomponents.Length],
    [Area(...)[0]] or [Volume(...)[0]]; the geometry that is kept is
    the one measured (a closed planar polyline is turned into a
    surface). *)
Variable shape : Type.
Variable measure : string -> shape -> outcome (num * shape).

(** An element of [selected_geometry]: [None], a number or a geometry
    (an object, hence true). *)
Inductive geometry : Type :=
| GNone
| GNumber (x : num)
| GShape (s : shape).

(** One iteration of the loop of
    [verify_input_and_calculate_geometry_units], on [total_units],
    [individual_units] and [self.output_geometry] *)
Definition add_geometry (assembly_units : string)
  (state : num * list num * list shape) (geometry : geometry)
  : outcome (num * list num * list shape) :=
  let total_units := fst (fst state) in
  let individual_units := snd (fst state) in
  let output_geometry := snd state in
  match geometry with
  | GNone => Ok state
  | GNumber x =>
      if truthy x
      then Ok (nadd total_units x, (individual_units ++ [x])%list, output_geometry)
      else Ok state
  | GShape s =>
      measured <-
        (if (assembly_units =? "no.")%string then Ok (NInt 1, s)
         else if (assembly_units =? "m")%string then measure "m" s
         else if (assembly_units =? SQUARE_METRE)%string then measure SQUARE_METRE s
         else if (assembly_units =? CUBIC_METRE)%string then measure CUBIC_METRE s
         else Raise ValueError) ;;
      Ok (nadd total_units (fst measured), (individual_units ++ [fst measured])%list,
          (output_geometry ++ [snd measured])%list)
  end.

(** [self.verify_input_and_calculate_geometry_units(selected_geometry,
    assembly_units)]: [total_units], [individual_units] and the
    geometries added to [self.output_geometry]. *)
Definition verify_input_and_calculate_geometry_units
  (selected_geometry : list geometry) (assembly_units : string)
  : outcome (num * list num * list shape) :=
  state <- fold_m (add_geometry assembly_units) selected_geometry (NInt 0, [], []) ;;
  Ok (nabs (fst (fst state)), snd (fst state), snd state).

(** The numbers among the geometries that are not zero, in order *)
Definition numbers_given (selected_geometry : list geometry) : list num :=
  flat_map (fun g => match g with
                     | GNumber x => if truthy x then [x] else []
                     | _ => []
                     end) selected_geometry.

(** No geometry object among the inputs *)
Definition numbers_only (selected_geometry : list geometry) : Prop :=
  Forall (fun g => match g with GShape _ => False | _ => True end) selected_geometry.

(** What each input counts for under the unit ['no.']: a number for
    itself when it is not zero, a geometry for one *)
Definition counted (selected_geometry : list geometry) : list num :=
  flat_map (fun g => match g with
                     | GNone => []
                     | GNumber x => if truthy x then [x] else []
                     | GShape _ => [NInt 1]
                     end) selected_geometry.

End Geometry.

Arguments GNone {shape}.
Arguments GNumber {shape} x.
Arguments GShape {shape} s.

(** ** Ranking the columns of a graph *)

(** [a < b] on numbers *)
Definition num_ltb (a b : num) : bool := negb (Qle_bool (to_float b) (to_float a)).

(** [max(d, key=d.get)] over the items of a dictionary that is not
    empty, [best] being the first: the first item with the greatest
    value. *)
Fixpoint max_item (best : string * num) (rest : list (string * num)) : string * num :=
  match rest with
  | [] => best
  | item :: rest' =>
      if num_ltb (snd best) (snd item) then max_item item rest'
      else max_item best rest'
  end.

(** The dictionary after [d.pop(k)] *)
Fixpoint remove_key {A : Type} (k : string) (d : list (string * A))
  : list (string * A) :=
  match d with
  | [] => []
  | (k', v) :: rest => if (k' =? k)%string then rest else (k', v) :: remove_key k rest
  end.

(** [{'max_value': v, 'group_label_origin': None}] *)
Definition ranked_entry (item : string * num) : string * value :=
  (fst item, VDict [("max_value", VNum (snd item)); ("group_label_origin", VNone)]).

(** The [while] loop of [_sort_dictionary_highest_to_lowest_value], run
    for at most [fuel] iterations: the ranked dictionary and what is
    left of [dictionary_to_rank]. *)
Fixpoint rank (fuel : nat) (dictionary_to_rank : list (string * num))
  (ranked_dictionary : dict) : dict * list (string * num) :=
  match fuel with
  | O => (ranked_dictionary, dictionary_to_rank)
  | S fuel' =>
      match dictionary_to_rank with
      | [] => (ranked_dictionary, dictionary_to_rank)
      | first :: rest =>
          let max := max_item first rest in
          rank fuel' (remove_key (fst max) dictionary_to_rank)
            (update (fst max) (snd (ranked_entry max)) ranked_dictionary)
      end
  end.

(** [_sort_dictionary_highest_to_lowest_value(dictionary_to_rank)]: the
    new dictionary, and the argument as the call leaves it.  Each
    iteration pops a key, so as many iterations as there are keys
    suffice. *)
Definition _sort_dictionary_highest_to_lowest_value
  (dictionary_to_rank : list (string * num)) : dict * list (string * num) :=
  rank (List.length dictionary_to_rank) dictionary_to_rank [].

(** ** Tints *)

(** [a - b] *)
Definition nsub (a b : num) : num :=
  match a, b with
  | NInt x, NInt y => NInt (x - y)
  | _, _ => NFloat (Qred (to_float a - to_float b))
  end.

(** [min([a, b])]: [a] unless [b] is less *)
Definition nmin (a b : num) : num := if num_ltb b a then b else a.

(** [GraphSegment.make_tint(colour_tuple, tint_factor)] on an
    [(A, R, G, B)] tuple *)
Definition make_tint (colour_tuple : num * num * num * num) (tint_factor : num)
  : num * num * num * num :=
  let alpha := fst (fst (fst colour_tuple)) in
  let red := snd (fst (fst colour_tuple)) in
  let green := snd (fst colour_tuple) in
  let blue := snd colour_tuple in
  let newR := nmin (NInt 255) (nadd red (nmul (nsub (NInt 255) red) tint_factor)) in
  let newG := nmin (NInt 255) (nadd green (nmul (nsub (NInt 255) green) tint_factor)) in
  let newB := nmin (NInt 255) (nadd blue (nmul (nsub (NInt 255) blue) tint_factor)) in
  (alpha, newR, newG, newB).

(** ** Looking a material up by its name *)

(** [[key for key, value in d.items() if lookup_item == value][0]], when
    the list is not empty *)
Fixpoint first_key_of (lookup_item : string) (d : list (string * value))
  : option string :=
  match d with
  | [] => None
  | (key, value) :: rest =>
      if eq_str value lookup_item then Some key else first_key_of lookup_item rest
  end.

(** [EPiCDatabase._query_for_name_or_old_mat_id(lookup_item)] for a
    string, as a function of [self.dict_of_ids_and_names] and
    [self.dict_of_legacy_names]; [lookup_item in d.values()] holds
    exactly when the list of the matching keys is not empty. *)
Definition _query_for_name_or_old_mat_id
  (dict_of_ids_and_names dict_of_legacy_names : list (string * value))
  (lookup_item : string) : outcome (option string) :=
  lookup_item <-
    (if has_char "|"%char lookup_item
     then remove_func_unit_from_mat_name lookup_item
     else Ok lookup_item) ;;
  match first_key_of lookup_item dict_of_ids_and_names with
  | Some key => Ok (Some key)
  | None =>
      match first_key_of lookup_item dict_of_legacy_names with
      | Some key => Ok (Some key)
      | None => Ok None
      end
  end.
(** * Properties *)

(** ** Arithmetic of Python numbers *)

Section NumFacts.

Lemma Qred_eq (x y : Q) : (x == y)%Q -> Qred x = Qred y.
Proof. apply Qred_complete. Qed.

Lemma fadd_comm (x y : float) : fadd x y = fadd y x.
Proof. unfold fadd. apply Qred_eq. ring. Qed.

Lemma fadd_interchange (a b c d : float) :
  fadd (fadd a b) (fadd c d) = fadd (fadd a c) (fadd b d).
Proof.
  unfold fadd. apply Qred_eq. rewrite !Qred_correct. ring.
Qed.


Lemma num_eqb_zero_int : num_eqb (NInt 0) (NInt 0) = true.
Proof. reflexivity. Qed.

Lemma fmul_zero_r (x : float) : fmul x 0%Q = 0%Q.
Proof.
  unfold fmul. transitivity (Qred 0); [apply Qred_eq; ring | reflexivity].
Qed.

Lemma nmul_float_zero (x : num) : nmul x (NFloat 0%Q) = NFloat 0%Q.
Proof.
  destruct x; cbn [nmul to_float]; f_equal; apply fmul_zero_r.
Qed.

End NumFacts.

(** ** The replacement scheduler *)

(** C2. For integers [period >= 1] and [service_life >= 1],
    [_get_num_replacements] returns [0] when [service_life >= period];
    otherwise it returns [period // service_life - 1] when [service_life]
    divides [period] evenly and [period // service_life] when it does
    not. *)
Theorem num_replacements_cases (period service_life : Z) :
  1 <= period -> 1 <= service_life ->
  (service_life >= period ->
   _get_num_replacements period (Some service_life) = Ok 0) /\
  (service_life < period -> (service_life | period) ->
   _get_num_replacements period (Some service_life) = Ok (period / service_life - 1)) /\
  (service_life < period -> ~ (service_life | period) ->
   _get_num_replacements period (Some service_life) = Ok (period / service_life)).
Proof.
  intros Hp Hs. unfold _get_num_replacements.
  repeat split.
  - intros Hge. destruct (Z.geb_spec service_life period); [reflexivity | lia].
  - intros Hlt Hdiv.
    destruct (Z.geb_spec service_life period); [lia |].
    destruct (Z.eqb_spec service_life 0); [lia |].
    apply Z.mod_divide in Hdiv; [| lia].
    rewrite Hdiv. reflexivity.
  - intros Hlt Hndiv.
    destruct (Z.geb_spec service_life period); [lia |].
    destruct (Z.eqb_spec service_life 0); [lia |].
    destruct (Z.eqb_spec (period mod service_life) 0) as [Hz | Hz]; [| reflexivity].
    exfalso. apply Hndiv. apply Z.mod_divide; [lia | exact Hz].
Qed.

Lemma num_replacements_cases_witness :
  _get_num_replacements 100 (Some 10) = Ok 9 /\
  _get_num_replacements 95 (Some 10) = Ok 9 /\
  _get_num_replacements 10 (Some 25) = Ok 0.
Proof.
  split; [| split].
  - destruct (num_replacements_cases 100 10) as (_ & H & _); [lia | lia |].
    apply H; [lia | exists 10; reflexivity].
  - destruct (num_replacements_cases 95 10) as (_ & _ & H); [lia | lia |].
    apply H; [lia | intros [k Hk]; lia].
  - destruct (num_replacements_cases 10 25) as (H & _ & _); [lia | lia |].
    apply H; lia.
Defined.

(** C3, counterexample. With [period = 1], a service life of [0] makes
    [_get_num_replacements] raise [ZeroDivisionError] and a service life of
    [None] makes it raise [TypeError]: it does not return [0]. *)
Lemma num_replacements_unset_raises :
  _get_num_replacements 1 (Some 0) = Raise ZeroDivisionError /\
  _get_num_replacements 1 None = Raise TypeError /\
  _get_num_replacements 1 (Some 0) <> Ok 0 /\
  _get_num_replacements 1 None <> Ok 0.
Proof. repeat split; discriminate. Qed.

(** C3, amended. With a service life of [0], [_get_num_replacements]
    returns [0] when [period <= 0] and raises [ZeroDivisionError] when
    [period > 0]; with a service life of [None] it raises [TypeError] for
    every period.  The guard is at the caller, in the recurrent loop of
    [_calculate_flows]. *)
Theorem num_replacements_unset (period : Z) :
  _get_num_replacements period (Some 0) =
    (if period <=? 0 then Ok 0 else Raise ZeroDivisionError) /\
  _get_num_replacements period None = Raise TypeError.
Proof.
  split; [| reflexivity].
  unfold _get_num_replacements.
  destruct (Z.geb_spec 0 period), (Z.leb_spec period 0); try lia; reflexivity.
Qed.

(** ** The error monad on lists *)

Section MonadFacts.

Context {A B : Type}.

Lemma map_m_Forall2 (f : A -> outcome B) (R : A -> B -> Prop) (l : list A) :
  (forall a, In a l -> exists b, f a = Ok b /\ R a b) ->
  exists bs, map_m f l = Ok bs /\ Forall2 R l bs.
Proof.
  induction l as [| a l IH]; intros Hf.
  - exists []. split; [reflexivity | constructor].
  - destruct (Hf a (or_introl eq_refl)) as (b & Hb & Rb).
    destruct IH as (bs & Hbs & Rbs).
    { intros a' Ha'. apply Hf. right. exact Ha'. }
    exists (b :: bs). cbn. rewrite Hb. cbn. rewrite Hbs. cbn.
    split; [reflexivity | constructor; assumption].
Qed.

Lemma map_m_total (f : A -> outcome B) (g : A -> B) (l : list A) :
  (forall a, In a l -> f a = Ok (g a)) -> map_m f l = Ok (map g l).
Proof.
  induction l as [| a l IH]; intros Hf; [reflexivity |].
  cbn. rewrite (Hf a (or_introl eq_refl)). cbn.
  rewrite IH; [reflexivity |].
  intros a' Ha'. apply Hf. right. exact Ha'.
Qed.

Lemma map_m_length (f : A -> outcome B) (l : list A) (bs : list B) :
  map_m f l = Ok bs -> length bs = length l.
Proof.
  revert bs. induction l as [| a l IH]; intros bs; cbn.
  - intros [= <-]. reflexivity.
  - destruct (f a) as [b | e]; cbn; [| discriminate].
    destruct (map_m f l) as [bs' | e]; cbn; [| discriminate].
    intros [= <-]. cbn. f_equal. apply IH. reflexivity.
Qed.

End MonadFacts.

(** ** The assembly flow calculator *)

Section Calculator.

Import EPiCAssembly.

Lemma getattr_defined (m : EPiCMaterial.t) (flow : string) :
  In flow DEFINED_FLOWS -> exists c, EPiCMaterial.getattr m flow = Ok c.
Proof.
  intros [<- | [<- | [<- | []]]]; eexists; reflexivity.
Qed.

(** For a defined flow the list of embodied flows is always built, one
    entry per material. *)
Lemma initial_result_ok (self : t) ml flow wastage_only quantity :
  In flow DEFINED_FLOWS ->
  exists cs, initial_result self ml flow wastage_only quantity = Ok cs /\
             length cs = length ml.
Proof.
  intros Hflow.
  assert (Hgen : forall k : EPiCMaterial.t * num -> num -> num,
             exists cs,
               map_m (fun m => coefficient <- EPiCMaterial.getattr (fst m) flow ;;
                               Ok (k m coefficient)) ml = Ok cs).
  { intros k.
    destruct (map_m_Forall2
                (fun m => coefficient <- EPiCMaterial.getattr (fst m) flow ;;
                          Ok (k m coefficient))
                (fun _ _ => True) ml) as (cs & Hcs & _).
    - intros m _. destruct (getattr_defined (fst m) flow Hflow) as (c & Hc).
      rewrite Hc. cbn. eexists. split; [reflexivity | exact I].
    - exists cs. exact Hcs. }
  unfold initial_result.
  destruct (wastage_override self) as [override |].
  - destruct (truthy override).
    + destruct (Hgen (fun m c =>
                  nmul (nmul (nmul match quantity with
                                   | Some q => q
                                   | None => total_units self
                                   end (nabs (snd m))) c)
                    (nadd (if wastage_only then NFloat 0%Q else NFloat 1%Q) override)))
        as (cs & Hcs).
      exists cs. split; [exact Hcs | exact (map_m_length _ _ _ Hcs)].
    + destruct (Hgen (fun m c =>
                  nmul (nmul (nmul match quantity with
                                   | Some q => q
                                   | None => total_units self
                                   end (nabs (snd m))) c)
                    (if wastage_only then NFloat 0%Q else NFloat 1%Q)))
        as (cs & Hcs).
      exists cs. split; [exact Hcs | exact (map_m_length _ _ _ Hcs)].
  - destruct (Hgen (fun m c =>
                nmul (nmul (nmul match quantity with
                                 | Some q => q
                                 | None => total_units self
                                 end (nabs (snd m))) c)
                  (nadd (if wastage_only then NFloat 0%Q else NFloat 1%Q)
                     (EPiCMaterial.wastage (fst m)))))
      as (cs & Hcs).
    exists cs. split; [exact Hcs | exact (map_m_length _ _ _ Hcs)].
Qed.

(** The [try] / [except] of the recurrent loop never lets an exception
    out, and adds what the specification says. *)
Lemma recurrent_of_material_spec (period : Z) (c : num) (m : EPiCMaterial.t * num) :
  0 < period ->
  exists r, recurrent_of_material period c m = Ok r /\
            recurrent_contribution period c (fst m) r.
Proof.
  intros Hp. unfold recurrent_of_material, recurrent_contribution.
  destruct (EPiCMaterial.service_life (fst m)) as [sl |]; cbn.
  - destruct (Z.geb_spec sl period) as [Hge | Hlt].
    + destruct (Z.eqb_spec sl 0); [lia |].
      eexists. split; [reflexivity |]. eexists. split; reflexivity.
    + destruct (Z.eqb_spec sl 0) as [-> | Hnz].
      * eexists. split; reflexivity.
      * destruct (period mod sl =? 0);
          (eexists; split; [reflexivity |]; eexists; split; reflexivity).
  - eexists. split; reflexivity.
Qed.

(** C5. For an assembly without a service-life override, a period
    [> 0] and a defined flow, the recurrent-flow calculation returns (no
    exception propagates) the sum of one contribution per material: [0.]
    for a material whose own service life is [0] or [None], and for any
    other material its embodied flow times
    [_get_num_replacements(period, its service life)]. *)
Theorem recurrent_without_override (self : t) ml flow wastage_only (period : Z) quantity :
  service_life_set (service_life self) = false ->
  0 < period ->
  In flow DEFINED_FLOWS ->
  exists cs rs,
    initial_result self ml flow wastage_only quantity = Ok cs /\
    length cs = length ml /\
    Forall2 (fun cm r => recurrent_contribution period (fst cm) (fst (snd cm)) r)
      (combine cs ml) rs /\
    _calculate_flows self ml flow wastage_only (Some period) quantity = Ok (nsum rs).
Proof.
  intros Hsl Hp Hflow.
  destruct (initial_result_ok self ml flow wastage_only quantity Hflow)
    as (cs & Hcs & Hlen).
  destruct (map_m_Forall2
              (fun em => recurrent_of_material period (fst em) (snd em))
              (fun cm r => recurrent_contribution period (fst cm) (fst (snd cm)) r)
              (combine cs ml)) as (rs & Hrs & HR).
  { intros cm _. apply recurrent_of_material_spec. exact Hp. }
  exists cs, rs. repeat split; try assumption.
  unfold _calculate_flows. rewrite Hcs. cbn [bind].
  destruct (Z.eqb_spec period 0); [lia |].
  rewrite Hsl. cbn [andb negb].
  destruct (Z.gtb_spec period 0); [| lia]. cbn [andb].
  rewrite Hrs. reflexivity.
Qed.

Lemma recurrent_without_override_witness :
  exists cs rs,
    initial_result Examples.wall (epic_materials Examples.wall) "energy" false None
      = Ok cs /\
    length cs = length (epic_materials Examples.wall) /\
    Forall2 (fun cm r => recurrent_contribution 50 (fst cm) (fst (snd cm)) r)
      (combine cs (epic_materials Examples.wall)) rs /\
    _calculate_flows Examples.wall (epic_materials Examples.wall) "energy" false
      (Some 50) None = Ok (nsum rs).
Proof.
  apply (recurrent_without_override Examples.wall); [reflexivity | reflexivity |].
  left. reflexivity.
Defined.

End Calculator.

(** ** Shape of what [_fill_flows_dict] and [calculate_flows] return *)

Section Shapes.

Import EPiCAssembly.

(** [_calculate_flows] never raises on a defined flow. *)
Lemma calculate_flows_value (self : t) ml flow wastage_only period quantity :
  In flow DEFINED_FLOWS ->
  _calculate_flows self ml flow wastage_only period quantity
  = Ok (flow_value self ml flow wastage_only period quantity).
Proof.
  intros Hflow.
  assert (H : exists v,
             _calculate_flows self ml flow wastage_only period quantity = Ok v).
  { unfold _calculate_flows.
    destruct (initial_result_ok self ml flow wastage_only quantity Hflow)
      as (cs & Hcs & _).
    rewrite Hcs. cbn [bind].
    destruct period as [p |]; [| eexists; reflexivity].
    destruct (p =? 0); [eexists; reflexivity |].
    destruct (Z.gtb_spec p 0) as [Hp | Hp]; cbn [andb]; [| eexists; reflexivity].
    destruct (service_life self) as [sl |] eqn:Hsl; cbn [service_life_set negb].
    - destruct (Z.eqb_spec sl 0) as [-> | Hnz]; cbn [negb].
      + destruct (map_m_Forall2
                    (fun em => recurrent_of_material p (fst em) (snd em))
                    (fun _ _ => True) (combine cs ml)) as (rs & Hrs & _).
        { intros cm _.
          destruct (recurrent_of_material_spec p (fst cm) (snd cm)) as (r & Hr & _);
            [lia |].
          exists r. split; [exact Hr | exact I]. }
        rewrite Hrs. eexists. reflexivity.
      + unfold _get_num_replacements.
        destruct (sl >=? p); [eexists; reflexivity |].
        destruct (Z.eqb_spec sl 0); [contradiction |].
        destruct (p mod sl =? 0); eexists; reflexivity.
    - destruct (map_m_Forall2
                  (fun em => recurrent_of_material p (fst em) (snd em))
                  (fun _ _ => True) (combine cs ml)) as (rs & Hrs & _).
      { intros cm _.
        destruct (recurrent_of_material_spec p (fst cm) (snd cm)) as (r & Hr & _);
          [lia |].
        exists r. split; [exact Hr | exact I]. }
      rewrite Hrs. eexists. reflexivity. }
  destruct H as (v & Hv). unfold flow_value. rewrite Hv. reflexivity.
Qed.

Local Arguments _calculate_flows : simpl never.
Local Arguments flow_value : simpl never.

Lemma in_energy : In "energy" DEFINED_FLOWS.
Proof. left. reflexivity. Qed.

Lemma in_water : In "water" DEFINED_FLOWS.
Proof. right. left. reflexivity. Qed.

Lemma in_ghg : In "ghg" DEFINED_FLOWS.
Proof. right. right. left. reflexivity. Qed.

(** [_fill_flows_dict] always returns the six buckets of [table_of]. *)
Lemma fill_flows_dict_shape (self : t) period ml quantity :
  _fill_flows_dict self period (Some ml) quantity
  = Ok (VDict (flows_items (table_of self period ml quantity))).
Proof.
  unfold _fill_flows_dict, fill_one.
  cbn -[nadd].
  rewrite !(calculate_flows_value self ml "energy" _ _ _ in_energy).
  rewrite !(calculate_flows_value self ml "water" _ _ _ in_water).
  rewrite !(calculate_flows_value self ml "ghg" _ _ _ in_ghg).
  cbn -[nadd].
  destruct period; reflexivity.
Qed.

(** With no explicit list the materials of the assembly are used. *)
Lemma fill_flows_dict_default (self : t) period quantity :
  _fill_flows_dict self period None quantity
  = Ok (VDict (flows_items (table_of self period (epic_materials self) quantity))).
Proof. exact (fill_flows_dict_shape self period (epic_materials self) quantity). Qed.

(** *** Association lists *)

Lemma lookup_In {A : Type} (k : string) (d : list (string * A)) (v : A) :
  lookup k d = Some v -> In (k, v) d.
Proof.
  induction d as [| [k' v'] d IH]; cbn; [discriminate |].
  destruct (String.eqb_spec k' k) as [-> | Hne].
  - intros [= ->]. left. reflexivity.
  - intros H. right. apply IH. exact H.
Qed.

Lemma lookup_update_same {A : Type} (k : string) (v : A) (d : list (string * A)) :
  lookup k (update k v d) = Some v.
Proof.
  induction d as [| [k' v'] d IH]; cbn.
  - rewrite String.eqb_refl. reflexivity.
  - destruct (String.eqb_spec k' k) as [-> | Hne]; cbn.
    + rewrite String.eqb_refl. reflexivity.
    + destruct (String.eqb_spec k' k); [contradiction | exact IH].
Qed.

Lemma lookup_update_other {A : Type} (k k' : string) (v : A) (d : list (string * A)) :
  k <> k' -> lookup k' (update k v d) = lookup k' d.
Proof.
  intros Hne. induction d as [| [k0 v0] d IH]; cbn.
  - destruct (String.eqb_spec k k'); [contradiction | reflexivity].
  - destruct (String.eqb_spec k0 k) as [-> | Hne0]; cbn.
    + destruct (String.eqb_spec k k'); [contradiction | reflexivity].
    + destruct (String.eqb_spec k0 k'); [reflexivity | exact IH].
Qed.

Lemma Forall_update {A : Type} (P : string * A -> Prop) (k : string) (v : A)
  (d : list (string * A)) :
  Forall P d -> P (k, v) -> Forall P (update k v d).
Proof.
  intros Hd Hv. induction Hd as [| [k' v'] d Hx Hd IH]; cbn.
  - constructor; [exact Hv | constructor].
  - destruct (String.eqb_spec k' k) as [-> | Hne].
    + constructor; assumption.
    + constructor; assumption.
Qed.

Lemma In_update {A : Type} (k : string) (v : A) (d : list (string * A)) (x : string * A) :
  In x (update k v d) -> x = (k, v) \/ In x d.
Proof.
  induction d as [| [k' v'] d IH]; cbn.
  - intros [<- | []]. left. reflexivity.
  - destruct (String.eqb_spec k' k) as [-> | Hne]; cbn.
    + intros [<- | H]; [left; reflexivity | right; right; exact H].
    + intros [<- | H]; [right; left; reflexivity |].
      destruct (IH H) as [-> | H']; [left; reflexivity | right; right; exact H'].
Qed.

(** *** The typed group against the dictionary *)

Lemma lookup_group_items (n : string) (G : group) :
  lookup n (group_items G)
  = option_map (fun x => VDict (entry_items (fst (fst x)) (snd (fst x)) (snd x) n))
      (lookup n G).
Proof.
  induction G as [| [k x] G IH]; cbn; [reflexivity |].
  destruct (String.eqb_spec k n) as [-> | Hne]; [reflexivity | exact IH].
Qed.

Lemma update_group_items (n : string) F q m (G : group) :
  update n (VDict (entry_items F q m n)) (group_items G)
  = group_items (update n (F, q, m) G).
Proof.
  induction G as [| [k x] G IH]; cbn; [reflexivity |].
  destruct (String.eqb_spec k n) as [-> | Hne]; cbn; [reflexivity |].
  f_equal. exact IH.
Qed.

(** Merging the six buckets of a new material into an entry adds the
    tables and keeps the metadata. *)
Lemma sum_numerical_entry (F0 F1 : table) q0 m0 n :
  sum_numerical_dictionary_values (VDict (entry_items F0 q0 m0 n))
    (VDict (flows_items F1))
  = Ok (VDict (entry_items (tadd F0 F1) q0 m0 n)).
Proof. reflexivity. Qed.

(** One iteration of the loop of [calculate_flows] is [group_step]. *)
Lemma add_by_material_refines (self : t) period (T : table) (G : group) mq :
  add_by_material self period
    (VDict (flows_items T ++ [("by_material", VDict (group_items G))])) mq
  = (G' <- group_step self period G mq ;;
     Ok (VDict (flows_items T ++ [("by_material", VDict (group_items G'))]))).
Proof.
  destruct mq as [m q].
  unfold add_by_material, group_step. cbn [fst snd].
  rewrite fill_flows_dict_shape. cbn [bind].
  change (getitem (VDict (flows_items T ++ [("by_material", VDict (group_items G))]))
            "by_material") with (Ok (A := value) (VDict (group_items G))).
  cbn [bind]. unfold contains, getitem at 1.
  rewrite lookup_group_items.
  destruct (lookup (EPiCMaterial.name m) G) as [[[F0 q0] m0] |] eqn:HG;
    cbn [option_map bind negb fst snd].
  - rewrite sum_numerical_entry. cbn [bind].
    change (getitem (VDict (entry_items (tadd F0 (table_of self period [(m, q)] None))
                              q0 m0 (EPiCMaterial.name m))) "quantity")
      with (Ok (A := value) (VNum q0)).
    cbn [bind py_add].
    change (setitem (VDict (entry_items (tadd F0 (table_of self period [(m, q)] None))
                              q0 m0 (EPiCMaterial.name m))) "quantity" (VNum (nadd q0 q)))
      with (Ok (A := value)
              (VDict (entry_items (tadd F0 (table_of self period [(m, q)] None))
                        (nadd q0 q) m0 (EPiCMaterial.name m)))).
    cbn [bind].
    change (getitem (VDict (entry_items (tadd F0 (table_of self period [(m, q)] None))
                              (nadd q0 q) m0 (EPiCMaterial.name m))) "material_object")
      with (Ok (A := value) (VMat m0)).
    cbn [bind].
    destruct (EPiCMaterial.material_id m0 =? EPiCMaterial.material_id m)%string;
      [| reflexivity].
    cbn [bind setitem]. rewrite update_group_items. reflexivity.
  - change (d <- setitem (VDict (flows_items (table_of self period [(m, q)] None)))
                   "quantity" (VNum q) ;;
            d0 <- setitem d "material_object" (VMat m) ;;
            setitem d0 "material_name" (VStr (EPiCMaterial.name m)))
      with (Ok (A := value)
              (VDict (entry_items (table_of self period [(m, q)] None) q m
                        (EPiCMaterial.name m)))).
    cbn [bind setitem]. rewrite update_group_items. reflexivity.
Qed.

(** [calculate_flows] is the fold of [group_step] under the six buckets
    of the whole assembly. *)
Lemma calculate_flows_refines (self : t) period :
  calculate_flows self period
  = (G <- fold_m (group_step self period) (epic_materials self) [] ;;
     Ok (flows_with_group self period G)).
Proof.
  unfold calculate_flows, flows_with_group.
  rewrite fill_flows_dict_default. cbn [bind].
  generalize (table_of self period (epic_materials self) None) as T. intros T.
  change (setitem (VDict (flows_items T)) "by_material" (VDict []))
    with (Ok (A := value)
            (VDict (flows_items T ++ [("by_material", VDict (group_items []))]))).
  cbn [bind].
  generalize (@nil (string * (table * num * EPiCMaterial.t))) as G.
  induction (epic_materials self) as [| mq l IH]; intros G; [reflexivity |].
  cbn [fold_m]. rewrite add_by_material_refines.
  destruct (group_step self period G mq) as [G' | e]; [| reflexivity].
  cbn [bind]. apply IH.
Qed.

End Shapes.

(** ** The grouping by material *)

Section Grouping.

Import EPiCAssembly.

Variable self : t.
Variable period : option Z.

(** A property of tables that holds of every single-material table and
    is kept by entry-wise addition holds of every table of the group. *)
Lemma group_fold_tables (P : table -> Prop) :
  (forall F G, P F -> P G -> P (tadd F G)) ->
  (forall mq, P (table_of self period [mq] None)) ->
  forall l G0 G,
    Forall (fun x => P (fst (fst (snd x)))) G0 ->
    fold_m (group_step self period) l G0 = Ok G ->
    Forall (fun x => P (fst (fst (snd x)))) G.
Proof.
  intros Hadd Hone l.
  induction l as [| [m q] l IH]; intros G0 G HG0; cbn [fold_m].
  - intros [= <-]. exact HG0.
  - destruct (group_step self period G0 (m, q)) as [G1 | e] eqn:Hstep;
      cbn [bind]; [| discriminate].
    apply IH. clear IH.
    unfold group_step in Hstep. cbn [fst snd] in Hstep.
    destruct (lookup (EPiCMaterial.name m) G0) as [[[F0 q0] m0] |] eqn:Hlk.
    + destruct (EPiCMaterial.material_id m0 =? EPiCMaterial.material_id m)%string;
        [| discriminate].
      injection Hstep as <-.
      apply Forall_update; [exact HG0 |].
      cbn. apply Hadd; [| apply Hone].
      apply lookup_In in Hlk.
      rewrite Forall_forall in HG0. exact (HG0 _ Hlk).
    + injection Hstep as <-.
      apply Forall_update; [exact HG0 | apply Hone].
Qed.

(** The loop raises nothing but the [ValueError] of the identifier
    check. *)
Lemma group_fold_raises (l : list (EPiCMaterial.t * num)) (G0 : group) (e : exn) :
  fold_m (group_step self period) l G0 = Raise e -> e = ValueError.
Proof.
  revert G0. induction l as [| [m q] l IH]; intros G0; cbn [fold_m]; [discriminate |].
  destruct (group_step self period G0 (m, q)) as [G1 | e'] eqn:Hstep; cbn [bind].
  - apply IH.
  - intros [= <-]. unfold group_step in Hstep. cbn [fst snd] in Hstep.
    destruct (lookup (EPiCMaterial.name m) G0) as [[[F0 q0] m0] |]; [| discriminate].
    destruct (EPiCMaterial.material_id m0 =? EPiCMaterial.material_id m)%string;
      [discriminate |].
    injection Hstep as <-. reflexivity.
Qed.

(** A step never changes the object stored under a name. *)
Lemma group_step_keeps_object (G G' : group) mq n m0 :
  group_step self period G mq = Ok G' ->
  stored_object n G = Some m0 -> stored_object n G' = Some m0.
Proof.
  destruct mq as [m q]. unfold group_step, stored_object. cbn [fst snd].
  intros Hstep Hn.
  destruct (String.eqb_spec (EPiCMaterial.name m) n) as [<- | Hne].
  - destruct (lookup (EPiCMaterial.name m) G) as [[[F0 q0] m1] |]; [| discriminate].
    cbn in Hn. injection Hn as ->.
    destruct (EPiCMaterial.material_id m0 =? EPiCMaterial.material_id m)%string;
      [| discriminate].
    injection Hstep as <-. rewrite lookup_update_same. reflexivity.
  - destruct (lookup (EPiCMaterial.name m) G) as [[[F0 q0] m1] |].
    + destruct (EPiCMaterial.material_id m1 =? EPiCMaterial.material_id m)%string;
        [| discriminate].
      injection Hstep as <-. rewrite lookup_update_other; assumption.
    + injection Hstep as <-. rewrite lookup_update_other; assumption.
Qed.

(** After a step, the object stored under the name of the material has
    the catalog identifier of the material. *)
Lemma group_step_object (G G' : group) m q :
  group_step self period G (m, q) = Ok G' ->
  exists m0, stored_object (EPiCMaterial.name m) G' = Some m0 /\
             EPiCMaterial.material_id m0 = EPiCMaterial.material_id m.
Proof.
  unfold group_step, stored_object. cbn [fst snd]. intros Hstep.
  destruct (lookup (EPiCMaterial.name m) G) as [[[F0 q0] m1] |].
  - destruct (String.eqb_spec (EPiCMaterial.material_id m1) (EPiCMaterial.material_id m))
      as [Hid | Hid]; [| discriminate].
    injection Hstep as <-. rewrite lookup_update_same. exists m1. split; [reflexivity | exact Hid].
  - injection Hstep as <-. rewrite lookup_update_same. exists m. split; reflexivity.
Qed.

Lemma group_fold_keeps_object (l : list (EPiCMaterial.t * num)) (G0 G : group) n m0 :
  fold_m (group_step self period) l G0 = Ok G ->
  stored_object n G0 = Some m0 -> stored_object n G = Some m0.
Proof.
  revert G0. induction l as [| mq l IH]; intros G0; cbn [fold_m].
  - intros [= <-]. exact (fun H => H).
  - destruct (group_step self period G0 mq) as [G1 | e] eqn:Hstep; cbn [bind];
      [| discriminate].
    intros Hfold Hn. apply (IH G1 Hfold).
    exact (group_step_keeps_object _ _ _ _ _ Hstep Hn).
Qed.

(** When the loop ends normally, every material it went through has the
    catalog identifier of the object stored under its name. *)
Lemma group_fold_objects (l : list (EPiCMaterial.t * num)) (G0 G : group) m q :
  fold_m (group_step self period) l G0 = Ok G ->
  In (m, q) l ->
  exists m0, stored_object (EPiCMaterial.name m) G = Some m0 /\
             EPiCMaterial.material_id m0 = EPiCMaterial.material_id m.
Proof.
  revert G0. induction l as [| mq l IH]; intros G0; cbn [fold_m]; [intros _ [] |].
  destruct (group_step self period G0 mq) as [G1 | e] eqn:Hstep; cbn [bind];
    [| discriminate].
  intros Hfold [-> | Hin].
  - destruct (group_step_object _ _ _ _ Hstep) as (m0 & Hm0 & Hid).
    exists m0. split; [| exact Hid].
    exact (group_fold_keeps_object _ _ _ _ _ Hfold Hm0).
  - exact (IH G1 Hfold Hin).
Qed.

(** Two materials of one name and different catalog identifiers stop the
    loop with [ValueError]. *)
Lemma group_fold_conflict (l : list (EPiCMaterial.t * num)) (G0 : group) m1 q1 m2 q2 :
  In (m1, q1) l -> In (m2, q2) l ->
  EPiCMaterial.name m1 = EPiCMaterial.name m2 ->
  EPiCMaterial.material_id m1 <> EPiCMaterial.material_id m2 ->
  fold_m (group_step self period) l G0 = Raise ValueError.
Proof.
  intros H1 H2 Hname Hid.
  destruct (fold_m (group_step self period) l G0) as [G | e] eqn:Hfold.
  - exfalso.
    destruct (group_fold_objects _ _ _ _ _ Hfold H1) as (a & Ha & Hida).
    destruct (group_fold_objects _ _ _ _ _ Hfold H2) as (b & Hb & Hidb).
    rewrite Hname in Ha. rewrite Ha in Hb. injection Hb as <-.
    apply Hid. rewrite <- Hida, <- Hidb. reflexivity.
  - f_equal. exact (group_fold_raises _ _ _ Hfold).
Qed.

End Grouping.

(** ** Properties of [calculate_flows] *)

Section CalculateFlows.

Import EPiCAssembly.




Lemma In_group_items (G : group) n e :
  In (n, e) (group_items G) ->
  exists F q m, In (n, (F, q, m)) G /\ e = VDict (entry_items F q m n).
Proof.
  unfold group_items. rewrite in_map_iff.
  intros ([k [[F q] m]] & [= <- <-] & Hin).
  exists F, q, m. split; [exact Hin | reflexivity].
Qed.



(** C6. An assembly that contains two materials of the same name with
    different catalog identifiers makes [calculate_flows] raise
    [ValueError], for every period. *)
Theorem conflicting_catalog_ids_raise (self : t) (period : option Z) m1 q1 m2 q2 :
  In (m1, q1) (epic_materials self) ->
  In (m2, q2) (epic_materials self) ->
  EPiCMaterial.name m1 = EPiCMaterial.name m2 ->
  EPiCMaterial.material_id m1 <> EPiCMaterial.material_id m2 ->
  calculate_flows self period = Raise ValueError.
Proof.
  intros H1 H2 Hname Hid.
  rewrite calculate_flows_refines.
  rewrite (group_fold_conflict self period _ [] m1 q1 m2 q2 H1 H2 Hname Hid).
  reflexivity.
Qed.

Lemma conflicting_catalog_ids_raise_witness :
  calculate_flows Examples.clash (Some 60) = Raise ValueError.
Proof.
  apply (conflicting_catalog_ids_raise Examples.clash (Some 60)
           Examples.steel (NInt 2) Examples.steel_imported (NInt 3)).
  - left. reflexivity.
  - right. left. reflexivity.
  - reflexivity.
  - discriminate.
Defined.

End CalculateFlows.

(** ** Idempotence *)

Section Idempotence.

Import EPiCAssembly.

(** [calculate_flows] reads four fields of the assembly and nothing
    else. *)
Lemma calculate_flows_reads (a b : t) (period : option Z) :
  epic_materials b = epic_materials a ->
  total_units b = total_units a ->
  wastage_override b = wastage_override a ->
  service_life b = service_life a ->
  calculate_flows b period = calculate_flows a period.
Proof.
  destruct a, b. cbn. intros -> -> -> ->. reflexivity.
Qed.



End Idempotence.

(** ** Wastage override of zero *)

Section ZeroWastage.

Import EPiCAssembly.

Lemma to_float_nadd (x y : num) : (to_float (nadd x y) == to_float x + to_float y)%Q.
Proof.
  destruct x, y; cbn [nadd to_float]; unfold fadd;
    rewrite ?Qred_correct, ?inject_Z_plus; reflexivity.
Qed.

Lemma to_float_nmul (x y : num) : (to_float (nmul x y) == to_float x * to_float y)%Q.
Proof.
  destruct x, y; cbn [nmul to_float]; unfold fmul;
    rewrite ?Qred_correct, ?inject_Z_mult; reflexivity.
Qed.

Lemma is_zero_iff (x : num) : is_zero x <-> (to_float x == 0)%Q.
Proof. unfold is_zero, num_eqb. apply Qeq_bool_iff. Qed.

Lemma is_zero_nadd (x y : num) : is_zero x -> is_zero y -> is_zero (nadd x y).
Proof.
  rewrite !is_zero_iff, to_float_nadd. intros -> ->. reflexivity.
Qed.

Lemma is_zero_nmul_l (x y : num) : is_zero x -> is_zero (nmul x y).
Proof.
  rewrite !is_zero_iff, to_float_nmul. intros ->. ring.
Qed.

Lemma is_zero_nmul_r (x y : num) : is_zero y -> is_zero (nmul x y).
Proof.
  rewrite !is_zero_iff, to_float_nmul. intros ->. ring.
Qed.

Lemma is_zero_nsum (l : list num) : Forall is_zero l -> is_zero (nsum l).
Proof.
  unfold nsum. assert (H0 : is_zero (NInt 0)) by reflexivity.
  revert H0. generalize (NInt 0) as acc.
  induction l as [| x l IH]; intros acc Hacc Hl; cbn [fold_left]; [exact Hacc |].
  inversion Hl as [| ? ? Hx Hl']; subst.
  apply IH; [apply is_zero_nadd; assumption | exact Hl'].
Qed.

Lemma map_m_Forall {A B : Type} (f : A -> outcome B) (P : B -> Prop) (l : list A)
  (bs : list B) :
  (forall a b, In a l -> f a = Ok b -> P b) ->
  map_m f l = Ok bs -> Forall P bs.
Proof.
  revert bs. induction l as [| a l IH]; intros bs Hf; cbn [map_m].
  - intros [= <-]. constructor.
  - destruct (f a) as [b | e] eqn:Hb; cbn [bind]; [| discriminate].
    destruct (map_m f l) as [bs' | e] eqn:Hbs; cbn [bind]; [| discriminate].
    intros [= <-]. constructor.
    + apply (Hf a b); [left; reflexivity | exact Hb].
    + apply IH; [| reflexivity]. intros a' b' Ha'. apply Hf. right. exact Ha'.
Qed.

Variable self : t.
Variable override : num.
Hypothesis Hoverride : wastage_override self = Some override.
Hypothesis Hfalsy : truthy override = false.

(** With the override at zero, the wastage-only embodied flows are all
    zero. *)
Lemma initial_result_wastage_zero ml flow quantity cs :
  initial_result self ml flow true quantity = Ok cs -> Forall is_zero cs.
Proof.
  unfold initial_result. rewrite Hoverride, Hfalsy.
  apply map_m_Forall. intros m b _.
  destruct (EPiCMaterial.getattr (fst m) flow) as [c | e]; cbn [bind]; [| discriminate].
  intros [= <-]. apply is_zero_nmul_r. reflexivity.
Qed.

Lemma recurrent_of_material_zero p c m r :
  is_zero c -> recurrent_of_material p c m = Ok r -> is_zero r.
Proof.
  intros Hc. unfold recurrent_of_material.
  destruct (_get_num_replacements p (EPiCMaterial.service_life (fst m))) as [n | []];
    intros [= <-]; try reflexivity.
  apply is_zero_nmul_l. exact Hc.
Qed.

Lemma flow_value_wastage_zero ml flow p quantity :
  is_zero (flow_value self ml flow true p quantity).
Proof.
  unfold flow_value, _calculate_flows.
  destruct (initial_result self ml flow true quantity) as [cs | e] eqn:Hcs;
    cbn [bind]; [| reflexivity].
  pose proof (initial_result_wastage_zero _ _ _ _ Hcs) as Hz.
  destruct p as [p |]; [| cbn [bind]; apply is_zero_nsum; exact Hz].
  destruct (p =? 0); [reflexivity |].
  destruct ((p >? 0) && service_life_set (service_life self)).
  - destruct (_get_num_replacements p (service_life self)) as [n | e]; cbn [bind];
      [| reflexivity].
    apply is_zero_nsum. rewrite Forall_map.
    revert Hz. apply Forall_impl. intros c Hc. apply is_zero_nmul_l. exact Hc.
  - destruct ((p >? 0) && negb (service_life_set (service_life self)));
      [| cbn [bind]; apply is_zero_nsum; exact Hz].
    destruct (map_m (fun em => recurrent_of_material p (fst em) (snd em))
                (combine cs ml)) as [rs | e] eqn:Hrs; cbn [bind]; [| reflexivity].
    apply is_zero_nsum. revert Hrs. apply map_m_Forall.
    intros [c m] r Hin. cbn [fst snd]. apply recurrent_of_material_zero.
    rewrite Forall_forall in Hz. apply Hz. exact (in_combine_l _ _ _ _ Hin).
Qed.





End ZeroWastage.

(** ** Whether [calculate_flows] returns does not depend on the period *)

Section Returns.

Import EPiCAssembly.






Lemma leaf_flows_items (F : table) (rest : dict) (b f : string) :
  In b BUCKETS -> In f DEFINED_FLOWS ->
  leaf (VDict (flows_items F ++ rest)) b f = Ok (VNum (F b f)).
Proof.
  intros Hb Hf.
  repeat (destruct Hb as [<- | Hb]; [
    repeat (destruct Hf as [<- | Hf]; [reflexivity |]); destruct Hf |]).
  destruct Hb.
Qed.

Lemma wastage_buckets_incl (b : string) : In b WASTAGE_BUCKETS -> In b BUCKETS.
Proof.
  intros [<- | [<- | [<- | []]]]; cbn; auto 7.
Qed.

Lemma flows_items_no_wastage (F : table) (rest : dict) :
  table_without_wastage F -> no_wastage (VDict (flows_items F ++ rest)).
Proof.
  intros HF b f Hb Hf. exists (F b f). split.
  - apply leaf_flows_items; [apply wastage_buckets_incl; exact Hb | exact Hf].
  - apply HF; assumption.
Qed.


Lemma table_of_without_wastage (self : t) override period ml quantity :
  wastage_override self = Some override -> truthy override = false ->
  table_without_wastage (table_of self period ml quantity).
Proof.
  intros Hov Hfalsy b f Hb _.
  pose proof (flow_value_wastage_zero self override Hov Hfalsy) as Hz.
  destruct Hb as [<- | [<- | [<- | []]]]; cbn.
  - apply Hz.
  - apply Hz.
  - apply is_zero_nadd; apply Hz.
Qed.




End Returns.

(** ** The aggregator, key by key *)

Section KeyByKey.

Import EPiCAnalysis.

Lemma update_update {A : Type} (k : string) (a b : A) (d : list (string * A)) :
  update k a (update k b d) = update k a d.
Proof.
  induction d as [| [k' v'] d IH]; cbn.
  - rewrite String.eqb_refl. reflexivity.
  - destruct (String.eqb_spec k' k) as [-> | Hne]; cbn.
    + rewrite String.eqb_refl. reflexivity.
    + destruct (String.eqb_spec k' k); [contradiction |]. f_equal. exact IH.
Qed.

Lemma update_lookup_id {A : Type} (k : string) (a : A) (d : list (string * A)) :
  lookup k d = Some a -> update k a d = d.
Proof.
  induction d as [| [k' v'] d IH]; cbn; [discriminate |].
  destruct (String.eqb_spec k' k) as [-> | Hne].
  - intros [= ->]. reflexivity.
  - intros H. f_equal. apply IH. exact H.
Qed.

(** The block only reads and writes the key ["by_assembly"]. *)
Lemma nest_by_assembly_dict (bm : bool) (key : string) (e : dict) (v : value) :
  nest_by_assembly bm key (VDict e) v
  = (group <- match lookup "by_assembly" e with
              | Some g => Ok g
              | None => Ok (VDict [])
              end ;;
     match group with
     | VDict g =>
         target <- _sum_by_assembly_and_material
                     (match lookup key g with
                      | Some x => x
                      | None => VDict []
                      end) v bm None ;;
         Ok (VDict (update "by_assembly" (VDict (update key target g)) e))
     | _ => Raise TypeError
     end).
Proof.
  unfold nest_by_assembly. cbn [contains].
  destruct (lookup "by_assembly" e) as [g |] eqn:He; cbn [bind negb setitem getitem].
  - rewrite He. cbn [bind].
    destruct g as [| | | | g]; try reflexivity.
    cbn [contains].
    destruct (lookup key g) as [x |] eqn:Hg; cbn [bind negb setitem getitem].
    + rewrite Hg. cbn [bind].
      destruct (_sum_by_assembly_and_material x v bm None); reflexivity.
    + rewrite lookup_update_same. cbn [bind].
      destruct (_sum_by_assembly_and_material (VDict []) v bm None); [| reflexivity].
      cbn [bind]. rewrite update_update. reflexivity.
  - rewrite lookup_update_same. cbn [bind contains lookup].
    cbn [negb bind setitem getitem update lookup]. rewrite String.eqb_refl. cbn [bind].
    destruct (_sum_by_assembly_and_material (VDict []) v bm None); [| reflexivity].
    cbn [bind]. rewrite update_update. reflexivity.
Qed.

(** One assembly of [sum_by_assembly_and_material] is the flagged merge
    followed by the ["by_assembly"] block on the category. *)
Lemma sum_one_as_nest (result : value) (a : EPiCAssembly.t) :
  sum_one result a
  = (result <- _sum_by_assembly_and_material result
                 (EPiCAssembly.recalculated_flows a) true (Some a) ;;
     nest_by_assembly true (EPiCAssembly.category a) result
       (EPiCAssembly.recalculated_flows a)).
Proof. reflexivity. Qed.

(** [_sum_by_assembly_and_material] on two dictionaries is the loop
    [merge_items]. *)
Lemma sum_as_merge_items (by_material : bool) (assembly : option EPiCAssembly.t)
  (items d : dict) :
  _sum_by_assembly_and_material (VDict d) (VDict items) by_material assembly
  = (d' <- merge_items by_material assembly items d ;; Ok (VDict d')).
Proof.
  unfold merge_items. cbn [_sum_by_assembly_and_material].
  revert d. induction items as [| [k v] items IH]; intros d; [reflexivity |].
  cbn [fold_m fst snd].
  match goal with
  | |- (final' <- ?body ;; _) = _ =>
      assert (Hbody : body = (r <- item_step by_material assembly (lookup k d) k v ;;
                              Ok (VDict (assign k r d))))
  end.
  { unfold item_step.
    destruct v as [| [z | q] | s | m | sub_items]; try reflexivity.
    - (* a float *)
      cbn [get]. destruct (lookup k d) as [o |]; cbn [bind];
        (match goal with
         | |- context [py_add ?a ?b] => destruct (py_add a b)
         end; reflexivity).
    - (* a string *)
      cbn [contains getitem get]. destruct (lookup k d) as [o |] eqn:Hk; cbn [bind];
        [| reflexivity].
      destruct (eq_str o s); cbn [negb]; [reflexivity |].
      destruct (py_add o (VStr "/")) as [w |]; cbn [bind]; [| reflexivity].
      destruct (py_add w (VStr s)); reflexivity.
    - (* a dictionary *)
      cbn [setdefault].
      destruct (k =? "by_material")%string.
      + destruct by_material; [| reflexivity].
        destruct (lookup k d) as [x |] eqn:Hk; cbn [bind fst snd].
        * destruct (_sum_by_assembly_and_material x (VDict sub_items) true assembly);
            reflexivity.
        * destruct (_sum_by_assembly_and_material (VDict []) (VDict sub_items) true
                      assembly); [| reflexivity].
          cbn [bind setitem assign]. rewrite update_update. reflexivity.
      + assert (Hset : forall d0 x0,
                   match assembly with
                   | Some a =>
                       if by_material
                          && (0 <? Z.of_nat (length (EPiCAssembly.epic_materials a)))
                          && name_in k (material_names a)
                       then
                         entry <- getitem (VDict (update k x0 d0)) k ;;
                         present <- contains entry "by_assembly" ;;
                         entry0 <- (if negb present
                                    then setitem entry "by_assembly" (VDict [])
                                    else Ok entry) ;;
                         group <- getitem entry0 "by_assembly" ;;
                         present0 <- contains group (EPiCAssembly.name a) ;;
                         group0 <- (if negb present0
                                    then setitem group (EPiCAssembly.name a) (VDict [])
                                    else Ok group) ;;
                         target <- getitem group0 (EPiCAssembly.name a) ;;
                         target0 <- _sum_by_assembly_and_material target
                                      (VDict sub_items) false None ;;
                         group1 <- setitem group0 (EPiCAssembly.name a) target0 ;;
                         entry1 <- setitem entry0 "by_assembly" group1 ;;
                         Ok (VDict (update k entry1 (update k x0 d0)))
                       else Ok (VDict (update k x0 d0))
                   | None => Ok (VDict (update k x0 d0))
                   end
                   = (r <- match assembly with
                           | Some a =>
                               if by_material
                                  && (0 <? Z.of_nat (length (EPiCAssembly.epic_materials a)))
                                  && name_in k (material_names a)
                               then
                                 entry <- nest_by_assembly false (EPiCAssembly.name a) x0
                                            (VDict sub_items) ;;
                                 Ok (Some entry)
                               else Ok (Some x0)
                           | None => Ok (Some x0)
                           end ;;
                      Ok (VDict (assign k r (update k x0 d0))))).
        { intros d0 x0.
          destruct assembly as [a |]; [| cbn [bind assign]; rewrite update_update; reflexivity].
          destruct (by_material
                    && (0 <? Z.of_nat (length (EPiCAssembly.epic_materials a)))
                    && name_in k (material_names a));
            [| cbn [bind assign]; rewrite update_update; reflexivity].
          cbn [getitem]. rewrite lookup_update_same. cbn [bind].
          unfold nest_by_assembly.
          repeat match goal with
                 | |- (x <- ?c ;; _) = _ => destruct c; cbn [bind]; try reflexivity
                 end. }
        destruct (lookup k d) as [x |] eqn:Hk; cbn [bind fst snd].
        * destruct (_sum_by_assembly_and_material x (VDict sub_items) false None)
            as [x0 |]; [| reflexivity].
          cbn [bind setitem]. rewrite (Hset d x0).
          destruct assembly as [a |]; cbn [bind];
            [| cbn [assign]; rewrite update_update; reflexivity].
          destruct (by_material
                    && (0 <? Z.of_nat (length (EPiCAssembly.epic_materials a)))
                    && name_in k (material_names a));
            [| cbn [bind assign]; rewrite update_update; reflexivity].
          destruct (nest_by_assembly false (EPiCAssembly.name a) x0 (VDict sub_items));
            [| reflexivity].
          cbn [bind assign]. rewrite update_update. reflexivity.
        * destruct (_sum_by_assembly_and_material (VDict []) (VDict sub_items) false None)
            as [x0 |]; [| reflexivity].
          cbn [bind setitem]. rewrite update_update. rewrite (Hset d x0).
          destruct assembly as [a |]; cbn [bind];
            [| cbn [assign]; rewrite update_update; reflexivity].
          destruct (by_material
                    && (0 <? Z.of_nat (length (EPiCAssembly.epic_materials a)))
                    && name_in k (material_names a));
            [| cbn [bind assign]; rewrite update_update; reflexivity].
          destruct (nest_by_assembly false (EPiCAssembly.name a) x0 (VDict sub_items));
            [| reflexivity].
          cbn [bind assign]. rewrite update_update. reflexivity. }
  rewrite Hbody. clear Hbody.
  destruct (item_step by_material assembly (lookup k d) k v) as [r |]; [| reflexivity].
  cbn [bind]. apply IH.
Qed.

End KeyByKey.

(** ** The merge loop, key by key *)

Section MergeItems.

Import EPiCAnalysis.

Variable by_material : bool.
Variable assembly : option EPiCAssembly.t.

Lemma lookup_assign_other (k k' : string) (r : option value) (d : dict) :
  k <> k' -> lookup k' (assign k r d) = lookup k' d.
Proof.
  intros Hne. destruct r as [new |]; cbn [assign]; [| reflexivity].
  apply lookup_update_other. exact Hne.
Qed.

Lemma lookup_assign_same (k : string) (r : option value) (d : dict) :
  lookup k (assign k r d) = match r with Some new => Some new | None => lookup k d end.
Proof.
  destruct r as [new |]; cbn [assign]; [| reflexivity].
  apply lookup_update_same.
Qed.

Lemma in_keys (k : string) (v : value) (items : dict) :
  In (k, v) items -> In k (map fst items).
Proof. intros H. apply in_map_iff. exists (k, v). split; [reflexivity | exact H]. Qed.

(** A key that is not among the merged items keeps its value. *)
Lemma merge_items_frame (items d d' : dict) (k : string) :
  merge_items by_material assembly items d = Ok d' ->
  ~ In k (map fst items) -> lookup k d' = lookup k d.
Proof.
  unfold merge_items. revert d.
  induction items as [| [k0 v0] items IH]; intros d; cbn [fold_m fst snd map].
  - intros [= <-] _. reflexivity.
  - destruct (item_step by_material assembly (lookup k0 d) k0 v0) as [r |];
      cbn [bind]; [| discriminate].
    intros Hrest Hk. rewrite (IH _ Hrest).
    + apply lookup_assign_other. intros ->. apply Hk. left. reflexivity.
    + intros Hin. apply Hk. right. exact Hin.
Qed.

(** A key among the merged items gets what its own iteration assigns. *)
Lemma merge_items_at (items d d' : dict) (k : string) (v : value) :
  NoDup (map fst items) ->
  merge_items by_material assembly items d = Ok d' ->
  In (k, v) items ->
  exists r, item_step by_material assembly (lookup k d) k v = Ok r /\
            lookup k d' = lookup k (assign k r d).
Proof.
  revert d.
  induction items as [| [k0 v0] items IH]; intros d Hnd Hm Hin; [destruct Hin |].
  cbn [map fst] in Hnd. inversion Hnd as [| ? ? Hk0 Hnd']; subst.
  unfold merge_items in Hm. cbn [fold_m fst snd] in Hm.
  destruct (item_step by_material assembly (lookup k0 d) k0 v0) as [r0 |] eqn:Hr0;
    cbn [bind] in Hm; [| discriminate].
  destruct Hin as [[= -> ->] | Hin].
  - exists r0. split; [exact Hr0 |].
    exact (merge_items_frame _ _ _ _ Hm Hk0).
  - assert (Hne : k0 <> k).
    { intros ->. apply Hk0. exact (in_keys _ _ _ Hin). }
    destruct (IH _ Hnd' Hm Hin) as (r & Hr & Hd').
    rewrite (lookup_assign_other k0 k r0 d Hne) in Hr.
    exists r. split; [exact Hr |].
    rewrite Hd', !lookup_assign_same.
    destruct r; [reflexivity |]. apply lookup_assign_other. exact Hne.
Qed.

(** The loop ends normally when every iteration does. *)
Lemma merge_items_ok (items d : dict) :
  NoDup (map fst items) ->
  (forall k v, In (k, v) items ->
     exists r, item_step by_material assembly (lookup k d) k v = Ok r) ->
  exists d', merge_items by_material assembly items d = Ok d'.
Proof.
  revert d.
  induction items as [| [k0 v0] items IH]; intros d Hnd Hstep.
  - exists d. reflexivity.
  - cbn [map fst] in Hnd. inversion Hnd as [| ? ? Hk0 Hnd']; subst.
    destruct (Hstep k0 v0 (or_introl eq_refl)) as (r0 & Hr0).
    destruct (IH (assign k0 r0 d) Hnd') as (d' & Hd').
    + intros k v Hin.
      assert (Hne : k0 <> k).
      { intros ->. apply Hk0. exact (in_keys _ _ _ Hin). }
      rewrite (lookup_assign_other k0 k r0 d Hne).
      apply Hstep. right. exact Hin.
    + exists d'. unfold merge_items. cbn [fold_m fst snd].
      rewrite Hr0. cbn [bind]. exact Hd'.
Qed.

End MergeItems.

(** ** Merging a bucket *)

Section MergeBucket.

Import EPiCAnalysis.

Lemma item_step_num bm asm (old : option value) (k : string) (x : num) :
  (forall v, old = Some v -> is_num v) ->
  item_step bm asm old k (VNum x) = Ok (Some (acc_leaf old x)).
Proof.
  intros Hold. destruct x as [z | q]; [reflexivity |].
  unfold item_step, acc_leaf.
  destruct old as [v |]; [| reflexivity].
  destruct (Hold v eq_refl) as (o & ->). reflexivity.
Qed.

Lemma keys_bucket_items (x : string -> num) : map fst (bucket_items x) = DEFINED_FLOWS.
Proof. reflexivity. Qed.

Lemma NoDup_flows : NoDup DEFINED_FLOWS.
Proof.
  repeat constructor; cbn; intuition discriminate.
Qed.

Lemma in_bucket_items (x : string -> num) (k : string) (v : value) :
  In (k, v) (bucket_items x) -> In k DEFINED_FLOWS /\ v = VNum (x k).
Proof.
  unfold bucket_items. rewrite in_map_iff. intros (f & [= <- <-] & Hf).
  split; [exact Hf | reflexivity].
Qed.

Lemma bucket_items_in (x : string -> num) (f : string) :
  In f DEFINED_FLOWS -> In (f, VNum (x f)) (bucket_items x).
Proof.
  intros Hf. unfold bucket_items. apply in_map_iff. exists f. split; [reflexivity | exact Hf].
Qed.

(** Merging a bucket into a dictionary that holds numbers (or nothing)
    under the flow names: each flow gets its accumulated leaf, every
    other key is left alone. *)
Lemma merge_bucket bm asm (x : string -> num) (d : dict) :
  (forall f, In f DEFINED_FLOWS -> field_ok is_num f d) ->
  exists d',
    merge_items bm asm (bucket_items x) d = Ok d' /\
    (forall k, ~ In k DEFINED_FLOWS -> lookup k d' = lookup k d) /\
    (forall f, In f DEFINED_FLOWS -> lookup f d' = Some (acc_leaf (lookup f d) (x f))).
Proof.
  intros Hd.
  assert (Hstep : forall k v, In (k, v) (bucket_items x) ->
            item_step bm asm (lookup k d) k v = Ok (Some (acc_leaf (lookup k d) (x k)))).
  { intros k v Hin. destruct (in_bucket_items _ _ _ Hin) as (Hk & ->).
    apply item_step_num. intros o Ho. exact (Hd k Hk o Ho). }
  destruct (merge_items_ok bm asm (bucket_items x) d) as (d' & Hd').
  { rewrite keys_bucket_items. exact NoDup_flows. }
  { intros k v Hin. eexists. exact (Hstep k v Hin). }
  exists d'. split; [exact Hd' |]. split.
  - intros k Hk. apply (merge_items_frame bm asm _ _ _ _ Hd').
    rewrite keys_bucket_items. exact Hk.
  - intros f Hf.
    destruct (merge_items_at bm asm (bucket_items x) d d' f (VNum (x f)))
      as (r & Hr & Hlk).
    + rewrite keys_bucket_items. exact NoDup_flows.
    + exact Hd'.
    + exact (bucket_items_in x f Hf).
    + rewrite (Hstep f _ (bucket_items_in x f Hf)) in Hr. injection Hr as <-.
      rewrite Hlk. apply lookup_update_same.
Qed.

Lemma acc_leaf_is_num (old : option value) (x : num) : is_num (acc_leaf old x).
Proof. destruct x; unfold is_num, acc_leaf; eexists; reflexivity. Qed.

Lemma by_assembly_not_flow : ~ In "by_assembly" DEFINED_FLOWS.
Proof. cbn. intuition discriminate. Qed.

Lemma bucket_acc_empty : bucket_acc (VDict []).
Proof. constructor; intros; intro; discriminate. Qed.

(** The same on an accumulated bucket, through
    [_sum_by_assembly_and_material]. *)
Lemma sum_bucket bm asm (x : string -> num) (d : dict) :
  bucket_acc (VDict d) ->
  exists d',
    _sum_by_assembly_and_material (VDict d) (VDict (bucket_items x)) bm asm
    = Ok (VDict d') /\
    bucket_acc (VDict d') /\
    (forall k, ~ In k DEFINED_FLOWS -> lookup k d' = lookup k d) /\
    (forall f, In f DEFINED_FLOWS -> lookup f d' = Some (acc_leaf (lookup f d) (x f))).
Proof.
  intros Hacc. inversion Hacc as [d0 Hflows Hnest Heq]; subst.
  destruct (merge_bucket bm asm x d Hflows) as (d' & Hd' & Hframe & Hleaf).
  exists d'. rewrite sum_as_merge_items, Hd'. cbn [bind].
  split; [reflexivity |]. split; [| split; assumption].
  constructor.
  - intros f Hf v Hv. rewrite (Hleaf f Hf) in Hv. injection Hv as <-.
    apply acc_leaf_is_num.
  - intros g Hg. rewrite (Hframe _ by_assembly_not_flow) in Hg. exact (Hnest g Hg).
Qed.

Lemma dict_of_update (P : value -> Prop) (k : string) (v : value) (gd : dict) :
  P v -> (forall k', field_ok P k' gd) -> dict_of P (VDict (update k v gd)).
Proof.
  intros Hv Hgd. exists (update k v gd). split; [reflexivity |].
  intros k' y Hy.
  destruct (String.eqb_spec k k') as [<- | Hne].
  - rewrite lookup_update_same in Hy. injection Hy as <-. exact Hv.
  - rewrite (lookup_update_other k k' v gd Hne) in Hy. exact (Hgd k' y Hy).
Qed.

(** The iteration of the loop on a bucket, with the nested
    ["by_assembly"] block when it applies. *)
Lemma item_step_bucket bm asm (old : option value) (b : string) (x : string -> num) :
  b <> "by_material" ->
  (forall v, old = Some v -> bucket_acc v) ->
  exists d',
    item_step bm asm old b (VDict (bucket_items x)) = Ok (Some (VDict d')) /\
    bucket_acc (VDict d') /\
    (forall f, In f DEFINED_FLOWS ->
       lookup f d' = Some (acc_leaf (sub_lookup old f) (x f))).
Proof.
  intros Hb Hold.
  assert (Hsub : exists d0,
             match old with Some v => v | None => VDict [] end = VDict d0 /\
             bucket_acc (VDict d0) /\
             forall f, sub_lookup old f = lookup f d0).
  { destruct old as [v |].
    - pose proof (Hold v eq_refl) as Hv. inversion Hv as [d0 ? ? Heq]; subst.
      exists d0. split; [reflexivity |]. split; [exact Hv | reflexivity].
    - exists []. split; [reflexivity |]. split; [exact bucket_acc_empty | reflexivity]. }
  destruct Hsub as (d0 & Hd0 & Hacc0 & Hleaf0).
  unfold item_step. rewrite Hd0.
  destruct (String.eqb_spec b "by_material") as [-> | _]; [contradiction |].
  destruct (sum_bucket false None x d0 Hacc0) as (d1 & Hd1 & Hacc1 & Hframe1 & Hleaf1).
  rewrite Hd1. cbn [bind].
  assert (Hplain : exists d',
             Ok (A := option value) (Some (VDict d1)) = Ok (Some (VDict d')) /\
             bucket_acc (VDict d') /\
             (forall f, In f DEFINED_FLOWS ->
                lookup f d' = Some (acc_leaf (sub_lookup old f) (x f)))).
  { exists d1. split; [reflexivity |]. split; [exact Hacc1 |].
    intros f Hf. rewrite Hleaf0. exact (Hleaf1 f Hf). }
  destruct asm as [a |]; [| exact Hplain].
  destruct (bm && (0 <? Z.of_nat (length (EPiCAssembly.epic_materials a)))
            && name_in b (material_names a)); [| exact Hplain].
  clear Hplain. rewrite nest_by_assembly_dict.
  inversion Hacc1 as [d1' Hflows1 Hnest1 Heq]; subst.
  assert (Hgroup : exists gd,
             match lookup "by_assembly" d1 with
             | Some g => Ok g
             | None => Ok (VDict [])
             end = Ok (VDict gd) /\ forall k, field_ok bucket_acc k gd).
  { destruct (lookup "by_assembly" d1) as [g |] eqn:Hg.
    - destruct (Hnest1 g Hg) as (gd & -> & Hgd). exists gd. split; [reflexivity | exact Hgd].
    - exists []. split; [reflexivity |]. intros k y Hy. discriminate. }
  destruct Hgroup as (gd & -> & Hgd). cbn [bind].
  assert (Htarget : exists t0,
             match lookup (EPiCAssembly.name a) gd with
             | Some t => t
             | None => VDict []
             end = VDict t0 /\ bucket_acc (VDict t0)).
  { destruct (lookup (EPiCAssembly.name a) gd) as [t |] eqn:Ht.
    - pose proof (Hgd _ t Ht) as Hacc. inversion Hacc as [t0 ? ? Heq]; subst.
      exists t0. split; [reflexivity | exact Hacc].
    - exists []. split; [reflexivity | exact bucket_acc_empty]. }
  destruct Htarget as (t0 & -> & Hacct).
  destruct (sum_bucket false None x t0 Hacct) as (t1 & -> & Hacct1 & _ & _).
  cbn [bind]. eexists. split; [reflexivity |]. split.
  - constructor.
    + intros f Hf v Hv.
      rewrite lookup_update_other in Hv.
      * exact (Hflows1 f Hf v Hv).
      * intros <-. exact (by_assembly_not_flow Hf).
    + intros g Hg. rewrite lookup_update_same in Hg. injection Hg as <-.
      apply dict_of_update; assumption.
  - intros f Hf. rewrite lookup_update_other.
    + rewrite Hleaf0. exact (Hleaf1 f Hf).
    + intros <-. exact (by_assembly_not_flow Hf).
Qed.

End MergeBucket.

(** ** Merging an entry of [by_material] *)

Section MergeEntry.

Import EPiCAnalysis.

Lemma keys_entry_items F q m n : map fst (entry_items F q m n) = ENTRY_KEYS.
Proof. reflexivity. Qed.

Lemma NoDup_entry_keys : NoDup ENTRY_KEYS.
Proof.
  repeat constructor; cbn; intuition discriminate.
Qed.

Lemma in_flows_items (F : table) (k : string) (v : value) :
  In (k, v) (flows_items F) -> In k BUCKETS /\ v = VDict (bucket_items (F k)).
Proof.
  unfold flows_items. rewrite in_map_iff. intros (b & [= <- <-] & Hb).
  split; [exact Hb | reflexivity].
Qed.

Lemma flows_items_in (F : table) (b : string) :
  In b BUCKETS -> In (b, VDict (bucket_items (F b))) (flows_items F).
Proof.
  intros Hb. unfold flows_items. apply in_map_iff. exists b. split; [reflexivity | exact Hb].
Qed.

Lemma in_entry_items F q m n (k : string) (v : value) :
  In (k, v) (entry_items F q m n) ->
  (In k BUCKETS /\ v = VDict (bucket_items (F k))) \/
  (k = "quantity" /\ v = VNum q) \/
  (k = "material_object" /\ v = VMat m) \/
  (k = "material_name" /\ v = VStr n).
Proof.
  unfold entry_items. rewrite in_app_iff. intros [H | H].
  - left. exact (in_flows_items _ _ _ H).
  - right. cbn in H.
    destruct H as [[= <- <-] | [[= <- <-] | [[= <- <-] | []]]]; auto.
Qed.

Lemma bucket_not_by_material (b : string) : In b BUCKETS -> b <> "by_material".
Proof. cbn. intuition (subst; discriminate). Qed.

Lemma bucket_is_entry_key (b : string) : In b BUCKETS -> In b ENTRY_KEYS.
Proof. intros H. unfold ENTRY_KEYS. apply in_app_iff. left. exact H. Qed.

Lemma by_assembly_not_entry_key : ~ In "by_assembly" ENTRY_KEYS.
Proof. cbn. intuition discriminate. Qed.

Lemma item_step_name bm asm (old : option value) (k n : string) :
  (forall v, old = Some v -> is_str v) ->
  exists r, item_step bm asm old k (VStr n) = Ok r /\
            forall v, match r with Some new => Some new | None => old end = Some v ->
                      is_str v.
Proof.
  intros Hold. unfold item_step.
  destruct old as [o |].
  - destruct (Hold o eq_refl) as (s & ->). cbn [eq_str].
    destruct (s =? n)%string; cbn [negb bind py_add].
    + exists None. split; [reflexivity |]. intros v [= <-]. eexists. reflexivity.
    + eexists. split; [reflexivity |]. intros v [= <-]. eexists. reflexivity.
  - exists (Some (VStr n)). split; [reflexivity |]. intros v [= <-]. eexists. reflexivity.
Qed.

Lemma entry_acc_empty : entry_acc (VDict []).
Proof. constructor; intros; intro; discriminate. Qed.

(** Merging an entry into an accumulated entry: every bucket leaf gets
    its accumulated value, the material object is replaced, and the keys
    outside the entry are left alone. *)
Lemma sum_entry bm asm F q m n (e : dict) :
  entry_acc (VDict e) ->
  exists e',
    _sum_by_assembly_and_material (VDict e) (VDict (entry_items F q m n)) bm asm
    = Ok (VDict e') /\
    entry_acc (VDict e') /\
    (forall k, ~ In k ENTRY_KEYS -> lookup k e' = lookup k e) /\
    (forall b f, In b BUCKETS -> In f DEFINED_FLOWS ->
       sub_lookup (lookup b e') f = Some (acc_leaf (sub_lookup (lookup b e) f) (F b f))) /\
    lookup "material_object" e' = Some (VMat m) /\
    lookup "quantity" e' = Some (acc_leaf (lookup "quantity" e) q).
Proof.
  intros Hacc. inversion Hacc as [e0 Hbuckets Hquantity Hname Hnest Heq]; subst.
  assert (Hnd : NoDup (map fst (entry_items F q m n))).
  { rewrite keys_entry_items. exact NoDup_entry_keys. }
  destruct (merge_items_ok bm asm (entry_items F q m n) e Hnd) as (e' & He').
  { intros k v Hin.
    destruct (in_entry_items _ _ _ _ _ _ Hin)
      as [[Hb ->] | [[-> ->] | [[-> ->] | [-> ->]]]].
    - destruct (item_step_bucket bm asm (lookup k e) k (F k)
                  (bucket_not_by_material k Hb) (Hbuckets k Hb)) as (d' & Hd' & _).
      eexists. exact Hd'.
    - eexists. apply item_step_num. exact Hquantity.
    - eexists. reflexivity.
    - destruct (item_step_name bm asm (lookup "material_name" e) "material_name" n Hname)
        as (r & Hr & _).
      exists r. exact Hr. }
  exists e'. rewrite sum_as_merge_items, He'. cbn [bind].
  split; [reflexivity |].
  assert (Hbucket : forall b, In b BUCKETS ->
            exists d', lookup b e' = Some (VDict d') /\ bucket_acc (VDict d') /\
                       forall f, In f DEFINED_FLOWS ->
                         lookup f d' = Some (acc_leaf (sub_lookup (lookup b e) f) (F b f))).
  { intros b Hb.
    destruct (merge_items_at bm asm _ e e' b (VDict (bucket_items (F b))) Hnd He')
      as (r & Hr & Hlk).
    { unfold entry_items. apply in_app_iff. left. exact (flows_items_in F b Hb). }
    destruct (item_step_bucket bm asm (lookup b e) b (F b)
                (bucket_not_by_material b Hb) (Hbuckets b Hb)) as (d' & Hd' & Hacc' & Hleaf).
    rewrite Hd' in Hr. injection Hr as <-.
    exists d'. split; [| split; assumption].
    rewrite Hlk. apply lookup_update_same. }
  assert (Hframe : forall k, ~ In k ENTRY_KEYS -> lookup k e' = lookup k e).
  { intros k Hk. apply (merge_items_frame bm asm _ _ _ _ He').
    rewrite keys_entry_items. exact Hk. }
  assert (Hq : lookup "quantity" e' = Some (acc_leaf (lookup "quantity" e) q)).
  { destruct (merge_items_at bm asm _ e e' "quantity" (VNum q) Hnd He') as (r & Hr & Hlk).
    { unfold entry_items. apply in_app_iff. right. left. reflexivity. }
    rewrite (item_step_num bm asm _ "quantity" q Hquantity) in Hr. injection Hr as <-.
    rewrite Hlk. apply lookup_update_same. }
  assert (Hm : lookup "material_object" e' = Some (VMat m)).
  { destruct (merge_items_at bm asm _ e e' "material_object" (VMat m) Hnd He')
      as (r & Hr & Hlk).
    { unfold entry_items. apply in_app_iff. right. right. left. reflexivity. }
    cbn in Hr. injection Hr as <-. rewrite Hlk. apply lookup_update_same. }
  split; [| split; [exact Hframe | split; [| split; [exact Hm | exact Hq]]]].
  - constructor.
    + intros b Hb v Hv. destruct (Hbucket b Hb) as (d' & Hd' & Hacc' & _).
      rewrite Hd' in Hv. injection Hv as <-. exact Hacc'.
    + intros v Hv. rewrite Hq in Hv. injection Hv as <-. apply acc_leaf_is_num.
    + intros v Hv.
      destruct (merge_items_at bm asm _ e e' "material_name" (VStr n) Hnd He')
        as (r & Hr & Hlk).
      { unfold entry_items. apply in_app_iff. right. right. right. left. reflexivity. }
      destruct (item_step_name bm asm (lookup "material_name" e) "material_name" n Hname)
        as (r' & Hr' & Hstr).
      rewrite Hr' in Hr. injection Hr as <-.
      rewrite Hlk, lookup_assign_same in Hv. exact (Hstr v Hv).
    + intros g Hg. rewrite (Hframe _ by_assembly_not_entry_key) in Hg. exact (Hnest g Hg).
  - intros b f Hb Hf. destruct (Hbucket b Hb) as (d' & Hd' & _ & Hleaf).
    rewrite Hd'. cbn [sub_lookup]. exact (Hleaf f Hf).
Qed.

End MergeEntry.

(** ** Merging the [by_material] dictionary of an assembly *)

Section MergeGroup.

Import EPiCAnalysis.

Lemma by_assembly_not_bucket : ~ In "by_assembly" BUCKETS.
Proof. cbn. intuition discriminate. Qed.

(** The iteration of the loop on an entry of [by_material], with the
    nested ["by_assembly"] block when it applies. *)
Lemma item_step_entry asm (old : option value) (k : string) F q m n :
  (forall v, old = Some v -> entry_acc v) ->
  exists e',
    item_step true asm old k (VDict (entry_items F q m n)) = Ok (Some (VDict e')) /\
    entry_acc (VDict e') /\
    (forall b f, In b BUCKETS -> In f DEFINED_FLOWS ->
       sub_lookup (lookup b e') f = Some (acc_leaf (leaf_at old b f) (F b f))) /\
    lookup "material_object" e' = Some (VMat m) /\
    lookup "quantity" e' = Some (acc_leaf (sub_lookup old "quantity") q).
Proof.
  intros Hold.
  assert (Hsub : exists e0,
             match old with Some v => v | None => VDict [] end = VDict e0 /\
             entry_acc (VDict e0) /\
             forall j, sub_lookup old j = lookup j e0).
  { destruct old as [v |].
    - pose proof (Hold v eq_refl) as Hv. inversion Hv as [e0 ? ? ? ? Heq]; subst.
      exists e0. split; [reflexivity |]. split; [exact Hv | reflexivity].
    - exists []. split; [reflexivity |]. split; [exact entry_acc_empty | reflexivity]. }
  destruct Hsub as (e0 & He0 & Hacc0 & Hsub0).
  unfold item_step. rewrite He0. unfold leaf_at.
  destruct (k =? "by_material")%string.
  - (* the material is named "by_material": the flags are passed on *)
    destruct (sum_entry true asm F q m n e0 Hacc0)
      as (e1 & -> & Hacc1 & _ & Hleaf1 & Hm1 & Hq1).
    cbn [bind]. exists e1. split; [reflexivity |]. split; [exact Hacc1 |].
    split; [| split; [exact Hm1 | rewrite Hsub0; exact Hq1]].
    intros b f Hb Hf. rewrite Hsub0. exact (Hleaf1 b f Hb Hf).
  - destruct (sum_entry false None F q m n e0 Hacc0)
      as (e1 & -> & Hacc1 & Hframe1 & Hleaf1 & Hm1 & Hq1).
    cbn [bind].
    assert (Hplain : exists e',
               Ok (A := option value) (Some (VDict e1)) = Ok (Some (VDict e')) /\
               entry_acc (VDict e') /\
               (forall b f, In b BUCKETS -> In f DEFINED_FLOWS ->
                  sub_lookup (lookup b e') f
                  = Some (acc_leaf (sub_lookup (sub_lookup old b) f) (F b f))) /\
               lookup "material_object" e' = Some (VMat m) /\
               lookup "quantity" e' = Some (acc_leaf (sub_lookup old "quantity") q)).
    { exists e1. split; [reflexivity |]. split; [exact Hacc1 |].
      split; [| split; [exact Hm1 | rewrite Hsub0; exact Hq1]].
      intros b f Hb Hf. rewrite Hsub0. exact (Hleaf1 b f Hb Hf). }
    destruct asm as [a |]; [| exact Hplain].
    destruct (true && (0 <? Z.of_nat (length (EPiCAssembly.epic_materials a)))
              && name_in k (material_names a)); [| exact Hplain].
    clear Hplain. rewrite nest_by_assembly_dict.
    inversion Hacc1 as [e1' Hbuckets1 Hquantity1 Hname1 Hnest1 Heq]; subst.
    assert (Hgroup : exists gd,
               match lookup "by_assembly" e1 with
               | Some g => Ok g
               | None => Ok (VDict [])
               end = Ok (VDict gd) /\ forall j, field_ok entry_acc j gd).
    { destruct (lookup "by_assembly" e1) as [g |] eqn:Hg.
      - destruct (Hnest1 g Hg) as (gd & -> & Hgd).
        exists gd. split; [reflexivity | exact Hgd].
      - exists []. split; [reflexivity |]. intros j y Hy. discriminate. }
    destruct Hgroup as (gd & -> & Hgd). cbn [bind].
    assert (Htarget : exists t0,
               match lookup (EPiCAssembly.name a) gd with
               | Some t => t
               | None => VDict []
               end = VDict t0 /\ entry_acc (VDict t0)).
    { destruct (lookup (EPiCAssembly.name a) gd) as [t |] eqn:Ht.
      - pose proof (Hgd _ t Ht) as Hacc. inversion Hacc as [t0 ? ? ? ? Heq]; subst.
        exists t0. split; [reflexivity | exact Hacc].
      - exists []. split; [reflexivity | exact entry_acc_empty]. }
    destruct Htarget as (t0 & -> & Hacct).
    destruct (sum_entry false None F q m n t0 Hacct) as (t1 & -> & Hacct1 & _).
    cbn [bind]. eexists. split; [reflexivity |].
    assert (Hother : forall j, j <> "by_assembly" ->
              lookup j (update "by_assembly"
                          (VDict (update (EPiCAssembly.name a) (VDict t1) gd)) e1)
              = lookup j e1).
    { intros j Hj. apply lookup_update_other. intros E. apply Hj. symmetry. exact E. }
    split; [| split; [| split]].
    + constructor.
      * intros b Hb v Hv. rewrite Hother in Hv.
        -- exact (Hbuckets1 b Hb v Hv).
        -- intros ->. exact (by_assembly_not_bucket Hb).
      * intros v Hv. rewrite Hother in Hv by discriminate. exact (Hquantity1 v Hv).
      * intros v Hv. rewrite Hother in Hv by discriminate. exact (Hname1 v Hv).
      * intros g Hg. rewrite lookup_update_same in Hg. injection Hg as <-.
        apply dict_of_update; assumption.
    + intros b f Hb Hf. rewrite Hother.
      * rewrite Hsub0. exact (Hleaf1 b f Hb Hf).
      * intros ->. exact (by_assembly_not_bucket Hb).
    + rewrite Hother by discriminate. exact Hm1.
    + rewrite Hother by discriminate. rewrite Hsub0. exact Hq1.
Qed.

(** *** Keys of a typed group *)

Lemma keys_update {A : Type} (k : string) (v : A) (d : list (string * A)) :
  map fst (update k v d)
  = if existsb (String.eqb k) (map fst d) then map fst d else (map fst d ++ [k])%list.
Proof.
  induction d as [| [k' v'] d IH]; [reflexivity |].
  cbn [update map fst existsb].
  rewrite (String.eqb_sym k k').
  destruct (k' =? k)%string; cbn [orb map fst]; [reflexivity |].
  rewrite IH. destruct (existsb (String.eqb k) (map fst d)); reflexivity.
Qed.

Lemma NoDup_update {A : Type} (k : string) (v : A) (d : list (string * A)) :
  NoDup (map fst d) -> NoDup (map fst (update k v d)).
Proof.
  intros Hnd. rewrite keys_update.
  destruct (existsb (String.eqb k) (map fst d)) eqn:Hex; [exact Hnd |].
  apply NoDup_app; [exact Hnd | repeat constructor; intros [] |].
  intros x Hx [E | []]. subst x.
  assert (existsb (String.eqb k) (map fst d) = true) as Htrue.
  { apply existsb_exists. exists k. split; [exact Hx | apply String.eqb_refl]. }
  rewrite Htrue in Hex. discriminate.
Qed.

Lemma group_fold_NoDup (self : EPiCAssembly.t) period l (G0 G : group) :
  NoDup (map fst G0) ->
  fold_m (group_step self period) l G0 = Ok G -> NoDup (map fst G).
Proof.
  revert G0. induction l as [| [m q] l IH]; intros G0 Hnd; cbn [fold_m].
  - intros [= <-]. exact Hnd.
  - destruct (group_step self period G0 (m, q)) as [G1 |] eqn:Hstep; cbn [bind];
      [| discriminate].
    apply IH. unfold group_step in Hstep. cbn [fst snd] in Hstep.
    destruct (lookup (EPiCMaterial.name m) G0) as [[[F0 q0] m0] |].
    + destruct (EPiCMaterial.material_id m0 =? EPiCMaterial.material_id m)%string;
        [| discriminate].
      injection Hstep as <-. apply NoDup_update. exact Hnd.
    + injection Hstep as <-. apply NoDup_update. exact Hnd.
Qed.

Lemma In_lookup {A : Type} (k : string) (v : A) (d : list (string * A)) :
  NoDup (map fst d) -> In (k, v) d -> lookup k d = Some v.
Proof.
  induction d as [| [k' v'] d IH]; intros Hnd Hin; [destruct Hin |].
  cbn [map fst] in Hnd. inversion Hnd as [| ? ? Hk' Hnd']; subst.
  cbn [lookup]. destruct Hin as [[= -> ->] | Hin].
  - rewrite String.eqb_refl. reflexivity.
  - destruct (String.eqb_spec k' k) as [-> | Hne].
    + exfalso. apply Hk'. apply in_map_iff. exists (k, v). split; [reflexivity | exact Hin].
    + apply IH; assumption.
Qed.

Lemma lookup_None_keys {A : Type} (k : string) (d : list (string * A)) :
  lookup k d = None -> ~ In k (map fst d).
Proof.
  induction d as [| [k' v'] d IH]; cbn; [intros _ [] |].
  destruct (String.eqb_spec k' k) as [-> | Hne]; [discriminate |].
  intros H [E | Hin]; [contradiction | exact (IH H Hin)].
Qed.

Lemma keys_group_items (G : group) : map fst (group_items G) = map fst G.
Proof. unfold group_items. rewrite map_map. reflexivity. Qed.

(** Merging the [by_material] dictionary of an assembly into an
    accumulated one: a name the assembly does not have keeps its entry, a
    name it has gets the merged entry. *)
Lemma merge_group asm (G : group) (md : dict) :
  NoDup (map fst G) ->
  (forall k, field_ok entry_acc k md) ->
  exists md',
    merge_items true asm (group_items G) md = Ok md' /\
    (forall k, field_ok entry_acc k md') /\
    (forall n, lookup n G = None -> lookup n md' = lookup n md) /\
    (forall n F q m, lookup n G = Some (F, q, m) ->
       exists e',
         lookup n md' = Some (VDict e') /\
         (forall b f, In b BUCKETS -> In f DEFINED_FLOWS ->
            sub_lookup (lookup b e') f
            = Some (acc_leaf (leaf_at (lookup n md) b f) (F b f))) /\
         lookup "material_object" e' = Some (VMat m) /\
         lookup "quantity" e' = Some (acc_leaf (sub_lookup (lookup n md) "quantity") q)).
Proof.
  intros Hnd Hmd.
  assert (Hnd' : NoDup (map fst (group_items G))).
  { rewrite keys_group_items. exact Hnd. }
  assert (Hin : forall k v, In (k, v) (group_items G) ->
            exists F q m, lookup k G = Some (F, q, m) /\
                          v = VDict (entry_items F q m k)).
  { intros k v Hin. destruct (In_group_items _ _ _ Hin) as (F & q & m & HinG & ->).
    exists F, q, m. split; [apply In_lookup; assumption | reflexivity]. }
  destruct (merge_items_ok true asm (group_items G) md Hnd') as (md' & Hmd').
  { intros k v Hkv. destruct (Hin k v Hkv) as (F & q & m & _ & ->).
    destruct (item_step_entry asm (lookup k md) k F q m k (Hmd k)) as (e' & He' & _).
    eexists. exact He'. }
  assert (Hat : forall n F q m, lookup n G = Some (F, q, m) ->
            exists e',
              lookup n md' = Some (VDict e') /\ entry_acc (VDict e') /\
              (forall b f, In b BUCKETS -> In f DEFINED_FLOWS ->
                 sub_lookup (lookup b e') f
                 = Some (acc_leaf (leaf_at (lookup n md) b f) (F b f))) /\
              lookup "material_object" e' = Some (VMat m) /\
              lookup "quantity" e'
              = Some (acc_leaf (sub_lookup (lookup n md) "quantity") q)).
  { intros n F q m HG.
    destruct (merge_items_at true asm (group_items G) md md' n
                (VDict (entry_items F q m n)) Hnd' Hmd') as (r & Hr & Hlk).
    { apply lookup_In. rewrite lookup_group_items, HG. reflexivity. }
    destruct (item_step_entry asm (lookup n md) n F q m n (Hmd n))
      as (e' & He' & Hacc' & Hleaf & Hm & Hq).
    rewrite He' in Hr. injection Hr as <-.
    exists e'. split; [rewrite Hlk; apply lookup_update_same |].
    split; [exact Hacc' |]. split; [exact Hleaf |]. split; [exact Hm | exact Hq]. }
  assert (Hframe : forall n, lookup n G = None -> lookup n md' = lookup n md).
  { intros n HG. apply (merge_items_frame true asm _ _ _ _ Hmd').
    rewrite keys_group_items. exact (lookup_None_keys _ _ HG). }
  exists md'. split; [exact Hmd' |]. split; [| split; [exact Hframe |]].
  - intros k v Hv.
    destruct (lookup k G) as [[[F q] m] |] eqn:HG.
    + destruct (Hat k F q m HG) as (e' & He' & Hacc' & _).
      rewrite He' in Hv. injection Hv as <-. exact Hacc'.
    + rewrite (Hframe k HG) in Hv. exact (Hmd k v Hv).
  - intros n F q m HG.
    destruct (Hat n F q m HG) as (e' & He' & _ & Hleaf & Hm & Hq).
    exists e'. split; [exact He' |]. split; [exact Hleaf |]. split; [exact Hm | exact Hq].
Qed.

End MergeGroup.

(** ** Merging the flows of an assembly *)

Section MergeFlows.

Import EPiCAnalysis.

Lemma keys_assembly_items T G : map fst (assembly_items T G) = FLOWS_KEYS.
Proof.
  unfold assembly_items, FLOWS_KEYS. rewrite map_app. reflexivity.
Qed.

Lemma NoDup_flows_keys : NoDup FLOWS_KEYS.
Proof.
  repeat constructor; cbn; intuition discriminate.
Qed.

Lemma in_assembly_items T G (k : string) (v : value) :
  In (k, v) (assembly_items T G) ->
  (In k BUCKETS /\ v = VDict (bucket_items (T k))) \/
  (k = "by_material" /\ v = VDict (group_items G)).
Proof.
  unfold assembly_items. rewrite in_app_iff. intros [H | [[= <- <-] | []]].
  - left. exact (in_flows_items _ _ _ H).
  - right. split; reflexivity.
Qed.

Lemma by_material_not_bucket : ~ In "by_material" BUCKETS.
Proof. cbn. intuition discriminate. Qed.

Lemma by_assembly_not_flows_key : ~ In "by_assembly" FLOWS_KEYS.
Proof. cbn. intuition discriminate. Qed.

Lemma bucket_is_flows_key (b : string) : In b BUCKETS -> In b FLOWS_KEYS.
Proof. intros H. unfold FLOWS_KEYS. apply in_app_iff. left. exact H. Qed.

(** The iteration of the loop on the [by_material] dictionary *)
Lemma item_step_group asm (old : option value) (G : group) :
  NoDup (map fst G) ->
  (forall v, old = Some v -> dict_of entry_acc v) ->
  exists md',
    item_step true asm old "by_material" (VDict (group_items G)) = Ok (Some (VDict md')) /\
    (forall k, field_ok entry_acc k md') /\
    (forall n, lookup n G = None -> lookup n md' = sub_lookup old n) /\
    (forall n F q m, lookup n G = Some (F, q, m) ->
       exists e',
         lookup n md' = Some (VDict e') /\
         (forall b f, In b BUCKETS -> In f DEFINED_FLOWS ->
            sub_lookup (lookup b e') f
            = Some (acc_leaf (leaf_at (sub_lookup old n) b f) (F b f))) /\
         lookup "material_object" e' = Some (VMat m) /\
         lookup "quantity" e'
         = Some (acc_leaf (sub_lookup (sub_lookup old n) "quantity") q)).
Proof.
  intros Hnd Hold.
  assert (Hsub : exists md,
             match old with Some v => v | None => VDict [] end = VDict md /\
             (forall k, field_ok entry_acc k md) /\
             forall n, sub_lookup old n = lookup n md).
  { destruct old as [v |].
    - destruct (Hold v eq_refl) as (md & -> & Hmd).
      exists md. split; [reflexivity |]. split; [exact Hmd | reflexivity].
    - exists []. split; [reflexivity |]. split; [| reflexivity].
      intros k v Hv. discriminate. }
  destruct Hsub as (md & Hsub & Hmd & Hlk).
  destruct (merge_group asm G md Hnd Hmd) as (md' & Hmd' & Hacc' & Hframe & Hat).
  exists md'. unfold item_step. rewrite Hsub. cbn [String.eqb Ascii.eqb Bool.eqb].
  rewrite sum_as_merge_items, Hmd'. cbn [bind].
  split; [reflexivity |]. split; [exact Hacc' |]. split.
  - intros n HG. rewrite Hlk. exact (Hframe n HG).
  - intros n F q m HG. rewrite Hlk. exact (Hat n F q m HG).
Qed.

(** Merging the flows of an assembly into accumulated flows: the bucket
    leaves accumulate, the entries of [by_material] merge name by name,
    the other keys are left alone. *)
Lemma sum_flows asm (T : table) (G : group) (d : dict) :
  NoDup (map fst G) ->
  (forall b, In b BUCKETS -> field_ok bucket_acc b d) ->
  field_ok (dict_of entry_acc) "by_material" d ->
  exists d',
    _sum_by_assembly_and_material (VDict d) (VDict (assembly_items T G)) true asm
    = Ok (VDict d') /\
    (forall b, In b BUCKETS -> field_ok bucket_acc b d') /\
    field_ok (dict_of entry_acc) "by_material" d' /\
    (forall k, ~ In k FLOWS_KEYS -> lookup k d' = lookup k d) /\
    (forall b f, In b BUCKETS -> In f DEFINED_FLOWS ->
       sub_lookup (lookup b d') f = Some (acc_leaf (sub_lookup (lookup b d) f) (T b f))) /\
    (forall n, lookup n G = None -> entry_of d' n = entry_of d n) /\
    (forall n F q m, lookup n G = Some (F, q, m) ->
       exists e',
         entry_of d' n = Some (VDict e') /\
         (forall b f, In b BUCKETS -> In f DEFINED_FLOWS ->
            sub_lookup (lookup b e') f
            = Some (acc_leaf (leaf_at (entry_of d n) b f) (F b f))) /\
         lookup "material_object" e' = Some (VMat m) /\
         lookup "quantity" e'
         = Some (acc_leaf (sub_lookup (entry_of d n) "quantity") q)).
Proof.
  intros HndG Hbuckets Hgroup.
  assert (Hnd : NoDup (map fst (assembly_items T G))).
  { rewrite keys_assembly_items. exact NoDup_flows_keys. }
  destruct (merge_items_ok true asm (assembly_items T G) d Hnd) as (d' & Hd').
  { intros k v Hin.
    destruct (in_assembly_items _ _ _ _ Hin) as [[Hb ->] | [-> ->]].
    - destruct (item_step_bucket true asm (lookup k d) k (T k)
                  (bucket_not_by_material k Hb) (Hbuckets k Hb)) as (x & Hx & _).
      eexists. exact Hx.
    - destruct (item_step_group asm (lookup "by_material" d) G HndG Hgroup)
        as (md' & Hmd' & _).
      eexists. exact Hmd'. }
  exists d'. rewrite sum_as_merge_items, Hd'. cbn [bind].
  split; [reflexivity |].
  assert (Hbucket : forall b, In b BUCKETS ->
            exists x, lookup b d' = Some (VDict x) /\ bucket_acc (VDict x) /\
                      forall f, In f DEFINED_FLOWS ->
                        lookup f x = Some (acc_leaf (sub_lookup (lookup b d) f) (T b f))).
  { intros b Hb.
    destruct (merge_items_at true asm _ d d' b (VDict (bucket_items (T b))) Hnd Hd')
      as (r & Hr & Hlk).
    { unfold assembly_items. apply in_app_iff. left. exact (flows_items_in T b Hb). }
    destruct (item_step_bucket true asm (lookup b d) b (T b)
                (bucket_not_by_material b Hb) (Hbuckets b Hb)) as (x & Hx & Hacc & Hleaf).
    rewrite Hx in Hr. injection Hr as <-.
    exists x. split; [| split; assumption].
    rewrite Hlk. apply lookup_update_same. }
  destruct (merge_items_at true asm _ d d' "by_material" (VDict (group_items G)) Hnd Hd')
    as (r & Hr & Hlk).
  { unfold assembly_items. apply in_app_iff. right. left. reflexivity. }
  destruct (item_step_group asm (lookup "by_material" d) G HndG Hgroup)
    as (md' & Hmd' & Hacc' & Hframe' & Hat').
  rewrite Hmd' in Hr. injection Hr as <-.
  cbn [assign] in Hlk. rewrite lookup_update_same in Hlk.
  split; [| split; [| split; [| split; [| split]]]].
  - intros b Hb v Hv. destruct (Hbucket b Hb) as (x & Hx & Hacc & _).
    rewrite Hx in Hv. injection Hv as <-. exact Hacc.
  - intros v Hv. rewrite Hlk in Hv. injection Hv as <-.
    exists md'. split; [reflexivity | exact Hacc'].
  - intros k Hk. apply (merge_items_frame true asm _ _ _ _ Hd').
    rewrite keys_assembly_items. exact Hk.
  - intros b f Hb Hf. destruct (Hbucket b Hb) as (x & Hx & _ & Hleaf).
    rewrite Hx. cbn [sub_lookup]. exact (Hleaf f Hf).
  - intros n HG. unfold entry_of. rewrite Hlk. cbn [sub_lookup].
    exact (Hframe' n HG).
  - intros n F q m HG. unfold entry_of. rewrite Hlk. cbn [sub_lookup].
    exact (Hat' n F q m HG).
Qed.

Lemma flows_acc_empty : flows_acc (VDict []).
Proof.
  exists []. split; [reflexivity |]. split; intros; intro; discriminate.
Qed.

Lemma result_acc_empty : result_acc (VDict []).
Proof.
  exists []. split; [reflexivity |].
  split; [| split]; intros; intro; discriminate.
Qed.

(** One assembly of [sum_by_assembly_and_material]: it never raises on
    the dictionary a call of [calculate_flows] returned, and merges the
    entries of [by_material] name by name. *)
Lemma sum_one_spec (a : EPiCAssembly.t) (T : table) (G : group) (d : dict) :
  EPiCAssembly.recalculated_flows a = VDict (assembly_items T G) ->
  NoDup (map fst G) ->
  result_acc (VDict d) ->
  exists d',
    sum_one (VDict d) a = Ok (VDict d') /\
    result_acc (VDict d') /\
    (forall b f, In b BUCKETS -> In f DEFINED_FLOWS ->
       sub_lookup (lookup b d') f = Some (acc_leaf (sub_lookup (lookup b d) f) (T b f))) /\
    (forall n, lookup n G = None -> entry_of d' n = entry_of d n) /\
    (forall n F q m, lookup n G = Some (F, q, m) ->
       exists e',
         entry_of d' n = Some (VDict e') /\
         (forall b f, In b BUCKETS -> In f DEFINED_FLOWS ->
            sub_lookup (lookup b e') f
            = Some (acc_leaf (leaf_at (entry_of d n) b f) (F b f))) /\
         lookup "material_object" e' = Some (VMat m) /\
         lookup "quantity" e'
         = Some (acc_leaf (sub_lookup (entry_of d n) "quantity") q)).
Proof.
  intros Hflows HndG (d0 & [= <-] & Hbuckets & Hgroup & Hcats).
  destruct (sum_flows (Some a) T G d HndG Hbuckets Hgroup)
    as (d1 & Hd1 & Hbuckets1 & Hgroup1 & Hframe1 & Hleaf1 & Hkeep1 & Hat1).
  rewrite sum_one_as_nest, Hflows, Hd1. cbn [bind].
  rewrite nest_by_assembly_dict.
  assert (Hgd : exists gd,
             match lookup "by_assembly" d1 with
             | Some g => Ok g
             | None => Ok (VDict [])
             end = Ok (VDict gd) /\ forall k, field_ok flows_acc k gd).
  { rewrite (Hframe1 _ by_assembly_not_flows_key).
    destruct (lookup "by_assembly" d) as [g |] eqn:Hlk.
    - destruct (Hcats g Hlk) as (gd & -> & Hgd).
      exists gd. split; [reflexivity | exact Hgd].
    - exists []. split; [reflexivity |]. intros k v Hv. discriminate. }
  destruct Hgd as (gd & -> & Hgd). cbn [bind].
  assert (Htarget : exists t0,
             match lookup (EPiCAssembly.category a) gd with
             | Some t => t
             | None => VDict []
             end = VDict t0 /\
             (forall b, In b BUCKETS -> field_ok bucket_acc b t0) /\
             field_ok (dict_of entry_acc) "by_material" t0).
  { destruct (lookup (EPiCAssembly.category a) gd) as [t |] eqn:Ht.
    - destruct (Hgd _ t Ht) as (t0 & -> & Hb0 & Hg0).
      exists t0. split; [reflexivity |]. split; assumption.
    - exists []. split; [reflexivity |]. split; intros; intro; discriminate. }
  destruct Htarget as (t0 & -> & Hb0 & Hg0).
  destruct (sum_flows None T G t0 HndG Hb0 Hg0) as (t1 & -> & Hb1 & Hg1 & _).
  cbn [bind]. eexists. split; [reflexivity |].
  assert (Hother : forall j, j <> "by_assembly" ->
            lookup j (update "by_assembly"
                        (VDict (update (EPiCAssembly.category a) (VDict t1) gd)) d1)
            = lookup j d1).
  { intros j Hj. apply lookup_update_other. intros E. apply Hj. symmetry. exact E. }
  split; [| split; [| split]].
  - eexists. split; [reflexivity |]. split; [| split].
    + intros b Hb v Hv. rewrite Hother in Hv.
      * exact (Hbuckets1 b Hb v Hv).
      * intros ->. exact (by_assembly_not_bucket Hb).
    + intros v Hv. rewrite Hother in Hv by discriminate. exact (Hgroup1 v Hv).
    + intros v Hv. rewrite lookup_update_same in Hv. injection Hv as <-.
      apply dict_of_update; [| exact Hgd].
      exists t1. split; [reflexivity |]. split; assumption.
  - intros b f Hb Hf. rewrite Hother.
    + exact (Hleaf1 b f Hb Hf).
    + intros ->. exact (by_assembly_not_bucket Hb).
  - intros n HG. unfold entry_of. rewrite Hother by discriminate.
    exact (Hkeep1 n HG).
  - intros n F q m HG. unfold entry_of. rewrite Hother by discriminate.
    exact (Hat1 n F q m HG).
Qed.

End MergeFlows.

(** ** The leaves of [by_material] are floats *)

Section Floats.

Import EPiCAssembly.

Lemma is_float_nmul_r (x y : num) : is_float y = true -> is_float (nmul x y) = true.
Proof. destruct x, y; cbn; congruence. Qed.

Lemma is_float_nmul_l (x y : num) : is_float x = true -> is_float (nmul x y) = true.
Proof. destruct x, y; cbn; congruence. Qed.

Lemma is_float_nadd_l (x y : num) : is_float x = true -> is_float (nadd x y) = true.
Proof. destruct x, y; cbn; congruence. Qed.

Lemma is_float_nsum (l : list num) :
  l <> [] -> Forall (fun x => is_float x = true) l -> is_float (nsum l) = true.
Proof.
  unfold nsum. destruct l as [| x l]; [contradiction |].
  intros _ Hl. inversion Hl as [| ? ? Hx Hl']; subst. cbn [fold_left].
  assert (Hacc : is_float (nadd (NInt 0) x) = true) by (destruct x; [discriminate | reflexivity]).
  clear Hl Hx. revert Hacc. generalize (nadd (NInt 0) x) as acc.
  induction Hl' as [| y l Hy Hl' IH]; intros acc Hacc; cbn [fold_left]; [exact Hacc |].
  apply IH. apply is_float_nadd_l. exact Hacc.
Qed.

Lemma initial_result_floats (self : t) ml flow wastage_only quantity cs :
  initial_result self ml flow wastage_only quantity = Ok cs ->
  Forall (fun x => is_float x = true) cs.
Proof.
  unfold initial_result.
  destruct (wastage_override self) as [override |]; [destruct (truthy override) |];
    apply map_m_Forall; intros m b _;
    (destruct (EPiCMaterial.getattr (fst m) flow) as [c | e]; cbn [bind]; [| discriminate]);
    intros [= <-]; apply is_float_nmul_r; destruct wastage_only; reflexivity.
Qed.

Lemma recurrent_of_material_float p c m r :
  is_float c = true -> recurrent_of_material p c m = Ok r -> is_float r = true.
Proof.
  intros Hc. unfold recurrent_of_material.
  destruct (_get_num_replacements p (EPiCMaterial.service_life (fst m))) as [n | []];
    intros [= <-]; try reflexivity.
  apply is_float_nmul_l. exact Hc.
Qed.

(** On a non-empty list of materials [_calculate_flows] returns a
    float. *)
Lemma flow_value_float (self : t) ml flow wastage_only p quantity :
  ml <> [] -> In flow DEFINED_FLOWS ->
  is_float (flow_value self ml flow wastage_only p quantity) = true.
Proof.
  intros Hml Hflow.
  pose proof (calculate_flows_value self ml flow wastage_only p quantity Hflow) as Hv.
  unfold _calculate_flows in Hv.
  destruct (initial_result_ok self ml flow wastage_only quantity Hflow)
    as (cs & Hcs & Hlen).
  rewrite Hcs in Hv. cbn [bind] in Hv.
  pose proof (initial_result_floats _ _ _ _ _ _ Hcs) as Hfl.
  assert (Hne : cs <> []).
  { intros ->. destruct ml; [contradiction | discriminate]. }
  destruct p as [p |].
  - destruct (p =? 0).
    + injection Hv as <-. reflexivity.
    + destruct ((p >? 0) && service_life_set (service_life self)).
      * destruct (_get_num_replacements p (service_life self)) as [n |]; cbn [bind] in Hv;
          [| discriminate].
        injection Hv as <-. apply is_float_nsum.
        -- destruct cs; [contradiction | discriminate].
        -- rewrite Forall_map. revert Hfl. apply Forall_impl.
           intros c Hc. apply is_float_nmul_l. exact Hc.
      * destruct ((p >? 0) && negb (service_life_set (service_life self))).
        -- destruct (map_m (fun em => recurrent_of_material p (fst em) (snd em))
                       (combine cs ml)) as [rs |] eqn:Hrs; cbn [bind] in Hv;
             [| discriminate].
           injection Hv as <-. apply is_float_nsum.
           ++ pose proof (map_m_length _ _ _ Hrs) as Hl.
              rewrite length_combine, Hlen, Nat.min_id in Hl.
              intros ->. destruct ml; [contradiction | discriminate].
           ++ revert Hrs. apply map_m_Forall.
              intros [c m] r Hin. cbn [fst snd]. apply recurrent_of_material_float.
              rewrite Forall_forall in Hfl. apply Hfl.
              exact (in_combine_l _ _ _ _ Hin).
        -- cbn [bind] in Hv. injection Hv as <-. apply is_float_nsum; assumption.
  - cbn [bind] in Hv. injection Hv as <-. apply is_float_nsum; assumption.
Qed.

Lemma table_of_single_floats (self : t) period mq :
  table_of_floats (table_of self period [mq] None).
Proof.
  intros b f Hb Hf.
  assert (Hne : [mq] <> []) by discriminate.
  pose proof (fun w p => flow_value_float self [mq] f w p None Hne Hf) as H.
  cbn in Hb.
  destruct Hb as [<- | [<- | [<- | [<- | [<- | [<- | []]]]]]]; cbn;
    try apply H; apply is_float_nadd_l; apply H.
Qed.

Lemma tadd_floats (F G : table) :
  table_of_floats F -> table_of_floats G -> table_of_floats (tadd F G).
Proof.
  intros HF _ b f Hb Hf. apply is_float_nadd_l. exact (HF b f Hb Hf).
Qed.

(** What a successful call of [calculate_flows] returns, through its
    typed group. *)
Lemma calculate_flows_group (self : t) period (res : value) :
  calculate_flows self period = Ok res ->
  exists G,
    fold_m (group_step self period) (epic_materials self) [] = Ok G /\
    res = VDict (assembly_items (table_of self period (epic_materials self) None) G) /\
    NoDup (map fst G) /\
    Forall (fun x => table_of_floats (fst (fst (snd x)))) G.
Proof.
  rewrite calculate_flows_refines.
  destruct (fold_m (group_step self period) (epic_materials self) []) as [G |] eqn:Hfold;
    cbn [bind]; [| discriminate].
  intros [= <-]. exists G. split; [reflexivity |]. split; [reflexivity |]. split.
  - exact (group_fold_NoDup self period _ [] G (NoDup_nil _) Hfold).
  - exact (group_fold_tables self period table_of_floats tadd_floats
             (table_of_single_floats self period) _ [] G (Forall_nil _) Hfold).
Qed.

End Floats.

(** ** The analysis aggregator *)

Section Aggregator.

Import EPiCAnalysis.

Lemma recalculate_ok (period : option Z) (a : EPiCAssembly.t) (r : value) :
  EPiCAssembly.calculate_flows a period = Ok r ->
  recalculate period a = Ok (EPiCAssembly.set_recalculated_flows a r).
Proof. intros H. unfold recalculate. rewrite H. reflexivity. Qed.

Lemma recalculate_inv (period : option Z) (a a' : EPiCAssembly.t) :
  recalculate period a = Ok a' ->
  exists r, EPiCAssembly.calculate_flows a period = Ok r /\
            a' = EPiCAssembly.set_recalculated_flows a r.
Proof.
  unfold recalculate.
  destruct (EPiCAssembly.calculate_flows a period) as [r |]; cbn [bind]; [| discriminate].
  intros [= <-]. exists r. split; reflexivity.
Qed.

Lemma recalculated_set (period : option Z) (a : EPiCAssembly.t) (r : value) :
  EPiCAssembly.calculate_flows a period = Ok r ->
  recalculated (EPiCAssembly.set_recalculated_flows a r).
Proof.
  intros H. destruct (calculate_flows_group a period r H) as (G & _ & -> & Hnd & _).
  eexists _, G. split; [reflexivity | exact Hnd].
Qed.

(** The aggregation never raises on assemblies whose flows were
    recalculated. *)
Lemma sum_by_assembly_and_material_ok (l : list EPiCAssembly.t) (d : dict) :
  Forall recalculated l ->
  result_acc (VDict d) ->
  exists d', fold_m sum_one l (VDict d) = Ok (VDict d') /\ result_acc (VDict d').
Proof.
  intros Hl. revert d. induction Hl as [| a l (T & G & Ha & Hnd) Hl IH]; intros d Hd.
  - exists d. split; [reflexivity | exact Hd].
  - destruct (sum_one_spec a T G d Ha Hnd Hd) as (d1 & Hd1 & Hacc1 & _).
    cbn [fold_m]. rewrite Hd1. cbn [bind]. apply IH. exact Hacc1.
Qed.

Lemma init_assemblies (name : option string) (epic_inputs : list input)
  (period : option Z) :
  __init__ name epic_inputs period
  = (assemblies <- map_m (recalculate period) (input_assemblies epic_inputs) ;;
     flows <- sum_by_assembly_and_material assemblies ;;
     Ok {|
       component_type := "EPiCAnalysis";
       EPiCAnalysis.name :=
         match name with
         | Some n => if (n =? "")%string then "EPiCAnalysis"
                     else remove_commas_and_flatten_list_for_csv_export n
         | None => "EPiCAnalysis"
         end;
       period_of_analysis := period;
       epic_assemblies := assemblies;
       epic_materials :=
         flat_map (fun x => map (fun y => (fst y, nmul (snd y) (EPiCAssembly.total_units x)))
                              (EPiCAssembly.epic_materials x))
           (input_assemblies epic_inputs);
       flows := flows
     |}).
Proof. reflexivity. Qed.

(** When [calculate_flows] returns for every assembly, the constructor
    of [EPiCAnalysis] returns. *)
Lemma init_returns (name : option string) (epic_inputs : list input)
  (period : option Z) :
  (forall a, In a (input_assemblies epic_inputs) ->
     exists r, EPiCAssembly.calculate_flows a period = Ok r) ->
  exists an, __init__ name epic_inputs period = Ok an /\ result_acc (flows an).
Proof.
  intros Hall. rewrite init_assemblies.
  destruct (map_m_Forall2 (recalculate period)
              (fun a a' => exists r, EPiCAssembly.calculate_flows a period = Ok r /\
                                     a' = EPiCAssembly.set_recalculated_flows a r)
              (input_assemblies epic_inputs)) as (l' & -> & Hl').
  { intros a Ha. destruct (Hall a Ha) as (r & Hr).
    eexists. split; [exact (recalculate_ok _ _ _ Hr) |]. exists r. split; [exact Hr | reflexivity]. }
  cbn [bind].
  assert (Hrec : Forall recalculated l').
  { clear -Hl'. induction Hl' as [| a a' l l' (r & Hr & ->) _ IH]; constructor.
    - exact (recalculated_set _ _ _ Hr).
    - exact IH. }
  destruct (sum_by_assembly_and_material_ok l' [] Hrec result_acc_empty) as (d & Hd & Hacc).
  unfold sum_by_assembly_and_material. rewrite Hd. cbn [bind].
  eexists. split; [reflexivity | exact Hacc].
Qed.

(** *** Reading entries *)

Lemma entry_assembly_items (T : table) (G : group) (n : string) :
  entry (VDict (assembly_items T G)) n
  = match lookup n G with
    | Some x => Ok (VDict (entry_items (fst (fst x)) (snd (fst x)) (snd x) n))
    | None => Raise KeyError
    end.
Proof.
  unfold entry.
  change (getitem (VDict (assembly_items T G)) "by_material")
    with (Ok (A := value) (VDict (group_items G))).
  cbn [bind getitem]. rewrite lookup_group_items.
  destruct (lookup n G); reflexivity.
Qed.

Lemma entry_of_entry (d : dict) (n : string) (x : value) :
  entry_of d n = Some x -> entry (VDict d) n = Ok x.
Proof.
  unfold entry_of, entry, sub_lookup. cbn [getitem].
  destruct (lookup "by_material" d) as [[| | | | md] |]; try discriminate.
  cbn [bind getitem]. intros ->. reflexivity.
Qed.

Lemma sub_lookup_leaf (e : dict) (b f : string) (v : value) :
  sub_lookup (lookup b e) f = Some v -> leaf (VDict e) b f = Ok v.
Proof.
  unfold leaf, sub_lookup. cbn [getitem].
  destruct (lookup b e) as [[| | | | bd] |]; try discriminate.
  cbn [bind getitem]. intros ->. reflexivity.
Qed.

Lemma lookup_getitem (e : dict) (k : string) (v : value) :
  lookup k e = Some v -> getitem (VDict e) k = Ok v.
Proof. intros H. cbn [getitem]. rewrite H. reflexivity. Qed.

Lemma leaf_entry_items F q m n (b f : string) :
  In b BUCKETS -> In f DEFINED_FLOWS ->
  leaf (VDict (entry_items F q m n)) b f = Ok (VNum (F b f)).
Proof. apply leaf_flows_items. Qed.

Lemma nadd_zero_assoc (x y : num) : nadd (nadd (NInt 0) x) y = nadd x y.
Proof.
  destruct x as [a | a], y as [b | b]; cbn [nadd to_float]; try reflexivity;
    f_equal; unfold fadd; apply Qred_eq; rewrite ?Qred_correct; ring.
Qed.

(** *** Two assemblies in one analysis *)

(** An analysis of two assemblies for which [calculate_flows] returns:
    the constructor returns; under a material name that both have, the
    merged entry holds the sum of the two entries in every flow leaf,
    the material object of the second assembly, and as quantity the sum
    when the second quantity is a float and the second quantity itself
    when it is an int. *)
Lemma analysis_of_two (name : option string) (a1 a2 : EPiCAssembly.t)
  (period : option Z) (r1 r2 : value) :
  EPiCAssembly.calculate_flows a1 period = Ok r1 ->
  EPiCAssembly.calculate_flows a2 period = Ok r2 ->
  exists an,
    __init__ name [Assembly a1; Assembly a2] period = Ok an /\
    epic_assemblies an = [EPiCAssembly.set_recalculated_flows a1 r1;
                          EPiCAssembly.set_recalculated_flows a2 r2] /\
    sum_by_assembly_and_material (epic_assemblies an) = Ok (flows an) /\
    forall n e1 e2,
      entry r1 n = Ok e1 -> entry r2 n = Ok e2 ->
      exists e,
        entry (flows an) n = Ok e /\
        (forall b f, In b BUCKETS -> In f DEFINED_FLOWS ->
           exists x1 x2,
             leaf e1 b f = Ok (VNum x1) /\ leaf e2 b f = Ok (VNum x2) /\
             leaf e b f = Ok (VNum (nadd x1 x2))) /\
        getitem e "material_object" = getitem e2 "material_object" /\
        exists q1 q2,
          getitem e1 "quantity" = Ok (VNum q1) /\
          getitem e2 "quantity" = Ok (VNum q2) /\
          getitem e "quantity"
          = Ok (VNum (match q2 with NFloat _ => nadd q1 q2 | NInt _ => q2 end)).
Proof.
  intros H1 H2.
  destruct (calculate_flows_group a1 period r1 H1) as (G1 & _ & -> & Hnd1 & Hfl1).
  destruct (calculate_flows_group a2 period r2 H2) as (G2 & _ & -> & Hnd2 & Hfl2).
  set (T1 := table_of a1 period (EPiCAssembly.epic_materials a1) None) in *.
  set (T2 := table_of a2 period (EPiCAssembly.epic_materials a2) None) in *.
  rewrite init_assemblies.
  change (input_assemblies [Assembly a1; Assembly a2]) with [a1; a2].
  cbn [map_m]. rewrite (recalculate_ok _ _ _ H1), (recalculate_ok _ _ _ H2).
  cbn [bind]. unfold sum_by_assembly_and_material. cbn [fold_m].
  destruct (sum_one_spec (EPiCAssembly.set_recalculated_flows a1
                            (VDict (assembly_items T1 G1))) T1 G1 []
              eq_refl Hnd1 result_acc_empty)
    as (d1 & Hs1 & Hacc1 & _ & _ & Hat1).
  rewrite Hs1. cbn [bind].
  destruct (sum_one_spec (EPiCAssembly.set_recalculated_flows a2
                            (VDict (assembly_items T2 G2))) T2 G2 d1
              eq_refl Hnd2 Hacc1)
    as (d2 & Hs2 & Hacc2 & _ & _ & Hat2).
  rewrite Hs2.
  cbn [bind]. eexists. split; [reflexivity |]. split; [reflexivity |].
  split.
  { cbn [epic_assemblies flows]. unfold sum_by_assembly_and_material. cbn [fold_m].
    rewrite Hs1. cbn [bind]. rewrite Hs2. reflexivity. }
  cbn [flows]. intros n e1 e2. rewrite !entry_assembly_items.
  destruct (lookup n G1) as [[[F1 q1] o1] |] eqn:HG1; [| discriminate].
  destruct (lookup n G2) as [[[F2 q2] o2] |] eqn:HG2; [| discriminate].
  cbn [fst snd]. intros [= <-] [= <-].
  destruct (Hat1 n F1 q1 o1 HG1) as (x1 & Hx1 & Hleaf1 & _ & Hq1).
  destruct (Hat2 n F2 q2 o2 HG2) as (x2 & Hx2 & Hleaf2 & Hm2 & Hq2).
  rewrite Hx1 in Hleaf2, Hq2. unfold leaf_at in Hleaf2. cbn [sub_lookup] in Hleaf2, Hq2.
  exists (VDict x2). split; [exact (entry_of_entry _ _ _ Hx2) |].
  assert (HF1 : table_of_floats F1).
  { rewrite Forall_forall in Hfl1. exact (Hfl1 _ (lookup_In _ _ _ HG1)). }
  assert (HF2 : table_of_floats F2).
  { rewrite Forall_forall in Hfl2. exact (Hfl2 _ (lookup_In _ _ _ HG2)). }
  split; [| split].
  - intros b f Hb Hf. exists (F1 b f), (F2 b f).
    rewrite !leaf_entry_items by assumption.
    split; [reflexivity |]. split; [reflexivity |].
    apply sub_lookup_leaf. rewrite (Hleaf2 b f Hb Hf), (Hleaf1 b f Hb Hf).
    specialize (HF1 b f Hb Hf). specialize (HF2 b f Hb Hf).
    destruct (F1 b f) as [| c1]; [discriminate |].
    destruct (F2 b f) as [| c2]; [discriminate |].
    unfold acc_leaf. f_equal. f_equal. apply nadd_zero_assoc.
  - rewrite (lookup_getitem _ _ _ Hm2). reflexivity.
  - exists q1, q2. split; [reflexivity |]. split; [reflexivity |].
    rewrite (lookup_getitem _ _ _ Hq2), Hq1.
    destruct q2 as [z2 | c2]; [reflexivity |].
    unfold acc_leaf at 1. do 2 f_equal.
    destruct q1 as [z1 | c1]; cbn [acc_leaf]; [reflexivity |].
    apply nadd_zero_assoc.
Qed.

End Aggregator.

(** ** Materials of one name in two assemblies *)

Section AcrossAssemblies.

Import EPiCAnalysis.

(** Every material of an assembly has an entry under its name, whose
    material object carries the catalog identifier of the material. *)
Lemma entry_of_material (a : EPiCAssembly.t) (period : option Z) (r : value) m q :
  EPiCAssembly.calculate_flows a period = Ok r ->
  In (m, q) (EPiCAssembly.epic_materials a) ->
  exists e o,
    entry r (EPiCMaterial.name m) = Ok e /\
    getitem e "material_object" = Ok (VMat o) /\
    EPiCMaterial.material_id o = EPiCMaterial.material_id m.
Proof.
  intros Hr Hin.
  destruct (calculate_flows_group a period r Hr) as (G & Hfold & -> & _ & _).
  destruct (group_fold_objects a period _ [] G m q Hfold Hin) as (o & Ho & Hid).
  unfold stored_object in Ho.
  destruct (lookup (EPiCMaterial.name m) G) as [[[F q0] o0] |] eqn:HG; [| discriminate].
  cbn in Ho. injection Ho as ->.
  eexists _, o. rewrite entry_assembly_items, HG. cbn [fst snd].
  split; [reflexivity |]. split; [reflexivity | exact Hid].
Qed.

(** C10. Two assemblies in one analysis, each returning from
    [calculate_flows], with a material of the same name and different
    catalog identifiers: the constructor, and with it
    [sum_by_assembly_and_material], raises nothing; the entry of that name
    holds in every flow leaf the sum of the two assemblies' leaves; its
    material object is the one of the second assembly, whose identifier
    is not the first material's; and its quantity, when the second
    quantity is an int, is the second quantity alone. *)
Theorem same_name_across_assemblies_merges (name : option string)
  (a1 a2 : EPiCAssembly.t) (period : option Z) (r1 r2 : value) m1 q1 m2 q2 :
  EPiCAssembly.calculate_flows a1 period = Ok r1 ->
  EPiCAssembly.calculate_flows a2 period = Ok r2 ->
  In (m1, q1) (EPiCAssembly.epic_materials a1) ->
  In (m2, q2) (EPiCAssembly.epic_materials a2) ->
  EPiCMaterial.name m1 = EPiCMaterial.name m2 ->
  EPiCMaterial.material_id m1 <> EPiCMaterial.material_id m2 ->
  exists an e1 e2 e o1 o2,
    __init__ name [Assembly a1; Assembly a2] period = Ok an /\
    sum_by_assembly_and_material (epic_assemblies an) = Ok (flows an) /\
    entry r1 (EPiCMaterial.name m1) = Ok e1 /\
    entry r2 (EPiCMaterial.name m1) = Ok e2 /\
    entry (flows an) (EPiCMaterial.name m1) = Ok e /\
    (forall b f, In b BUCKETS -> In f DEFINED_FLOWS ->
       exists x1 x2,
         leaf e1 b f = Ok (VNum x1) /\ leaf e2 b f = Ok (VNum x2) /\
         leaf e b f = Ok (VNum (nadd x1 x2))) /\
    getitem e1 "material_object" = Ok (VMat o1) /\
    getitem e2 "material_object" = Ok (VMat o2) /\
    getitem e "material_object" = Ok (VMat o2) /\
    EPiCMaterial.material_id o1 = EPiCMaterial.material_id m1 /\
    EPiCMaterial.material_id o2 = EPiCMaterial.material_id m2 /\
    EPiCMaterial.material_id o2 <> EPiCMaterial.material_id o1 /\
    exists s1 s2,
      getitem e1 "quantity" = Ok (VNum s1) /\
      getitem e2 "quantity" = Ok (VNum s2) /\
      getitem e "quantity"
      = Ok (VNum (match s2 with NFloat _ => nadd s1 s2 | NInt _ => s2 end)).
Proof.
  intros H1 H2 Hin1 Hin2 Hname Hid.
  destruct (entry_of_material a1 period r1 m1 q1 H1 Hin1) as (e1 & o1 & He1 & Ho1 & Hid1).
  destruct (entry_of_material a2 period r2 m2 q2 H2 Hin2) as (e2 & o2 & He2 & Ho2 & Hid2).
  rewrite <- Hname in He2.
  destruct (analysis_of_two name a1 a2 period r1 r2 H1 H2)
    as (an & Hinit & _ & Hsum & Hmerge).
  destruct (Hmerge _ e1 e2 He1 He2) as (e & He & Hleaves & Hobj & Hquantity).
  exists an, e1, e2, e, o1, o2.
  repeat (split; [assumption |]).
  split; [rewrite Hobj; exact Ho2 |].
  repeat (split; [assumption |]).
  split; [| exact Hquantity].
  rewrite Hid1, Hid2. intros E. apply Hid. symmetry. exact E.
Qed.

Lemma same_name_across_assemblies_merges_witness :
  exists r1 r2,
    EPiCAssembly.calculate_flows Examples.beam (Some 50) = Ok r1 /\
    EPiCAssembly.calculate_flows Examples.column (Some 50) = Ok r2 /\
  exists an e1 e2 e o1 o2,
    __init__ (Some "Report") [Assembly Examples.beam; Assembly Examples.column] (Some 50)
    = Ok an /\
    sum_by_assembly_and_material (epic_assemblies an) = Ok (flows an) /\
    entry r1 "Steel" = Ok e1 /\
    entry r2 "Steel" = Ok e2 /\
    entry (flows an) "Steel" = Ok e /\
    (forall b f, In b BUCKETS -> In f DEFINED_FLOWS ->
       exists x1 x2,
         leaf e1 b f = Ok (VNum x1) /\ leaf e2 b f = Ok (VNum x2) /\
         leaf e b f = Ok (VNum (nadd x1 x2))) /\
    getitem e1 "material_object" = Ok (VMat o1) /\
    getitem e2 "material_object" = Ok (VMat o2) /\
    getitem e "material_object" = Ok (VMat o2) /\
    EPiCMaterial.material_id o1 = "m-steel" /\
    EPiCMaterial.material_id o2 = "m-steel-imported" /\
    EPiCMaterial.material_id o2 <> EPiCMaterial.material_id o1 /\
    exists s1 s2,
      getitem e1 "quantity" = Ok (VNum s1) /\
      getitem e2 "quantity" = Ok (VNum s2) /\
      getitem e "quantity"
      = Ok (VNum (match s2 with NFloat _ => nadd s1 s2 | NInt _ => s2 end)).
Proof.
  eexists. eexists.
  split; [vm_compute; reflexivity |]. split; [vm_compute; reflexivity |].
  apply (same_name_across_assemblies_merges (Some "Report") Examples.beam Examples.column
           (Some 50) _ _ Examples.steel (NInt 2) Examples.steel_imported (NInt 3)).
  - vm_compute. reflexivity.
  - vm_compute. reflexivity.
  - left. reflexivity.
  - right. left. reflexivity.
  - reflexivity.
  - discriminate.
Defined.

(** An assembly of one material: [calculate_flows] returns, and the
    entry of the material holds its table, quantity and object. *)
Lemma calculate_flows_single (a : EPiCAssembly.t) (period : option Z) m q :
  EPiCAssembly.epic_materials a = [(m, q)] ->
  exists r,
    EPiCAssembly.calculate_flows a period = Ok r /\
    entry r (EPiCMaterial.name m)
    = Ok (VDict (entry_items (table_of a period [(m, q)] None) q m (EPiCMaterial.name m))).
Proof.
  intros Hm. rewrite calculate_flows_refines, Hm.
  cbn [fold_m group_step lookup fst snd bind update].
  eexists. split; [reflexivity |].
  unfold flows_with_group.
  fold (assembly_items (table_of a period (EPiCAssembly.epic_materials a) None)
          [(EPiCMaterial.name m, (table_of a period [(m, q)] None, q, m))]).
  rewrite entry_assembly_items. cbn [lookup]. rewrite String.eqb_refl. reflexivity.
Qed.

(** Two assemblies of one material each, the materials having the same
    name: the flow leaves of the merged entry are the sums of the two
    assemblies' own; the merged quantity is the sum when the second
    quantity is a float, and the second quantity alone when it is an
    int. *)
Lemma one_material_each (name : option string) (a1 a2 : EPiCAssembly.t)
  (period : option Z) m1 q1 m2 q2 :
  EPiCAssembly.epic_materials a1 = [(m1, q1)] ->
  EPiCAssembly.epic_materials a2 = [(m2, q2)] ->
  EPiCMaterial.name m1 = EPiCMaterial.name m2 ->
  exists r1 r2 an e1 e2 e,
    EPiCAssembly.calculate_flows a1 period = Ok r1 /\
    EPiCAssembly.calculate_flows a2 period = Ok r2 /\
    __init__ name [Assembly a1; Assembly a2] period = Ok an /\
    entry r1 (EPiCMaterial.name m1) = Ok e1 /\
    entry r2 (EPiCMaterial.name m1) = Ok e2 /\
    entry (flows an) (EPiCMaterial.name m1) = Ok e /\
    (forall b f, In b BUCKETS -> In f DEFINED_FLOWS ->
       exists x1 x2,
         leaf e1 b f = Ok (VNum x1) /\ leaf e2 b f = Ok (VNum x2) /\
         leaf e b f = Ok (VNum (nadd x1 x2))) /\
    getitem e "quantity"
    = Ok (VNum (match q2 with NFloat _ => nadd q1 q2 | NInt _ => q2 end)).
Proof.
  intros Hm1 Hm2 Hname.
  destruct (calculate_flows_single a1 period m1 q1 Hm1) as (r1 & Hr1 & He1).
  destruct (calculate_flows_single a2 period m2 q2 Hm2) as (r2 & Hr2 & He2).
  rewrite <- Hname in He2.
  destruct (analysis_of_two name a1 a2 period r1 r2 Hr1 Hr2)
    as (an & Hinit & _ & _ & Hmerge).
  destruct (Hmerge _ _ _ He1 He2) as (e & He & Hleaves & _ & s1 & s2 & Hs1 & Hs2 & Hq).
  cbn in Hs1, Hs2. injection Hs1 as <-. injection Hs2 as <-.
  eexists r1, r2, an, _, _, e.
  repeat (split; [eassumption |]). exact Hq.
Qed.

(** C7, at the failing input and beside it. For every two assemblies of
    one material each, the materials having the same name and the same
    catalog identifier, aggregated in one analysis: the flow leaves of the
    merged entry are the sums of the two assemblies' own leaves; with the
    int quantities [2] and [3] the merged quantity is [3], with the float
    quantities [2.] and [3.] it is [5.]. *)
Theorem merged_quantity_two_and_three (name : option string)
  (a1 a2 : EPiCAssembly.t) (period : option Z) m1 q1 m2 q2 :
  EPiCAssembly.epic_materials a1 = [(m1, q1)] ->
  EPiCAssembly.epic_materials a2 = [(m2, q2)] ->
  EPiCMaterial.name m1 = EPiCMaterial.name m2 ->
  EPiCMaterial.material_id m1 = EPiCMaterial.material_id m2 ->
  exists r1 r2 an e1 e2 e,
    EPiCAssembly.calculate_flows a1 period = Ok r1 /\
    EPiCAssembly.calculate_flows a2 period = Ok r2 /\
    __init__ name [Assembly a1; Assembly a2] period = Ok an /\
    entry r1 (EPiCMaterial.name m1) = Ok e1 /\
    entry r2 (EPiCMaterial.name m1) = Ok e2 /\
    entry (flows an) (EPiCMaterial.name m1) = Ok e /\
    (forall b f, In b BUCKETS -> In f DEFINED_FLOWS ->
       exists x1 x2,
         leaf e1 b f = Ok (VNum x1) /\ leaf e2 b f = Ok (VNum x2) /\
         leaf e b f = Ok (VNum (nadd x1 x2))) /\
    (q1 = NInt 2 -> q2 = NInt 3 -> getitem e "quantity" = Ok (VNum (NInt 3))) /\
    (q1 = NFloat 2%Q -> q2 = NFloat 3%Q -> getitem e "quantity" = Ok (VNum (NFloat 5%Q))).
Proof.
  intros Hm1 Hm2 Hname _.
  destruct (one_material_each name a1 a2 period m1 q1 m2 q2 Hm1 Hm2 Hname)
    as (r1 & r2 & an & e1 & e2 & e & H1 & H2 & H3 & H4 & H5 & H6 & H7 & Hq).
  exists r1, r2, an, e1, e2, e.
  repeat (split; [assumption |]).
  split; intros -> ->; exact Hq.
Qed.

End AcrossAssemblies.

Section AcrossAssembliesExamples.

Import EPiCAnalysis.

Lemma merged_quantity_two_and_three_witness :
  exists r1 r2 an e1 e2 e,
    EPiCAssembly.calculate_flows Examples.panel_two (Some 100) = Ok r1 /\
    EPiCAssembly.calculate_flows Examples.panel_three (Some 100) = Ok r2 /\
    __init__ (Some "Report") [Assembly Examples.panel_two; Assembly Examples.panel_three]
      (Some 100) = Ok an /\
    entry r1 "Steel" = Ok e1 /\
    entry r2 "Steel" = Ok e2 /\
    entry (flows an) "Steel" = Ok e /\
    (forall b f, In b BUCKETS -> In f DEFINED_FLOWS ->
       exists x1 x2,
         leaf e1 b f = Ok (VNum x1) /\ leaf e2 b f = Ok (VNum x2) /\
         leaf e b f = Ok (VNum (nadd x1 x2))) /\
    getitem e "quantity" = Ok (VNum (NInt 3)).
Proof.
  destruct (merged_quantity_two_and_three (Some "Report")
              Examples.panel_two Examples.panel_three (Some 100)
              Examples.steel (NInt 2) Examples.steel (NInt 3)
              eq_refl eq_refl eq_refl eq_refl)
    as (r1 & r2 & an & e1 & e2 & e & H1 & H2 & H3 & H4 & H5 & H6 & H7 & Hint & _).
  exists r1, r2, an, e1, e2, e.
  repeat (split; [assumption |]).
  exact (Hint eq_refl eq_refl).
Defined.

(** The same input through the constructors, evaluated: the quantity of
    the merged entry is the int [3]. *)
Lemma int_quantities_evaluated :
  (a1 <- EPiCAssembly.__init__ (Some "Panel A") None None (NInt 1)
           [(Examples.steel, NInt 2)] (Some "Panels") ;;
   a2 <- EPiCAssembly.__init__ (Some "Panel B") None None (NInt 1)
           [(Examples.steel, NInt 3)] (Some "Panels") ;;
   an <- __init__ (Some "Report") [Assembly a1; Assembly a2] (Some 100) ;;
   e <- entry (flows an) "Steel" ;;
   getitem e "quantity")
  = Ok (VNum (NInt 3)).
Proof. vm_compute. reflexivity. Qed.

End AcrossAssembliesExamples.

(** ** Built assets *)

Section BuiltAssets.

Import EPiCAnalysis.

(** A built asset is the analysis that the constructor of
    [EPiCAnalysis] builds from the same arguments, period included, with
    the field [period_of_analysis] then set to [0]. *)
Lemma built_asset_is_analysis (name : option string) (epic_inputs : list input)
  (period : option Z) (asset : t) :
  EPiCBuiltAsset.__init__ name epic_inputs period = Ok asset ->
  period_of_analysis asset = Some 0 /\
  component_type asset = "EPiCBuiltAsset" /\
  exists an,
    __init__ name epic_inputs period = Ok an /\
    flows asset = flows an /\
    epic_assemblies asset = epic_assemblies an.
Proof.
  unfold EPiCBuiltAsset.__init__.
  destruct (__init__ name epic_inputs period) as [an |]; cbn [bind]; [| discriminate].
  intros [= <-]. cbn. split; [reflexivity |]. split; [reflexivity |].
  exists an. repeat split.
Qed.

(** C8, at a failing input. A built asset made as the Built Asset
    component makes it (the period of analysis left to its default of
    [100]) from one assembly of one unit holding 2 kg of a steel with a
    service life of 10 years: the field [period_of_analysis] is [0], yet
    the recurrent energy of the aggregated flows, and of the assembly's
    [recalculated_flows], is [198.], not [0]. *)
Theorem built_asset_default_period_recurrent :
  exists a asset a',
    EPiCAssembly.__init__ (Some "Beam") None None (NInt 1)
      [(Examples.steel, NInt 2)] None = Ok a /\
    EPiCBuiltAsset.RunScript (Some "Shed") [Assembly a] = Ok asset /\
    period_of_analysis asset = Some 0 /\
    leaf (flows asset) "recurrent" "energy" = Ok (VNum (NFloat 198%Q)) /\
    leaf (flows asset) "recurrent_wastage" "energy" = Ok (VNum (NFloat 18%Q)) /\
    epic_assemblies asset = [a'] /\
    leaf (EPiCAssembly.recalculated_flows a') "recurrent" "energy"
    = Ok (VNum (NFloat 198%Q)).
Proof.
  eexists. eexists. eexists.
  split; [vm_compute; reflexivity |].
  split; [vm_compute; reflexivity |].
  split; [reflexivity |].
  split; [vm_compute; reflexivity |].
  split; [vm_compute; reflexivity |].
  split; [reflexivity |].
  vm_compute. reflexivity.
Qed.

End BuiltAssets.

(** ** Any number of assemblies *)

Section ManyAssemblies.

Import EPiCAnalysis.

Lemma acc_leaves_cons (old : option value) (x : num) (xs : list num) :
  acc_leaves old (x :: xs) = acc_leaves (Some (acc_leaf old x)) xs.
Proof. reflexivity. Qed.

Lemma last_or_nil {A : Type} (l : list A) :
  l = [] \/ exists ys y, l = (ys ++ [y])%list.
Proof.
  destruct l as [| x l]; [left; reflexivity | right].
  destruct (exists_last (l := x :: l)) as (ys & y & H); [discriminate |].
  exists ys, y. exact H.
Qed.

Lemma named_cons (n : string) (ag : described) (ags : list described) :
  named n (ag :: ags)
  = (match lookup n (snd (snd ag)) with Some y => [y] | None => [] end
     ++ named n ags)%list.
Proof. reflexivity. Qed.

(** The loop of [sum_by_assembly_and_material] over any list of
    assemblies: it ends normally, and the entry of each material name
    holds, leaf by leaf, what the assemblies that have the name
    accumulated in order, with the material object of the last of
    them. *)
Lemma fold_sum_one_spec (ags : list described) :
  Forall well_described ags ->
  forall d, result_acc (VDict d) ->
  exists d',
    fold_m sum_one (map fst ags) (VDict d) = Ok (VDict d') /\
    result_acc (VDict d') /\
    forall n,
      (named n ags = [] -> entry_of d' n = entry_of d n) /\
      (forall ys y, named n ags = (ys ++ [y])%list ->
         exists e',
           entry_of d' n = Some (VDict e') /\
           (forall b f, In b BUCKETS -> In f DEFINED_FLOWS ->
              sub_lookup (lookup b e') f
              = acc_leaves (leaf_at (entry_of d n) b f)
                  (map (fun z => fst (fst z) b f) (ys ++ [y]))) /\
           lookup "material_object" e' = Some (VMat (snd y))).
Proof.
  intros Hags. induction Hags as [| [a [T G]] ags [Ha Hnd] Hags IH]; intros d Hd.
  - exists d. split; [reflexivity |]. split; [exact Hd |].
    intros n. split; [reflexivity |].
    intros ys y Hys. destruct ys; discriminate.
  - cbn [fst snd] in Ha, Hnd.
    destruct (sum_one_spec a T G d Ha Hnd Hd) as (d1 & Hd1 & Hacc1 & _ & Hkeep1 & Hat1).
    destruct (IH d1 Hacc1) as (d' & Hd' & Hacc' & Hrest).
    exists d'. cbn [map fst fold_m]. rewrite Hd1. cbn [bind].
    split; [exact Hd' |]. split; [exact Hacc' |].
    intros n. destruct (Hrest n) as (Hnone & Hsome).
    rewrite named_cons. cbn [fst snd].
    destruct (lookup n G) as [[[F q] m] |] eqn:HG; cbn [app].
    + split; [discriminate |].
      destruct (Hat1 n F q m HG) as (e1 & He1 & Hleaf1 & Hm1 & _).
      intros ys y Hys.
      destruct (last_or_nil (named n ags)) as [Hnil | (ys' & y' & Hlast)].
      * rewrite Hnil in Hys.
        assert (ys = [] /\ y = (F, q, m)) as [-> ->].
        { destruct ys as [| ? ys]; [injection Hys as <-; split; reflexivity |].
          destruct ys; discriminate. }
        exists e1. rewrite (Hnone Hnil). split; [exact He1 |]. split; [| exact Hm1].
        intros b f Hb Hf. rewrite (Hleaf1 b f Hb Hf). reflexivity.
      * rewrite Hlast in Hys.
        assert (ys = ((F, q, m) :: ys')%list /\ y = y') as [-> ->].
        { change ((F, q, m) :: ys' ++ [y'])%list with (((F, q, m) :: ys') ++ [y'])%list in Hys.
          apply app_inj_tail in Hys. destruct Hys as [<- <-]. split; reflexivity. }
        destruct (Hsome ys' y' Hlast) as (e' & He' & Hleaf' & Hm').
        exists e'. split; [exact He' |]. split; [| exact Hm'].
        intros b f Hb Hf. rewrite (Hleaf' b f Hb Hf).
        cbn [app map]. rewrite acc_leaves_cons. f_equal.
        unfold leaf_at. rewrite He1. cbn [sub_lookup]. exact (Hleaf1 b f Hb Hf).
    + rewrite <- (Hkeep1 n HG). split; [exact Hnone |].
      intros ys y Hys. destruct (Hsome ys y Hys) as (e' & He' & Hleaf' & Hm').
      exists e'. split; [exact He' |]. split; [| exact Hm'].
      intros b f Hb Hf. rewrite (Hleaf' b f Hb Hf). reflexivity.
Qed.

End ManyAssemblies.

Section AggregationByName.

Import EPiCAnalysis.

Lemma acc_leaves_from (o : num) (xs : list num) :
  Forall (fun x => is_float x = true) xs ->
  acc_leaves (Some (VNum o)) xs = Some (VNum (fold_left nadd xs o)).
Proof.
  intros Hxs. revert o. induction Hxs as [| x xs Hx Hxs IH]; intros o; [reflexivity |].
  rewrite acc_leaves_cons. cbn [fold_left].
  destruct x as [| c]; [discriminate |]. cbn [acc_leaf]. apply IH.
Qed.

Lemma acc_leaves_floats (xs : list num) :
  xs <> [] -> Forall (fun x => is_float x = true) xs ->
  acc_leaves None xs = Some (VNum (nsum xs)).
Proof.
  intros Hne Hxs. destruct Hxs as [| x xs Hx Hxs]; [contradiction |].
  rewrite acc_leaves_cons. unfold nsum. cbn [fold_left].
  destruct x as [| c]; [discriminate |]. cbn [acc_leaf].
  apply acc_leaves_from. exact Hxs.
Qed.

(** The assemblies for which [calculate_flows] returned, with the
    shape of what it returned. *)
Lemma describe (period : option Z) (l : list EPiCAssembly.t) (rs : list value) :
  Forall2 (fun a r => EPiCAssembly.calculate_flows a period = Ok r) l rs ->
  exists ags : list described,
    map_m (recalculate period) l = Ok (map fst ags) /\
    Forall well_described ags /\
    rs = map (fun ag => VDict (assembly_items (fst (snd ag)) (snd (snd ag)))) ags /\
    Forall (fun ag => Forall (fun x => table_of_floats (fst (fst (snd x))))
                        (snd (snd ag))) ags.
Proof.
  intros H. induction H as [| a r l rs Hr _ (ags & Hmap & Hwd & -> & Hfl)].
  - exists []. repeat split; constructor.
  - destruct (calculate_flows_group a period r Hr) as (G & _ & -> & Hnd & HflG).
    exists ((EPiCAssembly.set_recalculated_flows a
               (VDict (assembly_items
                         (table_of a period (EPiCAssembly.epic_materials a) None) G)),
             (table_of a period (EPiCAssembly.epic_materials a) None, G)) :: ags).
    cbn [map fst snd map_m]. rewrite (recalculate_ok _ _ _ Hr), Hmap. cbn [bind].
    split; [reflexivity |]. split; [| split; [reflexivity |]].
    + constructor; [| exact Hwd]. split; [reflexivity | exact Hnd].
    + constructor; [exact HflG | exact Hfl].
Qed.

Lemma entries_named_described (ags : list described) (n : string) :
  entries_named
    (map (fun ag => VDict (assembly_items (fst (snd ag)) (snd (snd ag)))) ags) n
  = map (fun y => VDict (entry_items (fst (fst y)) (snd (fst y)) (snd y) n))
      (named n ags).
Proof.
  induction ags as [| [a [T G]] ags IH]; [reflexivity |].
  unfold entries_named in *. cbn [map flat_map fst snd]. rewrite named_cons.
  cbn [fst snd]. rewrite map_app, IH, entry_assembly_items.
  destruct (lookup n G); reflexivity.
Qed.

Lemma named_floats (ags : list described) (n : string) :
  Forall (fun ag => Forall (fun x => table_of_floats (fst (fst (snd x))))
                      (snd (snd ag))) ags ->
  Forall (fun y => table_of_floats (fst (fst y))) (named n ags).
Proof.
  intros H. induction H as [| [a [T G]] ags HG _ IH]; [constructor |].
  rewrite named_cons. cbn [fst snd] in *. apply Forall_app. split; [| exact IH].
  destruct (lookup n G) as [y |] eqn:Hy; constructor; [| constructor].
  rewrite Forall_forall in HG. exact (HG _ (lookup_In _ _ _ Hy)).
Qed.

(** An analysis over any inputs for whose assemblies [calculate_flows]
    returns: the constructor returns, and under every material name the
    merged entry holds in each flow leaf the sum of the leaves of the
    assemblies that have the name, and the material object of the last of
    them. *)
Lemma aggregation_by_name (name : option string) (epic_inputs : list input)
  (period : option Z) (rs : list value) :
  Forall2 (fun a r => EPiCAssembly.calculate_flows a period = Ok r)
    (input_assemblies epic_inputs) rs ->
  exists an,
    __init__ name epic_inputs period = Ok an /\
    sum_by_assembly_and_material (epic_assemblies an) = Ok (flows an) /\
    forall n es e_last,
      entries_named rs n = (es ++ [e_last])%list ->
      exists e,
        entry (flows an) n = Ok e /\
        (forall b f, In b BUCKETS -> In f DEFINED_FLOWS ->
           exists xs,
             Forall2 (fun e' x => leaf e' b f = Ok (VNum x)) (es ++ [e_last]) xs /\
             leaf e b f = Ok (VNum (nsum xs))) /\
        getitem e "material_object" = getitem e_last "material_object".
Proof.
  intros Hrs.
  destruct (describe period _ rs Hrs) as (ags & Hmap & Hwd & -> & Hfl).
  destruct (fold_sum_one_spec ags Hwd [] result_acc_empty) as (d & Hd & _ & Hnames).
  rewrite init_assemblies, Hmap. cbn [bind].
  unfold sum_by_assembly_and_material at 1. rewrite Hd. cbn [bind].
  eexists. split; [reflexivity |]. cbn [epic_assemblies flows].
  split; [exact Hd |].
  intros n es e_last Hes. rewrite entries_named_described in Hes.
  apply map_eq_app in Hes. destruct Hes as (ys & tail & Hnamed & <- & Htail).
  destruct tail as [| y [| ? ?]]; try discriminate.
  cbn [map] in Htail. injection Htail as <-.
  destruct (Hnames n) as (_ & Hsome).
  destruct (Hsome ys y Hnamed) as (e' & He' & Hleaf & Hm).
  exists (VDict e'). split; [exact (entry_of_entry _ _ _ He') |]. split.
  - intros b f Hb Hf.
    exists (map (fun z => fst (fst z) b f) (ys ++ [y])). split.
    + change [VDict (entry_items (fst (fst y)) (snd (fst y)) (snd y) n)]
        with (map (fun y0 : table * num * EPiCMaterial.t =>
                     VDict (entry_items (fst (fst y0)) (snd (fst y0)) (snd y0) n)) [y]).
      rewrite <- map_app.
      generalize (ys ++ [y])%list as zs. clear -Hb Hf.
      induction zs as [| z zs IH]; cbn [map]; constructor; [| exact IH].
      apply leaf_entry_items; assumption.
    + apply sub_lookup_leaf. rewrite (Hleaf b f Hb Hf).
      unfold leaf_at, entry_of. cbn [lookup sub_lookup].
      apply acc_leaves_floats.
      * destruct ys; discriminate.
      * rewrite Forall_map. pose proof (named_floats ags n Hfl) as Hall.
        rewrite Hnamed in Hall. revert Hall. apply Forall_impl.
        intros z Hz. exact (Hz b f Hb Hf).
  - rewrite (lookup_getitem _ _ _ Hm). reflexivity.
Qed.

End AggregationByName.

(** ** Without a period of analysis there are no recurrent flows *)

Section NoPeriod.

Import EPiCAnalysis.

Lemma flow_value_period_zero (self : EPiCAssembly.t) ml flow wastage_only quantity :
  is_zero (flow_value self ml flow wastage_only (Some 0) quantity).
Proof.
  unfold flow_value, EPiCAssembly._calculate_flows.
  destruct (EPiCAssembly.initial_result self ml flow wastage_only quantity);
    reflexivity.
Qed.

Lemma recurrent_buckets_incl (b : string) : In b RECURRENT_BUCKETS -> In b BUCKETS.
Proof. intros [<- | [<- | []]]; cbn; auto 7. Qed.

Lemma table_of_without_recurrent (self : EPiCAssembly.t) period ml quantity :
  no_period period -> table_without_recurrent (table_of self period ml quantity).
Proof.
  intros Hp b f Hb _.
  assert (Hrec : recurrent_period period = Some 0) by (destruct Hp as [-> | ->]; reflexivity).
  destruct Hb as [<- | [<- | []]]; cbn; rewrite Hrec; apply flow_value_period_zero.
Qed.

Lemma tadd_without_recurrent (F G : table) :
  table_without_recurrent F -> table_without_recurrent G ->
  table_without_recurrent (tadd F G).
Proof.
  intros HF HG b f Hb Hf. apply is_zero_nadd; [apply HF | apply HG]; assumption.
Qed.

Lemma flows_items_no_recurrent (F : table) (rest : dict) :
  table_without_recurrent F -> no_recurrent (VDict (flows_items F ++ rest)).
Proof.
  intros HF b f Hb Hf. exists (F b f). split.
  - apply leaf_flows_items; [apply recurrent_buckets_incl; exact Hb | exact Hf].
  - apply HF; assumption.
Qed.

(** An assembly recalculated without a period has no recurrent flow, at
    the top level and in every entry of [by_material]. *)
Lemma calculate_flows_no_recurrent (a : EPiCAssembly.t) (period : option Z) (r : value) :
  no_period period ->
  EPiCAssembly.calculate_flows a period = Ok r ->
  no_recurrent r /\
  exists by_material,
    getitem r "by_material" = Ok (VDict by_material) /\
    forall n e, In (n, e) by_material -> no_recurrent e.
Proof.
  intros Hp. rewrite calculate_flows_refines.
  destruct (fold_m (group_step a period) (EPiCAssembly.epic_materials a) [])
    as [G |] eqn:Hfold; cbn [bind]; [| discriminate].
  intros [= <-]. unfold flows_with_group. split.
  - apply flows_items_no_recurrent. apply table_of_without_recurrent. exact Hp.
  - exists (group_items G). split; [reflexivity |].
    intros n e Hin.
    destruct (In_group_items _ _ _ Hin) as (F & q & m & HinG & ->).
    apply flows_items_no_recurrent.
    pose proof (group_fold_tables a period table_without_recurrent
                  tadd_without_recurrent
                  (fun mq => table_of_without_recurrent a period [mq] None Hp)
                  _ [] G (Forall_nil _) Hfold) as HG.
    rewrite Forall_forall in HG. exact (HG _ HinG).
Qed.

Lemma acc_leaf_zero (old : option value) (x : num) :
  (forall v, old = Some v -> exists z, v = VNum z /\ is_zero z) ->
  is_zero x ->
  exists z, acc_leaf old x = VNum z /\ is_zero z.
Proof.
  intros Hold Hx. destruct x as [i | c]; cbn [acc_leaf].
  - eexists. split; [reflexivity | exact Hx].
  - eexists. split; [reflexivity |]. apply is_zero_nadd; [| exact Hx].
    destruct old as [v |]; [| reflexivity].
    destruct (Hold v eq_refl) as (z & -> & Hz). exact Hz.
Qed.

(** Aggregating assemblies that have no recurrent flow leaves every
    recurrent leaf of the result at zero. *)
Lemma fold_sum_one_no_recurrent (ags : list described) :
  Forall well_described ags ->
  Forall (fun ag => table_without_recurrent (fst (snd ag))) ags ->
  forall d, result_acc (VDict d) -> recurrent_leaves_zero d ->
  exists d',
    fold_m sum_one (map fst ags) (VDict d) = Ok (VDict d') /\
    recurrent_leaves_zero d'.
Proof.
  intros Hags. induction Hags as [| [a [T G]] ags [Ha Hnd] Hags IH];
    intros Hzero d Hd Hinv.
  - exists d. split; [reflexivity | exact Hinv].
  - inversion Hzero as [| ? ? HT Hzero']; subst. cbn [fst snd] in Ha, Hnd, HT.
    destruct (sum_one_spec a T G d Ha Hnd Hd) as (d1 & Hd1 & Hacc1 & Hleaf1 & _).
    destruct (IH Hzero' d1 Hacc1) as (d' & Hd' & Hinv').
    + intros b f x Hb Hf Hx.
      rewrite (Hleaf1 b f (recurrent_buckets_incl b Hb) Hf) in Hx. injection Hx as <-.
      apply acc_leaf_zero; [| exact (HT b f Hb Hf)].
      intros v Hv. exact (Hinv b f v Hb Hf Hv).
    + exists d'. cbn [map fst fold_m]. rewrite Hd1. cbn [bind].
      split; [exact Hd' | exact Hinv'].
Qed.

Lemma describe_no_recurrent (period : option Z) (l : list EPiCAssembly.t) :
  no_period period ->
  forall l', map_m (recalculate period) l = Ok l' ->
  exists ags : list described,
    l' = map fst ags /\
    Forall well_described ags /\
    Forall (fun ag => table_without_recurrent (fst (snd ag))) ags /\
    Forall (fun a => no_recurrent (EPiCAssembly.recalculated_flows a)) l'.
Proof.
  intros Hp. induction l as [| a l IH]; intros l'; cbn [map_m].
  - intros [= <-]. exists []. repeat split; constructor.
  - destruct (recalculate period a) as [a' |] eqn:Ha; cbn [bind]; [| discriminate].
    destruct (map_m (recalculate period) l) as [l0 |]; cbn [bind]; [| discriminate].
    intros [= <-].
    destruct (IH l0 eq_refl) as (ags & -> & Hwd & Hzero & Hrec).
    destruct (recalculate_inv _ _ _ Ha) as (r & Hr & ->).
    destruct (calculate_flows_no_recurrent a period r Hp Hr) as (Hnr & _).
    destruct (calculate_flows_group a period r Hr) as (G & _ & -> & Hnd & _).
    exists ((EPiCAssembly.set_recalculated_flows a
               (VDict (assembly_items
                         (table_of a period (EPiCAssembly.epic_materials a) None) G)),
             (table_of a period (EPiCAssembly.epic_materials a) None, G)) :: ags).
    split; [reflexivity |]. split; [| split].
    + constructor; [| exact Hwd]. split; [reflexivity | exact Hnd].
    + constructor; [| exact Hzero]. cbn [fst snd].
      apply table_of_without_recurrent. exact Hp.
    + constructor; [exact Hnr | exact Hrec].
Qed.

(** A built asset constructed with no period, or with a period of [0],
    has no recurrent flow: in the [recalculated_flows] of each of its
    assemblies, and in every recurrent leaf of its aggregated flows. *)
Lemma built_asset_without_period (name : option string) (epic_inputs : list input)
  (period : option Z) (asset : t) :
  no_period period ->
  EPiCBuiltAsset.__init__ name epic_inputs period = Ok asset ->
  Forall (fun a => no_recurrent (EPiCAssembly.recalculated_flows a))
    (epic_assemblies asset) /\
  exists d, flows asset = VDict d /\ recurrent_leaves_zero d.
Proof.
  intros Hp. unfold EPiCBuiltAsset.__init__. rewrite init_assemblies.
  destruct (map_m (recalculate period) (input_assemblies epic_inputs)) as [l' |] eqn:Hl';
    cbn [bind]; [| discriminate].
  destruct (describe_no_recurrent period _ Hp l' Hl') as (ags & -> & Hwd & Hzero & Hrec).
  destruct (fold_sum_one_no_recurrent ags Hwd Hzero [] result_acc_empty)
    as (d & Hd & Hinv).
  { intros b f x _ _ Hx. destruct b; discriminate. }
  unfold sum_by_assembly_and_material. rewrite Hd. cbn [bind].
  intros [= <-]. cbn [epic_assemblies flows].
  split; [exact Hrec |]. exists d. split; [reflexivity | exact Hinv].
Qed.

End NoPeriod.

(** * Further properties *)

(** Evaluate the computation [c] and name its result. *)
Tactic Notation "run" constr(c) "as" ident(r) ident(E) :=
  let H := fresh in
  assert (H : {r' | c = Ok r'}) by (eexists; vm_compute; reflexivity);
  destruct H as [r E].

(** ** The replacement scheduler in closed form *)

Section Scheduler.

Lemma replacements_closed_form (period service_life : Z) :
  1 <= service_life -> 1 <= period ->
  _get_num_replacements period (Some service_life)
  = Ok ((period - 1) / service_life).
Proof.
  intros Hs Hp. unfold _get_num_replacements.
  destruct (service_life >=? period) eqn:Hge.
  - apply Z.geb_le in Hge. f_equal. symmetry. apply Z.div_small. lia.
  - rewrite Z.geb_leb in Hge. apply Z.leb_gt in Hge.
    destruct (service_life =? 0) eqn:H0; [apply Z.eqb_eq in H0; lia |].
    pose proof (Z.div_mod period service_life ltac:(lia)) as Hdm.
    pose proof (Z.mod_pos_bound period service_life ltac:(lia)) as Hb.
    destruct (period mod service_life =? 0) eqn:Hm; f_equal.
    + apply Z.eqb_eq in Hm.
      apply (Z.div_unique_pos _ _ _ (service_life - 1)); nia.
    + apply Z.eqb_neq in Hm.
      apply (Z.div_unique_pos _ _ _ (period mod service_life - 1)); nia.
Qed.

(** X1. For a service life and a period of at least one year, the number of
    replacements is [(period - 1) // service_life]: one replacement each
    time a service life ends strictly before the end of the period. *)
Theorem num_replacements_closed_form (period service_life : Z) :
  1 <= service_life -> 1 <= period ->
  _get_num_replacements period (Some service_life)
  = Ok ((period - 1) / service_life).
Proof. apply replacements_closed_form. Qed.

Lemma num_replacements_closed_form_witness :
  _get_num_replacements 100 (Some 10) = Ok ((100 - 1) / 10).
Proof. apply num_replacements_closed_form; lia. Defined.

(** X2. The number of replacements is never negative, and it does not
    decrease when the period gets longer or the service life shorter. *)
Theorem num_replacements_monotone (period period' service_life service_life' : Z) :
  1 <= service_life' -> service_life' <= service_life ->
  1 <= period -> period <= period' ->
  exists n n',
    _get_num_replacements period (Some service_life) = Ok n /\
    _get_num_replacements period' (Some service_life') = Ok n' /\
    0 <= n <= n'.
Proof.
  intros Hs' Hs Hp Hp'.
  exists ((period - 1) / service_life), ((period' - 1) / service_life').
  rewrite !replacements_closed_form by lia.
  split; [reflexivity |]. split; [reflexivity |]. split.
  - apply Z.div_pos; lia.
  - transitivity ((period' - 1) / service_life).
    + apply Z.div_le_mono; lia.
    + apply Z.div_le_compat_l; lia.
Qed.

Lemma num_replacements_monotone_witness :
  exists n n',
    _get_num_replacements 50 (Some 20) = Ok n /\
    _get_num_replacements 100 (Some 10) = Ok n' /\
    0 <= n <= n'.
Proof. apply num_replacements_monotone; lia. Defined.

End Scheduler.

(** ** Number of instances over the years *)

Section Instances.

Variable service_life : Z.
Hypothesis service_life_positive : 1 <= service_life.

Lemma firstn_seq_min (n start len : nat) :
  firstn n (seq start len) = seq start (Nat.min n len).
Proof.
  revert start len. induction n as [| n IH]; intros start [| len]; cbn; try reflexivity.
  rewrite IH. reflexivity.
Qed.

Lemma instances_after_length init years j :
  List.length (instances_after service_life init years j) = years.
Proof. unfold instances_after. rewrite length_map, length_seq. reflexivity. Qed.

Lemma instances_step (init : Z) (years j : nat) :
  let k := Z.of_nat (S j) * service_life in
  set_slice_from k (instances_after service_life init years j)
    (map (fun num_instances => num_instances + 1)
       (slice_from k (instances_after service_life init years j)))
  = instances_after service_life init years (S j).
Proof.
  intros k. unfold set_slice_from, slice_from.
  rewrite instances_after_length.
  assert (Hk : 0 < k) by (unfold k; nia).
  set (c := slice_bound k years).
  assert (Hc : c = Z.to_nat (Z.min k (Z.of_nat years))).
  { unfold c, slice_bound. destruct (k <? 0) eqn:E; [apply Z.ltb_lt in E; lia |].
    reflexivity. }
  assert (Hle : (c <= years)%nat) by lia.
  unfold instances_after.
  rewrite firstn_map, skipn_map, firstn_seq_min, skipn_seq, map_map.
  replace (Nat.min c years) with c by lia.
  replace (seq 0 years) with (seq 0 c ++ seq c (years - c))%list
    by (rewrite <- seq_app; f_equal; lia).
  rewrite map_app. f_equal; apply map_ext_in; intros y Hy; apply in_seq in Hy.
  - assert (Z.of_nat y / service_life < Z.of_nat (S j)).
    { apply Z.div_lt_upper_bound; lia. }
    lia.
  - assert (Z.of_nat (S j) <= Z.of_nat y / service_life).
    { apply Z.div_le_lower_bound; lia. }
    lia.
Qed.

Lemma instances_fold (init : Z) (years m : nat) :
  forall j,
    fold_m (fun acc replacement =>
              Ok (set_slice_from (replacement * service_life) acc
                    (map (fun num_instances => num_instances + 1)
                       (slice_from (replacement * service_life) acc))))
      (map (fun i => 1 + Z.of_nat i) (seq j m)) (instances_after service_life init years j)
    = Ok (instances_after service_life init years (j + m)).
Proof.
  induction m as [| m IH]; intros j; cbn [seq map fold_m bind].
  - rewrite Nat.add_0_r. reflexivity.
  - replace (1 + Z.of_nat j) with (Z.of_nat (S j)) by lia.
    rewrite instances_step, IH. do 2 f_equal. lia.
Qed.

Lemma instances_initial (init : Z) (years : nat) :
  repeat init years = instances_after service_life init years 0.
Proof.
  unfold instances_after.
  rewrite (map_ext_in _ (fun _ => init)).
  - generalize 0%nat. induction years as [| n IH]; intros s; cbn; [| rewrite <- IH];
      reflexivity.
  - intros y _. assert (0 <= Z.of_nat y / service_life) by (apply Z.div_pos; lia). lia.
Qed.

Lemma accumulated_instances (period : Z) (include_initial : bool) :
  _get_accumulated_number_of_instances period (Some service_life) include_initial
  = Ok (map (fun year =>
               (if include_initial then 1 else 0) + Z.of_nat year / service_life)
          (seq 0 (Z.to_nat period))).
Proof.
  unfold _get_accumulated_number_of_instances.
  set (init := if include_initial then 1 else 0).
  replace (if include_initial then repeat 1 (Z.to_nat period)
           else repeat 0 (Z.to_nat period))
    with (repeat init (Z.to_nat period)) by (unfold init; destruct include_initial; reflexivity).
  destruct (Z.le_gt_cases period 0) as [Hp | Hp].
  - replace (Z.to_nat period) with 0%nat by lia.
    unfold _get_num_replacements.
    replace (service_life >=? period) with true by (symmetry; apply Z.geb_le; lia).
    reflexivity.
  - rewrite replacements_closed_form by lia. cbn [bind].
    set (n := (period - 1) / service_life).
    assert (Hn : 0 <= n) by (apply Z.div_pos; lia).
    assert (Hfinal : instances_after service_life init (Z.to_nat period) (Z.to_nat n)
                     = map (fun year => init + Z.of_nat year / service_life)
                         (seq 0 (Z.to_nat period))).
    { unfold instances_after. apply map_ext_in. intros y Hy. apply in_seq in Hy.
      assert (Z.of_nat y / service_life <= n).
      { unfold n. apply Z.div_le_mono; lia. }
      lia. }
    destruct (n =? 0) eqn:E.
    + apply Z.eqb_eq in E. rewrite <- Hfinal, E. f_equal. apply instances_initial.
    + unfold range. replace (n + 1 - 1) with n by lia.
      rewrite instances_initial.
      rewrite (instances_fold init (Z.to_nat period) (Z.to_nat n) 0).
      rewrite Nat.add_0_l, Hfinal. reflexivity.
Qed.

End Instances.

(** X3. With a service life of at least one year, the list has one entry per
    year of the period, and year [y] (counted from 0) holds
    [y // service_life] replacements on top of the initial installation
    (if it is included). *)
Theorem accumulated_instances_closed_form (period service_life : Z)
  (include_initial : bool) :
  1 <= service_life ->
  _get_accumulated_number_of_instances period (Some service_life) include_initial
  = Ok (map (fun year =>
               (if include_initial then 1 else 0) + Z.of_nat year / service_life)
          (seq 0 (Z.to_nat period))).
Proof. intros H. apply accumulated_instances. exact H. Qed.

Lemma accumulated_instances_closed_form_witness :
  _get_accumulated_number_of_instances 7 (Some 3) true = Ok [1; 1; 1; 2; 2; 2; 3].
Proof. apply (accumulated_instances_closed_form 7 3 true). lia. Defined.

Lemma fold_slices_nil (service_life : Z) (l : list Z) :
  fold_m (fun acc replacement =>
            Ok (set_slice_from (replacement * service_life) acc
                  (map (fun num_instances => num_instances + 1)
                     (slice_from (replacement * service_life) acc))))
    l [] = Ok [].
Proof.
  induction l as [| r l IH]; cbn [fold_m bind]; [reflexivity |].
  unfold set_slice_from, slice_from.
  rewrite firstn_nil, skipn_nil. exact IH.
Qed.

(** X4. Outside the intended range: a negative service life counts no
    replacement at all; a service life of [0] gives the empty list for a
    period that is not positive and raises [ZeroDivisionError] otherwise;
    no service life raises [TypeError]. *)
Theorem accumulated_instances_edge_cases (period : Z) (include_initial : bool) :
  (forall service_life, service_life <= -1 ->
     _get_accumulated_number_of_instances period (Some service_life) include_initial
     = Ok (repeat (if include_initial then 1 else 0) (Z.to_nat period))) /\
  _get_accumulated_number_of_instances period (Some 0) include_initial
  = (if period <=? 0 then Ok [] else Raise ZeroDivisionError) /\
  _get_accumulated_number_of_instances period None include_initial = Raise TypeError.
Proof.
  split; [| split].
  - intros sl Hsl. unfold _get_accumulated_number_of_instances.
    replace (if include_initial then repeat 1 (Z.to_nat period)
             else repeat 0 (Z.to_nat period))
      with (repeat (if include_initial then 1 else 0) (Z.to_nat period))
      by (destruct include_initial; reflexivity).
    destruct (Z.le_gt_cases period 0) as [Hp | Hp].
    + replace (Z.to_nat period) with 0%nat by lia. cbn [repeat].
      destruct (_get_num_replacements period (Some sl)) as [n |] eqn:E; cbn [bind].
      * destruct (n =? 0); [reflexivity |]. apply fold_slices_nil.
      * unfold _get_num_replacements in E.
        destruct (sl >=? period); [discriminate |].
        destruct (sl =? 0) eqn:E0; [apply Z.eqb_eq in E0; lia |].
        destruct (period mod sl =? 0); discriminate.
    + unfold _get_num_replacements.
      destruct (sl >=? period) eqn:Hge; [apply Z.geb_le in Hge; lia |].
      destruct (sl =? 0) eqn:E0; [apply Z.eqb_eq in E0; lia |].
      assert (Hq : period / sl <= -1).
      { pose proof (Z.div_mod period sl ltac:(lia)) as Hdm.
        pose proof (Z.mod_neg_bound period sl ltac:(lia)) as Hb.
        nia. }
      destruct (period mod sl =? 0); cbn [bind].
      * destruct (period / sl - 1 =? 0) eqn:E; [apply Z.eqb_eq in E; lia |].
        unfold range. replace (Z.to_nat (period / sl - 1 + 1 - 1)) with 0%nat by lia.
        reflexivity.
      * destruct (period / sl =? 0) eqn:E; [apply Z.eqb_eq in E; lia |].
        unfold range. replace (Z.to_nat (period / sl + 1 - 1)) with 0%nat by lia.
        reflexivity.
  - unfold _get_accumulated_number_of_instances, _get_num_replacements.
    destruct (0 >=? period) eqn:Hge.
    + apply Z.geb_le in Hge. replace (period <=? 0) with true by (symmetry; apply Z.leb_le; lia).
      replace (Z.to_nat period) with 0%nat by lia. destruct include_initial; reflexivity.
    + rewrite Z.geb_leb in Hge. rewrite Hge. reflexivity.
  - reflexivity.
Qed.

Lemma accumulated_instances_edge_cases_witness :
  _get_accumulated_number_of_instances 3 (Some (-2)) true = Ok [1; 1; 1] /\
  _get_accumulated_number_of_instances 3 (Some 0) true = Raise ZeroDivisionError /\
  _get_accumulated_number_of_instances 3 None true = Raise TypeError.
Proof.
  destruct (accumulated_instances_edge_cases 3 true) as (Hneg & Hzero & Hnone).
  split; [apply (Hneg (-2)); lia | split; [exact Hzero | exact Hnone]].
Defined.

(** ** Text for the reports *)

Section Text.

Lemma has_char_replace_commas (text : string) :
  has_char ","%char (replace_commas text) = false.
Proof.
  induction text as [| c rest IH]; cbn; [reflexivity |].
  rewrite IH, orb_false_r.
  destruct (Ascii.eqb c ","%char) eqn:E; [reflexivity | exact E].
Qed.

Lemma has_char_replace_spaces_other (c : ascii) (text : string) :
  c <> "_"%char -> has_char c text = false ->
  has_char c (replace_spaces text) = false.
Proof.
  intros Hc. induction text as [| c' rest IH]; cbn; [reflexivity |].
  intros H. apply orb_false_iff in H. destruct H as [H1 H2].
  rewrite (IH H2), orb_false_r.
  destruct (Ascii.eqb c' " "%char); [| exact H1].
  apply Ascii.eqb_neq. congruence.
Qed.

Lemma has_char_replace_spaces (text : string) :
  has_char " "%char (replace_spaces text) = false.
Proof.
  induction text as [| c rest IH]; cbn; [reflexivity |].
  rewrite IH, orb_false_r.
  destruct (Ascii.eqb c " "%char) eqn:E; [reflexivity | exact E].
Qed.

Lemma has_char_substring (c : ascii) (text : string) (n : nat) :
  has_char c text = false -> has_char c (substring 0 n text) = false.
Proof.
  revert n. induction text as [| c' rest IH]; intros [| n]; cbn; try reflexivity.
  intros H. apply orb_false_iff in H. destruct H as [H1 H2].
  rewrite H1, (IH n H2). reflexivity.
Qed.

Lemma length_substring_le (text : string) (n : nat) :
  (String.length (substring 0 n text) <= n)%nat.
Proof.
  revert n. induction text as [| c rest IH]; intros [| n]; cbn; try lia.
  specialize (IH n). lia.
Qed.

Lemma replace_commas_clean (text : string) :
  has_char ","%char text = false -> replace_commas text = text.
Proof.
  induction text as [| c rest IH]; cbn; [reflexivity |].
  intros H. apply orb_false_iff in H. destruct H as [H1 H2].
  rewrite H1, (IH H2). reflexivity.
Qed.

Lemma replace_spaces_clean (text : string) :
  has_char " "%char text = false -> replace_spaces text = text.
Proof.
  induction text as [| c rest IH]; cbn; [reflexivity |].
  intros H. apply orb_false_iff in H. destruct H as [H1 H2].
  rewrite H1, (IH H2). reflexivity.
Qed.

Lemma substring_short (text : string) (n : nat) :
  (String.length text <= n)%nat -> substring 0 n text = text.
Proof.
  revert n. induction text as [| c rest IH]; intros [| n]; cbn; try reflexivity; try lia.
  intros H. rewrite IH by lia. reflexivity.
Qed.

Lemma csv_text_clean (text_inputs : Csv.text) (list_separator : string)
  (remove_spaces limit_characters : bool) :
  (forall v, text_inputs <> Csv.TextOther v) ->
  exists flat_text,
    Csv.remove_commas_and_flatten_list_for_csv_export text_inputs list_separator
      remove_spaces limit_characters = Csv.TextStr flat_text /\
    has_char ","%char flat_text = false /\
    (remove_spaces = true -> has_char " "%char flat_text = false) /\
    (limit_characters = true -> (String.length flat_text <= 50)%nat).
Proof.
  intros Hin.
  assert (Hgen : forall s,
            let t := if remove_spaces then replace_spaces (replace_commas s)
                     else replace_commas s in
            let u := if limit_characters then substring 0 50 t else t in
            has_char ","%char u = false /\
            (remove_spaces = true -> has_char " "%char u = false) /\
            (limit_characters = true -> (String.length u <= 50)%nat)).
  { intros s t u.
    assert (Ht : has_char ","%char t = false).
    { unfold t. destruct remove_spaces; [| apply has_char_replace_commas].
      apply has_char_replace_spaces_other; [discriminate | apply has_char_replace_commas]. }
    assert (Ht' : remove_spaces = true -> has_char " "%char t = false).
    { intros ->. apply has_char_replace_spaces. }
    unfold u. destruct limit_characters.
    - split; [apply has_char_substring, Ht |].
      split; [intros E; apply has_char_substring, Ht', E |].
      intros _. apply length_substring_le.
    - split; [exact Ht |]. split; [exact Ht' | discriminate]. }
  destruct text_inputs as [items | s | v].
  - eexists. split; [reflexivity |]. apply Hgen.
  - eexists. split; [reflexivity |]. apply Hgen.
  - exfalso. exact (Hin v eq_refl).
Qed.

(** On a single string with the default flags the function is the one
    the constructors use. *)
Lemma csv_text_default (s : string) :
  Csv.remove_commas_and_flatten_list_for_csv_export (Csv.TextStr s) " | " false false
  = Csv.TextStr (remove_commas_and_flatten_list_for_csv_export s).
Proof. reflexivity. Qed.

End Text.

(** X5. The text returned for a string or a list of strings holds no comma
    (not even one that came with the separator); with [remove_spaces] it
    holds no space either, and with [limit_characters] it has at most 50
    characters. *)
Theorem csv_text_has_no_comma (text_inputs : Csv.text) (list_separator : string)
  (remove_spaces limit_characters : bool) :
  (forall v, text_inputs <> Csv.TextOther v) ->
  exists flat_text,
    Csv.remove_commas_and_flatten_list_for_csv_export text_inputs list_separator
      remove_spaces limit_characters = Csv.TextStr flat_text /\
    has_char ","%char flat_text = false /\
    (remove_spaces = true -> has_char " "%char flat_text = false) /\
    (limit_characters = true -> (String.length flat_text <= 50)%nat).
Proof. apply csv_text_clean. Qed.

Lemma csv_text_has_no_comma_witness :
  exists flat_text,
    Csv.remove_commas_and_flatten_list_for_csv_export
      (Csv.TextList ["Wall, north"; "level 2"]) ", " true true
    = Csv.TextStr flat_text /\
    has_char ","%char flat_text = false /\
    (true = true -> has_char " "%char flat_text = false) /\
    (true = true -> (String.length flat_text <= 50)%nat).
Proof. apply csv_text_has_no_comma. discriminate. Defined.

(** X6. Cleaning a text twice with the same flags changes nothing more. *)
Theorem csv_text_idempotent (text_inputs : Csv.text) (sep sep' : string)
  (remove_spaces limit_characters : bool) :
  Csv.remove_commas_and_flatten_list_for_csv_export
    (Csv.remove_commas_and_flatten_list_for_csv_export text_inputs sep
       remove_spaces limit_characters)
    sep' remove_spaces limit_characters
  = Csv.remove_commas_and_flatten_list_for_csv_export text_inputs sep
      remove_spaces limit_characters.
Proof.
  destruct text_inputs as [items | s | v]; [| | reflexivity].
  - destruct (csv_text_clean (Csv.TextList items) sep remove_spaces limit_characters)
      as (t & -> & Hc & Hs & Hl); [discriminate |].
    cbn. rewrite (replace_commas_clean t Hc).
    destruct remove_spaces; [rewrite (replace_spaces_clean t (Hs eq_refl)) |];
      destruct limit_characters; try reflexivity;
      rewrite (substring_short t 50 (Hl eq_refl)); reflexivity.
  - destruct (csv_text_clean (Csv.TextStr s) sep remove_spaces limit_characters)
      as (t & -> & Hc & Hs & Hl); [discriminate |].
    cbn. rewrite (replace_commas_clean t Hc).
    destruct remove_spaces; [rewrite (replace_spaces_clean t (Hs eq_refl)) |];
      destruct limit_characters; try reflexivity;
      rewrite (substring_short t 50 (Hl eq_refl)); reflexivity.
Qed.

(** ** Material names with their functional unit *)

Section MaterialNames.

Lemma find_char_has_char (c : ascii) (s : string) :
  find_char c s = None <-> has_char c s = false.
Proof.
  induction s as [| c' rest IH]; cbn; [tauto |].
  destruct (Ascii.eqb c' c); cbn.
  - split; discriminate.
  - destruct (find_char c rest); cbn.
    + split; [discriminate |]. intros H. apply IH in H. discriminate.
    + split; [| reflexivity]. intros _. apply IH. reflexivity.
Qed.

Lemma concatenate_cons (c : ascii) (mat_name functional_unit : string) :
  _concatenate_mat_name_func_unit (String c mat_name) functional_unit
  = String c (_concatenate_mat_name_func_unit mat_name functional_unit).
Proof. reflexivity. Qed.

Lemma find_bar_concatenate (mat_name functional_unit : string) :
  has_char "|"%char mat_name = false ->
  find_char "|"%char (_concatenate_mat_name_func_unit mat_name functional_unit)
  = Some (S (String.length mat_name)).
Proof.
  induction mat_name as [| c rest IH]; intros H.
  - reflexivity.
  - cbn [has_char] in H. apply orb_false_iff in H. destruct H as [H1 H2].
    rewrite concatenate_cons. cbn [find_char String.length].
    rewrite H1, (IH H2). reflexivity.
Qed.

Lemma length_concatenate (mat_name functional_unit : string) :
  (String.length mat_name
   <= String.length (_concatenate_mat_name_func_unit mat_name functional_unit))%nat.
Proof.
  induction mat_name as [| c rest IH]; [apply Nat.le_0_l |].
  rewrite concatenate_cons. cbn [String.length]. lia.
Qed.

Lemma substring_concatenate (mat_name functional_unit : string) :
  substring 0 (String.length mat_name)
    (_concatenate_mat_name_func_unit mat_name functional_unit) = mat_name.
Proof.
  induction mat_name as [| c rest IH].
  - reflexivity.
  - rewrite concatenate_cons. cbn [String.length substring]. rewrite IH. reflexivity.
Qed.

Lemma remove_after_concatenate (mat_name functional_unit : string) :
  has_char "|"%char mat_name = false ->
  remove_func_unit_from_mat_name
    (_concatenate_mat_name_func_unit mat_name functional_unit) = Ok mat_name.
Proof.
  intros H. unfold remove_func_unit_from_mat_name, str_index.
  rewrite (find_bar_concatenate mat_name functional_unit H). cbn [bind].
  unfold str_slice_to, slice_bound.
  pose proof (length_concatenate mat_name functional_unit) as Hlen.
  replace (Z.of_nat (S (String.length mat_name)) - 1)
    with (Z.of_nat (String.length mat_name)) by lia.
  destruct (Z.of_nat (String.length mat_name) <? 0) eqn:E;
    [apply Z.ltb_lt in E; lia |].
  rewrite Z.min_l by lia. rewrite Nat2Z.id.
  rewrite substring_concatenate. reflexivity.
Qed.

End MaterialNames.

(** X7. Stripping the functional unit from a decorated name gives the
    material name back, for every name without a bar and every
    functional unit. *)
Theorem material_name_round_trip (mat_name functional_unit : string) :
  has_char "|"%char mat_name = false ->
  remove_func_unit_from_mat_name
    (_concatenate_mat_name_func_unit mat_name functional_unit) = Ok mat_name.
Proof. apply remove_after_concatenate. Qed.

Lemma material_name_round_trip_witness :
  remove_func_unit_from_mat_name
    (_concatenate_mat_name_func_unit "Hot rolled steel" "kg") = Ok "Hot rolled steel".
Proof. apply material_name_round_trip. reflexivity. Defined.

(** X8. [remove_func_unit_from_mat_name] raises [ValueError] exactly on the
    names that hold no bar; there is no other error. *)
Theorem undecorated_name_raises (mat_name_and_func_unit : string) :
  (has_char "|"%char mat_name_and_func_unit = false <->
   remove_func_unit_from_mat_name mat_name_and_func_unit = Raise ValueError) /\
  (has_char "|"%char mat_name_and_func_unit = true <->
   exists mat_name,
     remove_func_unit_from_mat_name mat_name_and_func_unit = Ok mat_name).
Proof.
  unfold remove_func_unit_from_mat_name, str_index.
  pose proof (find_char_has_char "|"%char mat_name_and_func_unit) as H.
  destruct (find_char "|"%char mat_name_and_func_unit) as [i |]; cbn [bind].
  - assert (Hb : has_char "|"%char mat_name_and_func_unit = true).
    { destruct (has_char "|"%char mat_name_and_func_unit); [reflexivity |].
      destruct H as [_ H]. discriminate (H eq_refl). }
    rewrite Hb. split; split; try discriminate.
    + intros _. eexists. reflexivity.
    + reflexivity.
  - destruct H as [H _]. rewrite (H eq_refl).
    split; split; try reflexivity; try discriminate.
    intros [x Hx]. discriminate.
Qed.

Lemma undecorated_name_raises_witness :
  remove_func_unit_from_mat_name "Hot rolled steel" = Raise ValueError.
Proof.
  apply (proj1 (proj1 (undecorated_name_raises "Hot rolled steel"))). reflexivity.
Defined.

(** ** Functional units *)

Section FunctionalUnits.






End FunctionalUnits.



(** ** The dictionary merge *)

Section DictionaryMerge.

Lemma sum_numerical_as_fold (dict_1 : value) (items : dict) :
  sum_numerical_dictionary_values dict_1 (VDict items)
  = fold_m sum_numerical_step items dict_1.
Proof.
  cbn [sum_numerical_dictionary_values].
  revert dict_1. induction items as [| [key v] rest IH]; intros dict_1.
  - reflexivity.
  - change (fold_m sum_numerical_step ((key, v) :: rest) dict_1)
      with (acc <- sum_numerical_step dict_1 (key, v) ;;
            fold_m sum_numerical_step rest acc).
    unfold sum_numerical_step at 1. cbn [fst snd].
    match goal with
    | |- bind ?M _ = bind _ _ => destruct M; cbn [bind]; [apply IH | reflexivity]
    end.
Qed.

Lemma keys_update_present {A : Type} (k : string) (x v : A) (d : list (string * A)) :
  lookup k d = Some x -> map fst (update k v d) = map fst d.
Proof.
  induction d as [| [k' v'] rest IH]; cbn; [discriminate |].
  destruct (k' =? k)%string; cbn; [reflexivity |].
  intros H. rewrite (IH H). reflexivity.
Qed.

Lemma lookup_keys {A : Type} (k : string) (x : A) (d : list (string * A)) :
  lookup k d = Some x -> In k (map fst d).
Proof.
  induction d as [| [k' v'] rest IH]; cbn; [discriminate |].
  destruct (k' =? k)%string eqn:E.
  - apply String.eqb_eq in E. intros _. left. exact E.
  - intros H. right. exact (IH H).
Qed.

(** What one iteration does to the dictionary: nothing for a value that
    is not merged; for one that is, the key is there and gets a new
    value. *)
Lemma sum_numerical_step_inv (d : dict) (key : string) (v r : value) :
  sum_numerical_step (VDict d) (key, v) = Ok r ->
  (is_summed v = false /\ r = VDict d) \/
  (is_summed v = true /\
   exists old new,
     lookup key d = Some old /\ r = VDict (update key new d) /\
     (forall y, v = VNum y -> py_add old v = Ok new)).
Proof.
  unfold sum_numerical_step. cbn [fst snd].
  destruct v as [| y | s | m | items]; try (intros [= <-]; left; split; reflexivity).
  - unfold getitem. destruct (lookup key d) as [old |] eqn:Hold; cbn [bind]; [| discriminate].
    destruct (py_add old (VNum y)) as [new |] eqn:Hnew; cbn [bind setitem]; [| discriminate].
    intros [= <-]. right. split; [reflexivity |].
    exists old, new. split; [reflexivity |]. split; [reflexivity |].
    intros y' [= <-]. exact Hnew.
  - unfold getitem. destruct (lookup key d) as [old |] eqn:Hold; cbn [bind]; [| discriminate].
    destruct (sum_numerical_dictionary_values old (VDict items)) as [new |];
      cbn [bind setitem]; [| discriminate].
    intros [= <-]. right. split; [reflexivity |].
    exists old, new. split; [reflexivity |]. split; [reflexivity |]. discriminate.
Qed.

Lemma sum_numerical_fold_keys (items : dict) :
  forall (d : dict) (r : value),
    fold_m sum_numerical_step items (VDict d) = Ok r ->
    exists d3,
      r = VDict d3 /\
      map fst d3 = map fst d /\
      (forall k v, In (k, v) items -> is_summed v = true -> In k (map fst d)) /\
      (forall k, (forall v, In (k, v) items -> is_summed v = false) ->
                 lookup k d3 = lookup k d).
Proof.
  induction items as [| [key v] rest IH]; intros d r; cbn [fold_m].
  - intros [= <-]. exists d. repeat split; try reflexivity. intros k v [].
  - destruct (sum_numerical_step (VDict d) (key, v)) as [r1 |] eqn:Hstep;
      cbn [bind]; [| discriminate].
    intros Hrest.
    destruct (sum_numerical_step_inv d key v r1 Hstep)
      as [[Hv ->] | [Hv (old & new & Hold & -> & _)]].
    + destruct (IH d r Hrest) as (d3 & -> & Hkeys & Hin & Hframe).
      exists d3. split; [reflexivity |]. split; [exact Hkeys |]. split.
      * intros k v' [[= <- <-] | Hin'] Hs; [congruence | exact (Hin k v' Hin' Hs)].
      * intros k Hk. apply Hframe. intros v' Hin'. apply Hk. right. exact Hin'.
    + destruct (IH _ r Hrest) as (d3 & -> & Hkeys & Hin & Hframe).
      rewrite (keys_update_present key old new d Hold) in Hkeys, Hin.
      exists d3. split; [reflexivity |]. split; [exact Hkeys |]. split.
      * intros k v' [[= <- <-] | Hin'] Hs;
          [exact (lookup_keys key old d Hold) | exact (Hin k v' Hin' Hs)].
      * intros k Hk. rewrite Hframe.
        -- apply lookup_update_other. intros <-.
           specialize (Hk v (or_introl eq_refl)). congruence.
        -- intros v' Hin'. apply Hk. right. exact Hin'.
Qed.

Lemma sum_numerical_fold_frame (items : dict) (k : string) :
  ~ In k (map fst items) ->
  forall (d : dict) (r : value),
    fold_m sum_numerical_step items (VDict d) = Ok r ->
    exists d3, r = VDict d3 /\ lookup k d3 = lookup k d.
Proof.
  intros Hk d r H.
  destruct (sum_numerical_fold_keys items d r H) as (d3 & -> & _ & _ & Hframe).
  exists d3. split; [reflexivity |]. apply Hframe.
  intros v Hin. exfalso. apply Hk. apply (in_map fst) in Hin. exact Hin.
Qed.

Lemma sum_numerical_fold_adds (items : dict) (k : string) (y : num) :
  NoDup (map fst items) ->
  In (k, VNum y) items ->
  forall (d : dict) (r : value) (x : num),
    lookup k d = Some (VNum x) ->
    fold_m sum_numerical_step items (VDict d) = Ok r ->
    exists d3, r = VDict d3 /\ lookup k d3 = Some (VNum (nadd x y)).
Proof.
  induction items as [| [key v] rest IH]; intros Hnd Hin d r x Hx; [destruct Hin |].
  cbn [map fst] in Hnd. inversion Hnd as [| ? ? Hnotin Hnd']; subst.
  cbn [fold_m].
  destruct (sum_numerical_step (VDict d) (key, v)) as [r1 |] eqn:Hstep;
    cbn [bind]; [| discriminate].
  intros Hrest. destruct Hin as [[= -> ->] | Hin].
  - destruct (sum_numerical_step_inv d k (VNum y) r1 Hstep)
      as [[Hv _] | [_ (old & new & Hold & -> & Hadd)]]; [discriminate |].
    rewrite Hx in Hold. injection Hold as <-.
    specialize (Hadd y eq_refl). cbn [py_add] in Hadd. injection Hadd as <-.
    destruct (sum_numerical_fold_frame rest k Hnotin _ r Hrest) as (d3 & -> & Hd3).
    exists d3. split; [reflexivity |]. rewrite Hd3. apply lookup_update_same.
  - assert (Hne : key <> k).
    { intros ->. apply Hnotin. apply (in_map fst) in Hin. exact Hin. }
    destruct (sum_numerical_step_inv d key v r1 Hstep)
      as [[_ ->] | [_ (old & new & _ & -> & _)]].
    + exact (IH Hnd' Hin d r x Hx Hrest).
    + apply (IH Hnd' Hin (update key new d) r x); [| exact Hrest].
      rewrite lookup_update_other by exact Hne. exact Hx.
Qed.

End DictionaryMerge.

(** X10. When the merge returns, the result has the keys of [dict_1], in the
    order of [dict_1]: no key is added, and every key under which
    [dict_2] holds a number or a dictionary was a key of [dict_1]
    (otherwise the merge has raised). *)
Theorem merge_keeps_keys (dict_1 dict_2 : dict) (result : value) :
  sum_numerical_dictionary_values (VDict dict_1) (VDict dict_2) = Ok result ->
  exists dict_3,
    result = VDict dict_3 /\
    map fst dict_3 = map fst dict_1 /\
    forall key v, In (key, v) dict_2 -> is_summed v = true ->
                  In key (map fst dict_1).
Proof.
  rewrite sum_numerical_as_fold. intros H.
  destruct (sum_numerical_fold_keys dict_2 dict_1 result H) as (d3 & -> & Hk & Hin & _).
  exists d3. split; [reflexivity |]. split; [exact Hk | exact Hin].
Qed.

Lemma merge_keeps_keys_witness :
  exists dict_3,
    VDict [("energy", VNum (NInt 3)); ("name", VStr "a")] = VDict dict_3 /\
    map fst dict_3 = map fst [("energy", VNum (NInt 1)); ("name", VStr "a")] /\
    forall key v, In (key, v) [("energy", VNum (NInt 2)); ("name", VStr "b")] ->
                  is_summed v = true ->
                  In key (map fst [("energy", VNum (NInt 1)); ("name", VStr "a")]).
Proof.
  apply (merge_keeps_keys [("energy", VNum (NInt 1)); ("name", VStr "a")]
           [("energy", VNum (NInt 2)); ("name", VStr "b")]).
  reflexivity.
Defined.

(** X11. A number of [dict_2] is added to the number [dict_1] holds under the
    same key, ints as well as floats; what [dict_1] holds under a key
    that [dict_2] does not have, or has with a string, [None] or an
    object, stays as it is. *)
Theorem merge_adds_numbers (dict_1 dict_2 : dict) (result : value) :
  NoDup (map fst dict_2) ->
  sum_numerical_dictionary_values (VDict dict_1) (VDict dict_2) = Ok result ->
  exists dict_3,
    result = VDict dict_3 /\
    (forall key x y,
       lookup key dict_1 = Some (VNum x) -> In (key, VNum y) dict_2 ->
       lookup key dict_3 = Some (VNum (nadd x y))) /\
    (forall key,
       (forall v, In (key, v) dict_2 -> is_summed v = false) ->
       lookup key dict_3 = lookup key dict_1).
Proof.
  rewrite sum_numerical_as_fold. intros Hnd H.
  destruct (sum_numerical_fold_keys dict_2 dict_1 result H) as (d3 & -> & _ & _ & Hframe).
  exists d3. split; [reflexivity |]. split; [| exact Hframe].
  intros key x y Hx Hin.
  destruct (sum_numerical_fold_adds dict_2 key y Hnd Hin dict_1 _ x Hx H)
    as (d3' & [= <-] & Hd3).
  exact Hd3.
Qed.

Lemma merge_adds_numbers_witness :
  exists dict_3,
    VDict [("quantity", VNum (NInt 5)); ("material_name", VStr "Steel")] = VDict dict_3 /\
    (forall key x y,
       lookup key [("quantity", VNum (NInt 2)); ("material_name", VStr "Steel")]
       = Some (VNum x) ->
       In (key, VNum y) [("quantity", VNum (NInt 3)); ("material_name", VStr "Iron")] ->
       lookup key dict_3 = Some (VNum (nadd x y))) /\
    (forall key,
       (forall v, In (key, v) [("quantity", VNum (NInt 3)); ("material_name", VStr "Iron")] ->
                  is_summed v = false) ->
       lookup key dict_3
       = lookup key [("quantity", VNum (NInt 2)); ("material_name", VStr "Steel")]).
Proof.
  apply (merge_adds_numbers
           [("quantity", VNum (NInt 2)); ("material_name", VStr "Steel")]
           [("quantity", VNum (NInt 3)); ("material_name", VStr "Iron")]).
  - repeat constructor; cbn; intuition discriminate.
  - reflexivity.
Defined.

(** ** When [calculate_flows] returns *)

Section CalculateFlowsReturns.

Import EPiCAssembly.

Variable self : t.
Variable period : option Z.

Lemma stored_object_update (n k : string) F q o (G : group) :
  stored_object n (update k (F, q, o) G)
  = if (k =? n)%string then Some o else stored_object n G.
Proof.
  unfold stored_object. destruct (k =? n)%string eqn:E.
  - apply String.eqb_eq in E. subst. rewrite lookup_update_same. reflexivity.
  - apply String.eqb_neq in E. rewrite lookup_update_other by exact E. reflexivity.
Qed.

Lemma group_fold_returns (l : list (EPiCMaterial.t * num)) :
  forall G0 : group,
    consistent_ids l ->
    (forall n m0 m q, stored_object n G0 = Some m0 -> In (m, q) l ->
                      EPiCMaterial.name m = n ->
                      EPiCMaterial.material_id m0 = EPiCMaterial.material_id m) ->
    exists G, fold_m (group_step self period) l G0 = Ok G.
Proof.
  induction l as [| [m q] l IH]; intros G0 Hcons Hinv; cbn [fold_m].
  - exists G0. reflexivity.
  - assert (Hcons' : consistent_ids l).
    { intros m1 q1 m2 q2 H1 H2. apply (Hcons m1 q1 m2 q2); right; assumption. }
    unfold group_step at 1. cbn [fst snd].
    destruct (lookup (EPiCMaterial.name m) G0) as [[[F0 q0] first] |] eqn:HG.
    + assert (Hfirst : stored_object (EPiCMaterial.name m) G0 = Some first).
      { unfold stored_object. rewrite HG. reflexivity. }
      rewrite (Hinv _ first m q Hfirst (or_introl eq_refl) eq_refl).
      rewrite String.eqb_refl. cbn [bind].
      apply IH; [exact Hcons' |].
      intros n m0 m' q' Hst Hin Hname. rewrite stored_object_update in Hst.
      destruct (EPiCMaterial.name m =? n)%string eqn:E.
      * injection Hst as <-. apply String.eqb_eq in E.
        apply (Hinv (EPiCMaterial.name m) first m' q' Hfirst (or_intror Hin)).
        congruence.
      * apply (Hinv n m0 m' q' Hst (or_intror Hin) Hname).
    + cbn [bind]. apply IH; [exact Hcons' |].
      intros n m0 m' q' Hst Hin Hname. rewrite stored_object_update in Hst.
      destruct (EPiCMaterial.name m =? n)%string eqn:E.
      * injection Hst as <-. apply String.eqb_eq in E.
        apply (Hcons m q m' q' (or_introl eq_refl) (or_intror Hin)). congruence.
      * apply (Hinv n m0 m' q' Hst (or_intror Hin) Hname).
Qed.

Lemma calculate_flows_returns_iff :
  (consistent_ids (epic_materials self) <->
   exists result, calculate_flows self period = Ok result) /\
  (~ consistent_ids (epic_materials self) <->
   calculate_flows self period = Raise ValueError).
Proof.
  assert (Hok : consistent_ids (epic_materials self) ->
                exists result, calculate_flows self period = Ok result).
  { intros Hcons. rewrite calculate_flows_refines.
    destruct (group_fold_returns (epic_materials self) [] Hcons) as [G HG].
    - intros n m0 m q Hst. discriminate Hst.
    - rewrite HG. cbn [bind]. eexists. reflexivity. }
  assert (Hraise : forall r, calculate_flows self period = Ok r ->
                             consistent_ids (epic_materials self)).
  { intros r Hr m1 q1 m2 q2 H1 H2 Hname.
    destruct (String.eqb_spec (EPiCMaterial.material_id m1)
                (EPiCMaterial.material_id m2)) as [E | E]; [exact E |].
    exfalso. rewrite calculate_flows_refines in Hr.
    rewrite (group_fold_conflict self period _ [] m1 q1 m2 q2 H1 H2 Hname E) in Hr.
    discriminate Hr. }
  split; split.
  - exact Hok.
  - intros [r Hr]. exact (Hraise r Hr).
  - intros Hn.
    destruct (calculate_flows self period) as [r | e] eqn:E.
    + exfalso. exact (Hn (Hraise r eq_refl)).
    + rewrite calculate_flows_refines in E.
      destruct (fold_m (group_step self period) (epic_materials self) []) as [G | e']
        eqn:Hfold; cbn [bind] in E; [discriminate |].
      injection E as <-. f_equal. exact (group_fold_raises self period _ _ _ Hfold).
  - intros Hr Hcons. destruct (Hok Hcons) as [r Hr']. congruence.
Qed.

End CalculateFlowsReturns.

(** X12. [calculate_flows] returns exactly when the materials of one name all
    bear the same catalog identifier, and raises [ValueError] exactly
    when two of them do not; it has no other way to fail, whatever the
    period, the quantities and the service lives are. *)
Theorem calculate_flows_returns_or_raises (self : EPiCAssembly.t) (period : option Z) :
  (consistent_ids (EPiCAssembly.epic_materials self) <->
   exists result, EPiCAssembly.calculate_flows self period = Ok result) /\
  (~ consistent_ids (EPiCAssembly.epic_materials self) <->
   EPiCAssembly.calculate_flows self period = Raise ValueError).
Proof. apply calculate_flows_returns_iff. Qed.

Lemma calculate_flows_returns_or_raises_witness :
  exists result, EPiCAssembly.calculate_flows Examples.frame (Some 100) = Ok result.
Proof.
  apply (proj1 (proj1 (calculate_flows_returns_or_raises Examples.frame (Some 100)))).
  intros m1 q1 m2 q2 H1 H2 Hname.
  cbn in H1, H2.
  destruct H1 as [[= <- <-] | [[= <- <-] | [[= <- <-] | []]]];
    destruct H2 as [[= <- <-] | [[= <- <-] | [[= <- <-] | []]]];
    try reflexivity; discriminate Hname.
Defined.

(** ** Flows in closed form *)

Section ClosedForm.

Import EPiCAssembly.

Lemma qsum_nil {A : Type} (f : A -> Q) : qsum f [] = 0%Q.
Proof. reflexivity. Qed.

Lemma qsum_cons {A : Type} (f : A -> Q) (a : A) (l : list A) :
  qsum f (a :: l) = (f a + qsum f l)%Q.
Proof. reflexivity. Qed.

Lemma qsum_ext {A : Type} (f g : A -> Q) (l : list A) :
  (forall a, In a l -> (f a == g a)%Q) -> (qsum f l == qsum g l)%Q.
Proof.
  induction l as [| a l IH]; intros H; [reflexivity |].
  rewrite !qsum_cons, (H a (or_introl eq_refl)), IH; [reflexivity |].
  intros b Hb. apply H. right. exact Hb.
Qed.

Lemma qsum_app {A : Type} (f : A -> Q) (l1 l2 : list A) :
  (qsum f (l1 ++ l2) == qsum f l1 + qsum f l2)%Q.
Proof.
  induction l1 as [| a l1 IH]; cbn [app].
  - rewrite qsum_nil. ring.
  - rewrite !qsum_cons, IH. ring.
Qed.

Lemma qsum_scale {A : Type} (f : A -> Q) (c : Q) (l : list A) :
  (qsum (fun a => f a * c) l == qsum f l * c)%Q.
Proof.
  induction l as [| a l IH].
  - rewrite !qsum_nil. ring.
  - rewrite !qsum_cons, IH. ring.
Qed.



Lemma to_float_fold_nadd (l : list num) (a : num) :
  (to_float (fold_left nadd l a) == to_float a + qsum to_float l)%Q.
Proof.
  revert a. induction l as [| x l IH]; intros a; cbn [fold_left].
  - rewrite qsum_nil, Qplus_0_r. reflexivity.
  - rewrite qsum_cons, IH, to_float_nadd. symmetry. apply Qplus_assoc.
Qed.

Lemma to_float_nsum (l : list num) : (to_float (nsum l) == qsum to_float l)%Q.
Proof. unfold nsum. rewrite to_float_fold_nadd. cbn [to_float]. apply Qplus_0_l. Qed.

Lemma qsum_map {A B : Type} (g : A -> B) (f : B -> Q) (l : list A) :
  qsum f (map g l) = qsum (fun a => f (g a)) l.
Proof.
  induction l as [| a l IH]; cbn [map]; [reflexivity |].
  rewrite !qsum_cons, IH. reflexivity.
Qed.

Lemma to_float_nabs (x : num) : (to_float (nabs x) == Qabs (to_float x))%Q.
Proof.
  destruct x as [z | q]; cbn [nabs to_float].
  - reflexivity.
  - unfold fabs. apply Qred_correct.
Qed.

Variable self : t.

Lemma initial_result_map ml flow wastage_only quantity :
  In flow DEFINED_FLOWS ->
  initial_result self ml flow wastage_only quantity
  = Ok (map (embodied self flow wastage_only
               (match quantity with Some q => q | None => total_units self end)) ml).
Proof.
  intros Hflow. unfold initial_result, embodied.
  destruct (wastage_override self) as [o |]; [destruct (truthy o) |];
    apply map_m_total; intros m _;
    destruct (getattr_defined (fst m) flow Hflow) as [c ->]; reflexivity.
Qed.

Lemma to_float_embodied flow wastage_only mq :
  (to_float (embodied self flow wastage_only (total_units self) mq)
   == embodied_flow self flow wastage_only mq)%Q.
Proof.
  unfold embodied, embodied_flow, coefficient, wastage_fraction.
  rewrite !to_float_nmul, to_float_nabs.
  assert (Hfrac :
            (to_float
               (match wastage_override self with
                | Some override =>
                    if truthy override
                    then nadd (if wastage_only then NFloat 0 else NFloat 1) override
                    else (if wastage_only then NFloat 0 else NFloat 1)
                | None => nadd (if wastage_only then NFloat 0 else NFloat 1)
                            (EPiCMaterial.wastage (fst mq))
                end)
             == (if wastage_only then 0 else 1)
                + match wastage_override self with
                  | Some override => to_float override
                  | None => to_float (EPiCMaterial.wastage (fst mq))
                  end)%Q).
  { destruct (wastage_override self) as [o |].
    - destruct (truthy o) eqn:Ho.
      + rewrite to_float_nadd. destruct wastage_only; reflexivity.
      + unfold truthy in Ho. apply negb_false_iff in Ho.
        apply (proj1 (is_zero_iff o)) in Ho. rewrite Ho.
        destruct wastage_only; cbn [to_float]; ring.
    - rewrite to_float_nadd. destruct wastage_only; reflexivity. }
  rewrite Hfrac.
  destruct (EPiCMaterial.getattr (fst mq) flow); cbn [to_float]; reflexivity.
Qed.

(** The initial flows: the sum of the embodied flows of the materials. *)
Lemma flow_value_initial ml flow wastage_only :
  In flow DEFINED_FLOWS ->
  (to_float (flow_value self ml flow wastage_only None None)
   == qsum (embodied_flow self flow wastage_only) ml)%Q.
Proof.
  intros Hflow. unfold flow_value, _calculate_flows.
  rewrite (initial_result_map ml flow wastage_only None Hflow). cbn [bind].
  rewrite to_float_nsum, qsum_map. apply qsum_ext. intros mq _.
  apply to_float_embodied.
Qed.

(** A period that is negative leaves the list as it is. *)
Lemma flow_value_negative_period ml flow wastage_only (period : Z) :
  period < 0 ->
  flow_value self ml flow wastage_only (Some period) None
  = flow_value self ml flow wastage_only None None.
Proof.
  intros Hp. unfold flow_value, _calculate_flows.
  destruct (initial_result self ml flow wastage_only None); cbn [bind]; [| reflexivity].
  destruct (period =? 0) eqn:E0; [apply Z.eqb_eq in E0; lia |].
  destruct (period >? 0) eqn:E1; [rewrite Z.gtb_ltb in E1; apply Z.ltb_lt in E1; lia |].
  reflexivity.
Qed.

Lemma num_replacements_set_returns (period sl : Z) :
  sl <> 0 -> exists n, _get_num_replacements period (Some sl) = Ok n.
Proof.
  intros Hsl. unfold _get_num_replacements.
  destruct (sl >=? period); [eexists; reflexivity |].
  destruct (sl =? 0) eqn:E; [apply Z.eqb_eq in E; contradiction |].
  destruct (period mod sl =? 0); eexists; reflexivity.
Qed.

Lemma num_replacements_errors (period : Z) (sl : option Z) (e : exn) :
  _get_num_replacements period sl = Raise e -> e = ZeroDivisionError \/ e = TypeError.
Proof.
  unfold _get_num_replacements. destruct sl as [sl |]; [| intros [= <-]; right; reflexivity].
  destruct (sl >=? period); [discriminate |].
  destruct (sl =? 0); [intros [= <-]; left; reflexivity |].
  destruct (period mod sl =? 0); discriminate.
Qed.

(** The recurrent flows for a positive period: each embodied flow times
    the replacements of its material. *)
Lemma flow_value_recurrent ml flow wastage_only (period : Z) :
  In flow DEFINED_FLOWS -> 0 < period ->
  (to_float (flow_value self ml flow wastage_only (Some period) None)
   == qsum (fun mq => embodied_flow self flow wastage_only mq
                      * inject_Z (replacements_of self period (fst mq))) ml)%Q.
Proof.
  intros Hflow Hp. unfold flow_value, _calculate_flows.
  rewrite (initial_result_map ml flow wastage_only None Hflow). cbn [bind].
  destruct (period =? 0) eqn:E0; [apply Z.eqb_eq in E0; lia |].
  replace (period >? 0) with true by (symmetry; rewrite Z.gtb_ltb; apply Z.ltb_lt; lia).
  cbn [andb].
  destruct (service_life_set (service_life self)) eqn:Hset; cbn [negb].
  - assert (Hsl : exists sl, service_life self = Some sl /\ sl <> 0).
    { unfold service_life_set in Hset. destruct (service_life self) as [sl |];
        [| discriminate].
      exists sl. split; [reflexivity |]. intros ->. discriminate. }
    destruct Hsl as (sl & Hsl & Hnz).
    destruct (num_replacements_set_returns period sl Hnz) as [n Hn].
    rewrite Hsl, Hn. cbn [bind].
    rewrite to_float_nsum, map_map, qsum_map. apply qsum_ext. intros mq _.
    rewrite to_float_nmul, to_float_embodied. cbn [to_float].
    unfold replacements_of, service_life_of. rewrite Hset, Hsl, Hn. reflexivity.
  - assert (Hloop :
              map_m (fun em => recurrent_of_material period (fst em) (snd em))
                (combine (map (embodied self flow wastage_only (total_units self)) ml) ml)
              = Ok (map (fun mq =>
                           match _get_num_replacements period
                                   (EPiCMaterial.service_life (fst mq)) with
                           | Ok n => nmul (embodied self flow wastage_only
                                             (total_units self) mq) (NInt n)
                           | Raise _ => NFloat 0%Q
                           end) ml)).
    { induction ml as [| mq ml' IH]; cbn [map combine map_m]; [reflexivity |].
      rewrite IH. cbn [fst snd]. unfold recurrent_of_material at 1.
      destruct (_get_num_replacements period (EPiCMaterial.service_life (fst mq)))
        as [n | e] eqn:En; [reflexivity |].
      destruct (num_replacements_errors _ _ _ En) as [-> | ->]; reflexivity. }
    rewrite Hloop. cbn [bind].
    rewrite to_float_nsum, qsum_map. apply qsum_ext. intros mq _.
    unfold replacements_of, service_life_of. rewrite Hset.
    destruct (_get_num_replacements period (EPiCMaterial.service_life (fst mq))).
    + rewrite to_float_nmul, to_float_embodied. reflexivity.
    + cbn [to_float]. ring.
Qed.

End ClosedForm.

Section Breakdown.

Import EPiCAssembly.

Variable self : t.
Variable period : option Z.



(** Sums over a typed group *)








End Breakdown.



Section ClosedFormOfFlows.

Import EPiCAssembly.

Variable self : t.

Lemma leaf_float_result (period : option Z) (result : value) (b flow : string) :
  calculate_flows self period = Ok result ->
  In b BUCKETS -> In flow DEFINED_FLOWS ->
  leaf result b flow
  = Ok (VNum (table_of self period (epic_materials self) None b flow)).
Proof.
  intros H Hb Hf.
  destruct (calculate_flows_group self period result H) as (G & _ & -> & _).
  apply leaf_flows_items; assumption.
Qed.

Lemma initial_closed_form (period : option Z) (result : value) (flow : string) :
  calculate_flows self period = Ok result ->
  In flow DEFINED_FLOWS ->
  (leaf_float result "initial" flow
   == qsum (embodied_flow self flow false) (epic_materials self))%Q /\
  (leaf_float result "initial_wastage" flow
   == qsum (embodied_flow self flow true) (epic_materials self))%Q.
Proof.
  intros H Hf. unfold leaf_float.
  rewrite !(leaf_float_result period result _ flow H) by (cbn; auto 7).
  split; apply flow_value_initial; exact Hf.
Qed.

Lemma recurrent_closed_form (period : Z) (result : value) (flow : string) :
  0 < period ->
  calculate_flows self (Some period) = Ok result ->
  In flow DEFINED_FLOWS ->
  (leaf_float result "recurrent" flow
   == qsum (fun mq => embodied_flow self flow false mq
                      * inject_Z (replacements_of self period (fst mq)))
        (epic_materials self))%Q /\
  (leaf_float result "recurrent_wastage" flow
   == qsum (fun mq => embodied_flow self flow true mq
                      * inject_Z (replacements_of self period (fst mq)))
        (epic_materials self))%Q.
Proof.
  intros Hp H Hf. unfold leaf_float.
  rewrite !(leaf_float_result (Some period) result _ flow H) by (cbn; auto 7).
  split; apply flow_value_recurrent; assumption.
Qed.

Lemma negative_period (period : Z) (result : value) (flow : string) :
  period < 0 ->
  calculate_flows self (Some period) = Ok result ->
  In flow DEFINED_FLOWS ->
  leaf result "recurrent" flow = leaf result "initial" flow /\
  leaf result "recurrent_wastage" flow = leaf result "initial_wastage" flow.
Proof.
  intros Hp H Hf.
  rewrite !(leaf_float_result (Some period) result _ flow H) by (cbn; auto 7).
  split; do 2 f_equal; apply flow_value_negative_period; exact Hp.
Qed.

End ClosedFormOfFlows.

(** X14. The initial flows of an assembly in closed form: the sum over its
    materials of units x quantity x coefficient x (1 + wastage fraction),
    and the same with the wastage fraction alone for the wastage
    bucket; the wastage fraction is the override when there is one. *)
Theorem initial_flows_closed_form (self : EPiCAssembly.t) (period : option Z)
  (result : value) (flow : string) :
  EPiCAssembly.calculate_flows self period = Ok result ->
  In flow DEFINED_FLOWS ->
  (leaf_float result "initial" flow
   == qsum (embodied_flow self flow false) (EPiCAssembly.epic_materials self))%Q /\
  (leaf_float result "initial_wastage" flow
   == qsum (embodied_flow self flow true) (EPiCAssembly.epic_materials self))%Q.
Proof. apply initial_closed_form. Qed.

Lemma initial_flows_closed_form_witness :
  exists result,
    EPiCAssembly.calculate_flows Examples.wall (Some 50) = Ok result /\
    (leaf_float result "initial" "energy"
     == qsum (embodied_flow Examples.wall "energy" false)
          (EPiCAssembly.epic_materials Examples.wall))%Q /\
    (leaf_float result "initial_wastage" "energy"
     == qsum (embodied_flow Examples.wall "energy" true)
          (EPiCAssembly.epic_materials Examples.wall))%Q.
Proof.
  run (EPiCAssembly.calculate_flows Examples.wall (Some 50)) as result E.
  exists result. split; [exact E |].
  apply (initial_flows_closed_form Examples.wall (Some 50) result "energy" E).
  left. reflexivity.
Defined.

(** X15. The recurrent flows for a positive period in closed form: each
    material's embodied flow times its number of replacements, counted
    with the service life of the assembly when it is set and with the
    material's own otherwise (no replacement for a service life of [0]
    or [None]). *)
Theorem recurrent_flows_closed_form (self : EPiCAssembly.t) (period : Z)
  (result : value) (flow : string) :
  0 < period ->
  EPiCAssembly.calculate_flows self (Some period) = Ok result ->
  In flow DEFINED_FLOWS ->
  (leaf_float result "recurrent" flow
   == qsum (fun mq => embodied_flow self flow false mq
                      * inject_Z (replacements_of self period (fst mq)))
        (EPiCAssembly.epic_materials self))%Q /\
  (leaf_float result "recurrent_wastage" flow
   == qsum (fun mq => embodied_flow self flow true mq
                      * inject_Z (replacements_of self period (fst mq)))
        (EPiCAssembly.epic_materials self))%Q.
Proof. apply recurrent_closed_form. Qed.

Lemma recurrent_flows_closed_form_witness :
  exists result,
    EPiCAssembly.calculate_flows Examples.wall (Some 50) = Ok result /\
    (leaf_float result "recurrent" "energy"
     == qsum (fun mq => embodied_flow Examples.wall "energy" false mq
                        * inject_Z (replacements_of Examples.wall 50 (fst mq)))
          (EPiCAssembly.epic_materials Examples.wall))%Q /\
    (leaf_float result "recurrent_wastage" "energy"
     == qsum (fun mq => embodied_flow Examples.wall "energy" true mq
                        * inject_Z (replacements_of Examples.wall 50 (fst mq)))
          (EPiCAssembly.epic_materials Examples.wall))%Q.
Proof.
  run (EPiCAssembly.calculate_flows Examples.wall (Some 50)) as result E.
  exists result. split; [exact E |].
  apply (recurrent_flows_closed_form Examples.wall 50 result "energy");
    [lia | exact E | left; reflexivity].
Defined.

(** X16. A negative period is not rejected: the recurrent buckets then repeat
    the initial ones. *)
Theorem negative_period_repeats_initial (self : EPiCAssembly.t) (period : Z)
  (result : value) (flow : string) :
  period < 0 ->
  EPiCAssembly.calculate_flows self (Some period) = Ok result ->
  In flow DEFINED_FLOWS ->
  leaf result "recurrent" flow = leaf result "initial" flow /\
  leaf result "recurrent_wastage" flow = leaf result "initial_wastage" flow.
Proof. apply negative_period. Qed.

Lemma negative_period_repeats_initial_witness :
  exists result,
    EPiCAssembly.calculate_flows Examples.wall (Some (-5)) = Ok result /\
    leaf result "recurrent" "energy" = leaf result "initial" "energy" /\
    leaf result "recurrent_wastage" "energy" = leaf result "initial_wastage" "energy".
Proof.
  run (EPiCAssembly.calculate_flows Examples.wall (Some (-5))) as result E.
  exists result. split; [exact E |].
  apply (negative_period_repeats_initial Examples.wall (-5) result "energy");
    [lia | exact E | left; reflexivity].
Defined.

(** ** Quantities by material *)

Section Quantities.

Import EPiCAssembly.

Variable self : t.
Variable period : option Z.

Lemma quantity_of_update (n k : string) F q o (G : group) :
  quantity_of n (update k (F, q, o) G)
  = if (k =? n)%string then Some q else quantity_of n G.
Proof.
  unfold quantity_of. destruct (k =? n)%string eqn:E.
  - apply String.eqb_eq in E. subst. rewrite lookup_update_same. reflexivity.
  - apply String.eqb_neq in E. rewrite lookup_update_other by exact E. reflexivity.
Qed.

Lemma group_step_quantity (G G' : group) m q (n : string) :
  group_step self period G (m, q) = Ok G' ->
  quantity_of n G'
  = if (EPiCMaterial.name m =? n)%string
    then Some (match quantity_of n G with Some q0 => nadd q0 q | None => q end)
    else quantity_of n G.
Proof.
  unfold group_step. cbn [fst snd].
  destruct (lookup (EPiCMaterial.name m) G) as [[[F0 q0] first] |] eqn:HG.
  - destruct (EPiCMaterial.material_id first =? EPiCMaterial.material_id m)%string;
      [| discriminate].
    intros [= <-]. rewrite quantity_of_update.
    destruct (EPiCMaterial.name m =? n)%string eqn:E; [| reflexivity].
    apply String.eqb_eq in E. subst n. unfold quantity_of. rewrite HG. reflexivity.
  - intros [= <-]. rewrite quantity_of_update.
    destruct (EPiCMaterial.name m =? n)%string eqn:E; [| reflexivity].
    apply String.eqb_eq in E. subst n. unfold quantity_of. rewrite HG. reflexivity.
Qed.

Lemma group_fold_quantity (l : list (EPiCMaterial.t * num)) (n : string) :
  forall G0 G : group,
    fold_m (group_step self period) l G0 = Ok G ->
    (quantity_of n G = None <->
     quantity_of n G0 = None /\ materials_named n l = []) /\
    (quantity_float (quantity_of n G)
     == quantity_float (quantity_of n G0)
        + qsum (fun mq => to_float (snd mq)) (materials_named n l))%Q.
Proof.
  induction l as [| [m q] l IH]; intros G0 G; cbn [fold_m].
  - intros [= <-]. cbn [materials_named filter]. split; [tauto |].
    rewrite qsum_nil, Qplus_0_r. reflexivity.
  - destruct (group_step self period G0 (m, q)) as [G1 |] eqn:Hstep; cbn [bind];
      [| discriminate].
    intros H. destruct (IH G1 G H) as [Hnone Hsum].
    pose proof (group_step_quantity G0 G1 m q n Hstep) as Hq.
    unfold materials_named in *. cbn [filter fst].
    destruct (EPiCMaterial.name m =? n)%string.
    + split.
      * rewrite Hnone, Hq. split; [intros [? _]; discriminate | intros [_ ?]; discriminate].
      * rewrite Hsum, Hq, qsum_cons. cbn [snd quantity_float].
        destruct (quantity_of n G0) as [q0 |]; cbn [quantity_float].
        -- rewrite to_float_nadd. ring.
        -- ring.
    + rewrite Hq in Hnone, Hsum. split; [exact Hnone | exact Hsum].
Qed.

Lemma quantities_by_name (result : value) (n : string) :
  calculate_flows self period = Ok result ->
  (materials_named n (epic_materials self) = [] /\ entry result n = Raise KeyError) \/
  (materials_named n (epic_materials self) <> [] /\
   exists e q,
     entry result n = Ok e /\
     getitem e "quantity" = Ok (VNum q) /\
     getitem e "material_name" = Ok (VStr n) /\
     (to_float q
      == qsum (fun mq => to_float (snd mq)) (materials_named n (epic_materials self)))%Q).
Proof.
  intros H. destruct (calculate_flows_group self period result H) as (G & Hfold & -> & _).
  destruct (group_fold_quantity (epic_materials self) n [] G Hfold) as [Hnone Hsum].
  rewrite entry_assembly_items. unfold quantity_of in Hnone, Hsum.
  destruct (lookup n G) as [[[F q] m] |]; cbn [option_map lookup] in Hnone, Hsum.
  - right. split.
    + intros E. destruct Hnone as [_ Hn]. discriminate (Hn (conj eq_refl E)).
    + exists (VDict (entry_items F q m n)), q. cbn [fst snd].
      split; [reflexivity |]. split; [reflexivity |]. split; [reflexivity |].
      cbn [quantity_float fst snd] in Hsum. rewrite Hsum. apply Qplus_0_l.
  - left. split; [| reflexivity]. destruct Hnone as [Hn _]. apply (Hn eq_refl).
Qed.

End Quantities.

(** X17. [by_material] has an entry for exactly the names the materials of
    the assembly bear, and the quantity of an entry is the sum of the
    quantities listed under its name (ints add like floats here). *)
Theorem by_material_quantities (self : EPiCAssembly.t) (period : option Z)
  (result : value) (n : string) :
  EPiCAssembly.calculate_flows self period = Ok result ->
  (materials_named n (EPiCAssembly.epic_materials self) = [] /\
   entry result n = Raise KeyError) \/
  (materials_named n (EPiCAssembly.epic_materials self) <> [] /\
   exists e q,
     entry result n = Ok e /\
     getitem e "quantity" = Ok (VNum q) /\
     getitem e "material_name" = Ok (VStr n) /\
     (to_float q
      == qsum (fun mq => to_float (snd mq))
           (materials_named n (EPiCAssembly.epic_materials self)))%Q).
Proof. apply quantities_by_name. Qed.

Lemma by_material_quantities_witness :
  exists result e q,
    EPiCAssembly.calculate_flows Examples.frame (Some 100) = Ok result /\
    entry result "Steel" = Ok e /\
    getitem e "quantity" = Ok (VNum q) /\
    (to_float q
     == qsum (fun mq => to_float (snd mq))
          (materials_named "Steel" (EPiCAssembly.epic_materials Examples.frame)))%Q.
Proof.
  run (EPiCAssembly.calculate_flows Examples.frame (Some 100)) as result E.
  destruct (by_material_quantities Examples.frame (Some 100) result "Steel" E)
    as [[Hnone _] | (_ & e & q & He & Hq & _ & Hsum)]; [discriminate Hnone |].
  exists result, e, q. split; [exact E |]. split; [exact He |].
  split; [exact Hq | exact Hsum].
Defined.

(** ** What the constructor of an assembly establishes *)

Section AssemblyConstructor.

Import EPiCAssembly.

Lemma to_float_nabs_nonneg (x : num) : (0 <= to_float (nabs x))%Q.
Proof. rewrite to_float_nabs. apply Qabs_nonneg. Qed.

Lemma ndiv_nabs_nonneg (w r : num) :
  ndiv (nabs w) (NInt 100) = Ok r -> (0 <= to_float r)%Q.
Proof.
  unfold ndiv. cbn [num_eqb to_float Qeq_bool].
  change (Qeq_bool (inject_Z 100) (inject_Z 0)) with false. cbn iota.
  destruct w as [z | q]; cbn [nabs to_float]; intros [= <-]; cbn [to_float].
  - rewrite <- (Zle_Qle 0). apply Z.div_pos; lia.
  - unfold fdiv, fabs. rewrite !Qred_correct.
    apply Qle_shift_div_l; [reflexivity |]. rewrite Qmult_0_l. apply Qabs_nonneg.
Qed.

Lemma init_inv name service_life wastage units_total materials category (a : t) :
  __init__ name service_life wastage units_total materials category = Ok a ->
  EPiCAssembly.name a
  = match name with
    | Some n => if (n =? "")%string then "EPiC Assembly"
                else remove_commas_and_flatten_list_for_csv_export n
    | None => "EPiC Assembly"
    end /\
  EPiCAssembly.service_life a
  = match service_life with
    | Some z => if z =? 0 then None else Some (Z.abs z)
    | None => None
    end /\
  match wastage with
  | Some w => if truthy w then
                exists r, ndiv (nabs w) (NInt 100) = Ok r /\ wastage_override a = Some r
              else wastage_override a = Some (NFloat 0%Q)
  | None => wastage_override a = None
  end /\
  epic_materials a = map (fun y => (fst y, nabs (snd y))) materials /\
  total_units a = nabs units_total /\
  calculate_flows a None = Ok (flows a).
Proof.
  unfold __init__.
  destruct (match wastage with
            | Some w => if truthy w then r <- ndiv (nabs w) (NInt 100) ;; Ok (Some r)
                        else Ok (Some (NFloat 0%Q))
            | None => Ok None
            end) as [ov | e] eqn:Hov; cbn [bind]; [| discriminate].
  match goal with
  | |- context [calculate_flows ?s None] => set (self0 := s)
  end.
  destruct (calculate_flows self0 None) as [fl | e] eqn:Hfl; cbn [bind]; [| discriminate].
  intros [= <-]. cbn [EPiCAssembly.name EPiCAssembly.service_life wastage_override
                      epic_materials total_units flows].
  split; [reflexivity |]. split; [reflexivity |]. split; [| split; [reflexivity |]].
  - destruct wastage as [w |]; [| injection Hov as <-; reflexivity].
    destruct (truthy w); [| injection Hov as <-; reflexivity].
    destruct (ndiv (nabs w) (NInt 100)) as [r |]; cbn [bind] in Hov; [| discriminate].
    injection Hov as <-. exists r. split; reflexivity.
  - split; [reflexivity |]. rewrite <- Hfl. apply calculate_flows_reads; reflexivity.
Qed.

Lemma init_signs name service_life wastage units_total materials category (a : t) :
  __init__ name service_life wastage units_total materials category = Ok a ->
  (0 <= to_float (total_units a))%Q /\
  Forall (fun mq => (0 <= to_float (snd mq))%Q) (epic_materials a) /\
  (forall years, EPiCAssembly.service_life a = Some years -> 0 < years) /\
  (forall override, wastage_override a = Some override ->
                    (0 <= to_float override)%Q) /\
  has_char ","%char (EPiCAssembly.name a) = false.
Proof.
  intros H.
  destruct (init_inv _ _ _ _ _ _ a H) as (Hname & Hsl & Hw & Hms & Hu & _).
  split; [rewrite Hu; apply to_float_nabs_nonneg |].
  split; [rewrite Hms, Forall_map; apply Forall_forall; intros mq _;
          apply to_float_nabs_nonneg |].
  split; [| split].
  - intros years. rewrite Hsl. destruct service_life as [z |]; [| discriminate].
    destruct (z =? 0) eqn:E; [discriminate |]. apply Z.eqb_neq in E.
    intros [= <-]. lia.
  - intros override Ho. destruct wastage as [w |]; [| congruence].
    destruct (truthy w).
    + destruct Hw as (r & Hr & Hov). rewrite Hov in Ho. injection Ho as <-.
      exact (ndiv_nabs_nonneg w r Hr).
    + rewrite Hw in Ho. injection Ho as <-. apply Qle_refl.
  - rewrite Hname. destruct name as [n |]; [| reflexivity].
    destruct (n =? "")%string; [reflexivity |]. apply has_char_replace_commas.
Qed.

Lemma init_int_wastage name service_life (percent : Z) units_total materials
  category (a : t) :
  0 < Z.abs percent < 100 ->
  __init__ name service_life (Some (NInt percent)) units_total materials category
  = Ok a ->
  wastage_override a = Some (NInt 0) /\ no_wastage (flows a).
Proof.
  intros Hp H.
  destruct (init_inv _ _ _ _ _ _ a H) as (_ & _ & Hw & _ & _ & Hfl).
  assert (Ht : truthy (NInt percent) = true).
  { unfold truthy, num_eqb. cbn [to_float]. apply negb_true_iff.
    destruct (Qeq_bool (inject_Z percent) (inject_Z 0)) eqn:E; [| reflexivity].
    apply Qeq_bool_eq in E. apply (proj1 (inject_Z_injective _ _)) in E.
    subst percent. cbn in Hp. lia. }
  rewrite Ht in Hw. destruct Hw as (r & Hr & Hov).
  assert (Hr0 : r = NInt 0).
  { unfold ndiv in Hr. cbn [nabs] in Hr.
    change (num_eqb (NInt 100) (NInt 0)) with false in Hr. cbn iota in Hr.
    injection Hr as <-. f_equal. apply Z.div_small. lia. }
  subst r. split; [exact Hov |].
  destruct (calculate_flows_group a None (flows a) Hfl) as (G & _ & Hres & _).
  rewrite Hres. unfold assembly_items. apply flows_items_no_wastage.
  apply (table_of_without_wastage a (NInt 0)); [exact Hov | reflexivity].
Qed.

Lemma init_float_wastage name service_life (percent : Q) units_total materials
  category (a : t) :
  ~ (percent == 0)%Q ->
  __init__ name service_life (Some (NFloat percent)) units_total materials category
  = Ok a ->
  exists fraction,
    wastage_override a = Some (NFloat fraction) /\
    (fraction == Qabs percent / 100)%Q.
Proof.
  intros Hp H.
  destruct (init_inv _ _ _ _ _ _ a H) as (_ & _ & Hw & _).
  assert (Ht : truthy (NFloat percent) = true).
  { unfold truthy, num_eqb. cbn [to_float]. apply negb_true_iff.
    destruct (Qeq_bool percent (inject_Z 0)) eqn:E; [| reflexivity].
    apply Qeq_bool_iff in E. contradiction. }
  rewrite Ht in Hw. destruct Hw as (r & Hr & Hov).
  unfold ndiv in Hr. cbn [nabs] in Hr.
  change (num_eqb (NInt 100) (NInt 0)) with false in Hr. cbn iota in Hr.
  injection Hr as <-. eexists. split; [exact Hov |].
  cbn [to_float]. unfold fdiv, fabs. rewrite !Qred_correct. reflexivity.
Qed.

End AssemblyConstructor.

(** X18. Whatever the signs of its arguments, a constructed assembly has a
    number of units and material quantities that are not negative, a
    service life that is [None] or positive, a wastage override that is
    [None] or not negative, and a name without comma. *)
Theorem constructed_assembly_is_normalised name service_life wastage units_total
  materials category (a : EPiCAssembly.t) :
  EPiCAssembly.__init__ name service_life wastage units_total materials category
  = Ok a ->
  (0 <= to_float (EPiCAssembly.total_units a))%Q /\
  Forall (fun mq => (0 <= to_float (snd mq))%Q) (EPiCAssembly.epic_materials a) /\
  (forall years, EPiCAssembly.service_life a = Some years -> 0 < years) /\
  (forall override, EPiCAssembly.wastage_override a = Some override ->
                    (0 <= to_float override)%Q) /\
  has_char ","%char (EPiCAssembly.name a) = false.
Proof. apply init_signs. Qed.

Lemma constructed_assembly_is_normalised_witness :
  exists a,
    EPiCAssembly.__init__ (Some "Wall, north") (Some (-30)) (Some (NFloat (-15 # 1)))
      (NInt (-4)) [(Examples.steel, NInt (-2))] None = Ok a /\
    (0 <= to_float (EPiCAssembly.total_units a))%Q /\
    Forall (fun mq => (0 <= to_float (snd mq))%Q) (EPiCAssembly.epic_materials a) /\
    (forall years, EPiCAssembly.service_life a = Some years -> 0 < years) /\
    (forall override, EPiCAssembly.wastage_override a = Some override ->
                      (0 <= to_float override)%Q) /\
    has_char ","%char (EPiCAssembly.name a) = false.
Proof.
  destruct (EPiCAssembly.__init__ (Some "Wall, north") (Some (-30))
              (Some (NFloat (-15 # 1))) (NInt (-4)) [(Examples.steel, NInt (-2))] None)
    as [a |] eqn:E; [| discriminate E].
  exists a. split; [reflexivity |].
  exact (constructed_assembly_is_normalised _ _ _ _ _ _ a E).
Defined.

(** X19. A wastage override given as an int below 100 (in absolute value) is
    floor-divided by 100: the stored override is the int [0], and every
    wastage bucket of the assembly is zero.  Given as a float, the same
    percentage is stored as the fraction [abs(percent) / 100]. *)
Theorem int_wastage_override_is_zero name service_life units_total materials
  category :
  (forall (percent : Z) (a : EPiCAssembly.t),
     0 < Z.abs percent < 100 ->
     EPiCAssembly.__init__ name service_life (Some (NInt percent)) units_total
       materials category = Ok a ->
     EPiCAssembly.wastage_override a = Some (NInt 0) /\
     no_wastage (EPiCAssembly.flows a)) /\
  (forall (percent : Q) (a : EPiCAssembly.t),
     ~ (percent == 0)%Q ->
     EPiCAssembly.__init__ name service_life (Some (NFloat percent)) units_total
       materials category = Ok a ->
     exists fraction,
       EPiCAssembly.wastage_override a = Some (NFloat fraction) /\
       (fraction == Qabs percent / 100)%Q).
Proof.
  split.
  - intros percent a. apply init_int_wastage.
  - intros percent a. apply init_float_wastage.
Qed.

Lemma int_wastage_override_is_zero_witness :
  exists a,
    EPiCAssembly.__init__ (Some "Wall") None (Some (NInt 10)) (NInt 1)
      [(Examples.steel, NInt 2)] None = Ok a /\
    EPiCAssembly.wastage_override a = Some (NInt 0) /\
    no_wastage (EPiCAssembly.flows a).
Proof.
  run (EPiCAssembly.__init__ (Some "Wall") None (Some (NInt 10)) (NInt 1)
              [(Examples.steel, NInt 2)] None) as a E.
  exists a. split; [exact E |].
  apply (proj1 (int_wastage_override_is_zero (Some "Wall") None (NInt 1)
                  [(Examples.steel, NInt 2)] None) 10 a); [lia | exact E].
Defined.

(** ** The totals of an analysis *)

Section AnalysisTotals.

Import EPiCAnalysis.

Lemma table_of_floats_nonempty (self : EPiCAssembly.t) period ml :
  ml <> [] -> table_of_floats (table_of self period ml None).
Proof.
  intros Hne b f Hb Hf.
  pose proof (fun w p => flow_value_float self ml f w p None Hne Hf) as H.
  cbn in Hb.
  destruct Hb as [<- | [<- | [<- | [<- | [<- | [<- | []]]]]]]; cbn;
    try apply H; apply is_float_nadd_l; apply H.
Qed.

(** The leaves at the top of the result after a run of assemblies *)
Lemma fold_sum_one_totals (ags : list described) :
  Forall well_described ags ->
  forall d, result_acc (VDict d) ->
  exists d',
    fold_m sum_one (map fst ags) (VDict d) = Ok (VDict d') /\
    result_acc (VDict d') /\
    forall b f, In b BUCKETS -> In f DEFINED_FLOWS ->
      sub_lookup (lookup b d') f
      = acc_leaves (sub_lookup (lookup b d) f) (map (fun ag => fst (snd ag) b f) ags).
Proof.
  intros Hags. induction Hags as [| [a [T G]] ags [Ha Hnd] Hags IH]; intros d Hd.
  - exists d. split; [reflexivity |]. split; [exact Hd |]. reflexivity.
  - cbn [fst snd] in Ha, Hnd.
    destruct (sum_one_spec a T G d Ha Hnd Hd) as (d1 & Hd1 & Hacc1 & Hleaf1 & _).
    destruct (IH d1 Hacc1) as (d' & Hd' & Hacc' & Hrest).
    exists d'. cbn [map fst fold_m]. rewrite Hd1. cbn [bind].
    split; [exact Hd' |]. split; [exact Hacc' |].
    intros b f Hb Hf. rewrite (Hrest b f Hb Hf), (Hleaf1 b f Hb Hf).
    cbn [snd fst]. rewrite acc_leaves_cons. reflexivity.
Qed.

(** The assemblies for which [calculate_flows] returned, with the
    tables of what it returned. *)
Lemma describe_tables (period : option Z) (l : list EPiCAssembly.t) (rs : list value) :
  Forall2 (fun a r => EPiCAssembly.calculate_flows a period = Ok r) l rs ->
  exists ags : list described,
    map_m (recalculate period) l = Ok (map fst ags) /\
    Forall well_described ags /\
    rs = map (fun ag => VDict (assembly_items (fst (snd ag)) (snd (snd ag)))) ags /\
    map (fun ag => fst (snd ag)) ags
    = map (fun a => table_of a period (EPiCAssembly.epic_materials a) None) l.
Proof.
  intros H. induction H as [| a r l rs Hr _ (ags & Hmap & Hwd & -> & Htab)].
  - exists []. repeat split; constructor.
  - destruct (calculate_flows_group a period r Hr) as (G & _ & -> & Hnd & _).
    exists ((EPiCAssembly.set_recalculated_flows a
               (VDict (assembly_items
                         (table_of a period (EPiCAssembly.epic_materials a) None) G)),
             (table_of a period (EPiCAssembly.epic_materials a) None, G)) :: ags).
    cbn [map fst snd map_m]. rewrite (recalculate_ok _ _ _ Hr), Hmap. cbn [bind].
    split; [reflexivity |]. split; [| split; [reflexivity |]].
    + constructor; [| exact Hwd]. split; [reflexivity | exact Hnd].
    + rewrite Htab. reflexivity.
Qed.

Lemma leaves_of_described (ags : list described) (b f : string) :
  In b BUCKETS -> In f DEFINED_FLOWS ->
  Forall2 (fun r x => leaf r b f = Ok (VNum x))
    (map (fun ag => VDict (assembly_items (fst (snd ag)) (snd (snd ag)))) ags)
    (map (fun ag => fst (snd ag) b f) ags).
Proof.
  intros Hb Hf. induction ags as [| ag ags IH]; cbn [map]; constructor; [| exact IH].
  unfold assembly_items. apply leaf_flows_items; assumption.
Qed.

Lemma analysis_leaves (name : option string) (epic_inputs : list input)
  (period : option Z) (rs : list value) :
  Forall2 (fun a r => EPiCAssembly.calculate_flows a period = Ok r)
    (input_assemblies epic_inputs) rs ->
  exists an,
    __init__ name epic_inputs period = Ok an /\
    forall b f, In b BUCKETS -> In f DEFINED_FLOWS ->
      exists xs,
        Forall2 (fun r x => leaf r b f = Ok (VNum x)) rs xs /\
        xs = map (fun a => table_of a period (EPiCAssembly.epic_materials a) None b f)
               (input_assemblies epic_inputs) /\
        exists d, flows an = VDict d /\
                  sub_lookup (lookup b d) f = acc_leaves None xs.
Proof.
  intros Hrs.
  destruct (describe_tables period _ rs Hrs) as (ags & Hmap & Hwd & -> & Htab).
  destruct (fold_sum_one_totals ags Hwd [] result_acc_empty) as (d & Hd & _ & Hleaves).
  rewrite init_assemblies, Hmap. cbn [bind].
  unfold sum_by_assembly_and_material at 1. rewrite Hd. cbn [bind].
  eexists. split; [reflexivity |]. cbn [flows].
  intros b f Hb Hf. exists (map (fun ag => fst (snd ag) b f) ags).
  split; [apply leaves_of_described; assumption |]. split.
  - transitivity (map (fun T : table => T b f)
                    (map (fun ag : described => fst (snd ag)) ags)).
    + rewrite map_map. reflexivity.
    + unfold described in *. rewrite Htab, map_map. reflexivity.
  - exists d. split; [reflexivity |]. exact (Hleaves b f Hb Hf).
Qed.

Lemma analysis_sums (name : option string) (epic_inputs : list input)
  (period : option Z) (rs : list value) (b f : string) :
  Forall2 (fun a r => EPiCAssembly.calculate_flows a period = Ok r)
    (input_assemblies epic_inputs) rs ->
  input_assemblies epic_inputs <> [] ->
  Forall (fun a => EPiCAssembly.epic_materials a <> []) (input_assemblies epic_inputs) ->
  In b BUCKETS -> In f DEFINED_FLOWS ->
  exists an xs,
    __init__ name epic_inputs period = Ok an /\
    Forall2 (fun r x => leaf r b f = Ok (VNum x)) rs xs /\
    leaf (flows an) b f = Ok (VNum (nsum xs)).
Proof.
  intros Hrs Hne Hms Hb Hf.
  destruct (analysis_leaves name epic_inputs period rs Hrs) as (an & Han & Hleaves).
  destruct (Hleaves b f Hb Hf) as (xs & Hxs & Hxs' & d & Hd & Hacc).
  exists an, xs. split; [exact Han |]. split; [exact Hxs |].
  rewrite Hd. apply sub_lookup_leaf. rewrite Hacc.
  apply acc_leaves_floats.
  - rewrite Hxs'. destruct (input_assemblies epic_inputs); [contradiction | discriminate].
  - rewrite Hxs', Forall_map. revert Hms. apply Forall_impl.
    intros a Ha. apply table_of_floats_nonempty; assumption.
Qed.

Lemma table_of_empty_initial (self : EPiCAssembly.t) period (f : string) :
  table_of self period [] None "initial" f = NInt 0 /\
  table_of self period [] None "initial_wastage" f = NInt 0.
Proof.
  unfold table_of, flow_value, EPiCAssembly._calculate_flows,
    EPiCAssembly.initial_result.
  destruct (EPiCAssembly.wastage_override self) as [o |]; [destruct (truthy o) |];
    split; reflexivity.
Qed.

Lemma analysis_reset (name : option string) (epic_inputs : list input)
  (period : option Z) (rs : list value) (before : list EPiCAssembly.t)
  (last : EPiCAssembly.t) (f : string) :
  Forall2 (fun a r => EPiCAssembly.calculate_flows a period = Ok r)
    (input_assemblies epic_inputs) rs ->
  input_assemblies epic_inputs = (before ++ [last])%list ->
  EPiCAssembly.epic_materials last = [] ->
  In f DEFINED_FLOWS ->
  exists an,
    __init__ name epic_inputs period = Ok an /\
    leaf (flows an) "initial" f = Ok (VNum (NInt 0)) /\
    leaf (flows an) "initial_wastage" f = Ok (VNum (NInt 0)).
Proof.
  intros Hrs Hlast Hms Hf.
  destruct (analysis_leaves name epic_inputs period rs Hrs) as (an & Han & Hleaves).
  exists an. split; [exact Han |].
  assert (Hacc : forall old xs, acc_leaves old (xs ++ [NInt 0]) = Some (VNum (NInt 0))).
  { intros old xs. unfold acc_leaves. rewrite fold_left_app. reflexivity. }
  split.
  - destruct (Hleaves "initial" f ltac:(cbn; auto 7) Hf) as (xs & _ & Hxs & d & Hd & Hl).
    rewrite Hd. apply sub_lookup_leaf. rewrite Hl, Hxs, Hlast, map_app. cbn [map].
    rewrite Hms, (proj1 (table_of_empty_initial last period f)). apply Hacc.
  - destruct (Hleaves "initial_wastage" f ltac:(cbn; auto 7) Hf)
      as (xs & _ & Hxs & d & Hd & Hl).
    rewrite Hd. apply sub_lookup_leaf. rewrite Hl, Hxs, Hlast, map_app. cbn [map].
    rewrite Hms, (proj2 (table_of_empty_initial last period f)). apply Hacc.
Qed.

End AnalysisTotals.

(** X20. In an analysis whose assemblies all hold at least one material, every
    bucket of the aggregated flows holds, for every flow, the sum of what
    the assemblies hold there, in the order of the assemblies. *)
Theorem analysis_totals_are_sums (name : option string)
  (epic_inputs : list EPiCAnalysis.input) (period : option Z) (rs : list value)
  (b f : string) :
  Forall2 (fun a r => EPiCAssembly.calculate_flows a period = Ok r)
    (input_assemblies epic_inputs) rs ->
  input_assemblies epic_inputs <> [] ->
  Forall (fun a => EPiCAssembly.epic_materials a <> []) (input_assemblies epic_inputs) ->
  In b BUCKETS -> In f DEFINED_FLOWS ->
  exists an xs,
    EPiCAnalysis.__init__ name epic_inputs period = Ok an /\
    Forall2 (fun r x => leaf r b f = Ok (VNum x)) rs xs /\
    leaf (EPiCAnalysis.flows an) b f = Ok (VNum (nsum xs)).
Proof. apply analysis_sums. Qed.

Lemma analysis_totals_are_sums_witness :
  exists r1 r2 an xs,
    EPiCAssembly.calculate_flows Examples.beam (Some 50) = Ok r1 /\
    EPiCAssembly.calculate_flows Examples.column (Some 50) = Ok r2 /\
    EPiCAnalysis.__init__ (Some "Report")
      [EPiCAnalysis.Assembly Examples.beam; EPiCAnalysis.Assembly Examples.column]
      (Some 50) = Ok an /\
    Forall2 (fun r x => leaf r "life_cycle" "energy" = Ok (VNum x)) [r1; r2] xs /\
    leaf (EPiCAnalysis.flows an) "life_cycle" "energy" = Ok (VNum (nsum xs)).
Proof.
  run (EPiCAssembly.calculate_flows Examples.beam (Some 50)) as r1 E1.
  run (EPiCAssembly.calculate_flows Examples.column (Some 50)) as r2 E2.
  destruct (analysis_totals_are_sums (Some "Report")
              [EPiCAnalysis.Assembly Examples.beam; EPiCAnalysis.Assembly Examples.column]
              (Some 50) [r1; r2] "life_cycle" "energy")
    as (an & xs & Han & Hxs & Hleaf).
  - constructor; [exact E1 |]. constructor; [exact E2 | constructor].
  - discriminate.
  - constructor; [discriminate |]. constructor; [discriminate | constructor].
  - cbn. auto 7.
  - left. reflexivity.
  - exists r1, r2, an, xs. repeat split; assumption.
Defined.

(** X21. An assembly without materials has the int [0] in its initial
    buckets (the sum of an empty list), and the aggregator overwrites
    with an int where it adds a float: when such an assembly comes last
    in an analysis, the initial buckets of the analysis hold [0] whatever
    the assemblies before it contribute. *)
Theorem empty_assembly_resets_initial (name : option string)
  (epic_inputs : list EPiCAnalysis.input) (period : option Z) (rs : list value)
  (before : list EPiCAssembly.t) (last : EPiCAssembly.t) (f : string) :
  Forall2 (fun a r => EPiCAssembly.calculate_flows a period = Ok r)
    (input_assemblies epic_inputs) rs ->
  input_assemblies epic_inputs = (before ++ [last])%list ->
  EPiCAssembly.epic_materials last = [] ->
  In f DEFINED_FLOWS ->
  exists an,
    EPiCAnalysis.__init__ name epic_inputs period = Ok an /\
    leaf (EPiCAnalysis.flows an) "initial" f = Ok (VNum (NInt 0)) /\
    leaf (EPiCAnalysis.flows an) "initial_wastage" f = Ok (VNum (NInt 0)).
Proof. apply analysis_reset. Qed.

Lemma empty_assembly_resets_initial_witness :
  exists an,
    EPiCAnalysis.__init__ (Some "Report")
      [EPiCAnalysis.Assembly Examples.wall; EPiCAnalysis.Assembly MoreExamples.shell]
      (Some 50) = Ok an /\
    leaf (EPiCAnalysis.flows an) "initial" "energy" = Ok (VNum (NInt 0)) /\
    leaf (EPiCAnalysis.flows an) "initial_wastage" "energy" = Ok (VNum (NInt 0)).
Proof.
  run (EPiCAssembly.calculate_flows Examples.wall (Some 50)) as r1 E1.
  run (EPiCAssembly.calculate_flows MoreExamples.shell (Some 50)) as r2 E2.
  apply (empty_assembly_resets_initial (Some "Report")
           [EPiCAnalysis.Assembly Examples.wall; EPiCAnalysis.Assembly MoreExamples.shell]
           (Some 50) [r1; r2] [Examples.wall] MoreExamples.shell "energy").
  - constructor; [exact E1 |]. constructor; [exact E2 | constructor].
  - reflexivity.
  - reflexivity.
  - left. reflexivity.
Defined.

(** ** What an analysis does to its assemblies *)

Section Recalculation.

Import EPiCAnalysis.



End Recalculation.



(** X23. A built asset constructed with no period, or with a period of
    [0], has no recurrent flow: every recurrent bucket is zero in the
    [recalculated_flows] of each of its assemblies, and every recurrent
    leaf of its aggregated flows is zero. *)
Theorem built_asset_of_no_period (name : option string)
  (epic_inputs : list EPiCAnalysis.input) (period : option Z)
  (asset : EPiCAnalysis.t) :
  no_period period ->
  EPiCBuiltAsset.__init__ name epic_inputs period = Ok asset ->
  Forall (fun a => no_recurrent (EPiCAssembly.recalculated_flows a))
    (EPiCAnalysis.epic_assemblies asset) /\
  exists d, EPiCAnalysis.flows asset = VDict d /\ recurrent_leaves_zero d.
Proof. apply built_asset_without_period. Qed.

Lemma built_asset_of_no_period_witness :
  exists asset d,
    EPiCBuiltAsset.__init__ (Some "Shed") [EPiCAnalysis.Assembly Examples.wall] (Some 0)
    = Ok asset /\
    Forall (fun a => no_recurrent (EPiCAssembly.recalculated_flows a))
      (EPiCAnalysis.epic_assemblies asset) /\
    EPiCAnalysis.flows asset = VDict d /\ recurrent_leaves_zero d.
Proof.
  run (EPiCBuiltAsset.__init__ (Some "Shed") [EPiCAnalysis.Assembly Examples.wall]
         (Some 0)) as asset E.
  destruct (built_asset_of_no_period (Some "Shed")
              [EPiCAnalysis.Assembly Examples.wall] (Some 0) asset)
    as (Hall & d & Hd & Hzero); [right; reflexivity | exact E |].
  exists asset, d. split; [exact E |]. split; [exact Hall |].
  split; [exact Hd | exact Hzero].
Defined.

(** ** The flow-totals invariant of an analysis *)

Section AnalysisInvariant.

Import EPiCAnalysis.




End AnalysisInvariant.



(** ** The inputs of the analysis component *)

Section ProcessInputs.

Import EPiCAnalysis.
Import Inputs.

Variable period : option Z.

Lemma map_m_app {A B : Type} (f : A -> outcome B) (l1 l2 : list A) :
  map_m f (l1 ++ l2)
  = (x <- map_m f l1 ;; y <- map_m f l2 ;; Ok (x ++ y)%list).
Proof.
  induction l1 as [| a l1 IH]; cbn [app map_m bind].
  - destruct (map_m f l2); reflexivity.
  - destruct (f a); cbn [bind]; [| reflexivity].
    rewrite IH. destruct (map_m f l1); cbn [bind]; [| reflexivity].
    destruct (map_m f l2); reflexivity.
Qed.

Lemma set_recalculated_twice (a : EPiCAssembly.t) (r r' : value) :
  EPiCAssembly.set_recalculated_flows (EPiCAssembly.set_recalculated_flows a r) r'
  = EPiCAssembly.set_recalculated_flows a r'.
Proof. reflexivity. Qed.

Lemma recalculate_again (a a' : EPiCAssembly.t) :
  recalculate period a = Ok a' -> recalculate period a' = Ok a'.
Proof.
  intros H. destruct (recalculate_inv period a a' H) as (r & Hr & ->).
  unfold recalculate.
  rewrite (calculate_flows_reads a (EPiCAssembly.set_recalculated_flows a r) period)
    by reflexivity.
  rewrite Hr. cbn [bind]. rewrite set_recalculated_twice. reflexivity.
Qed.

Lemma recalculate_all_again (l l' : list EPiCAssembly.t) :
  map_m (recalculate period) l = Ok l' -> map_m (recalculate period) l' = Ok l'.
Proof.
  revert l'. induction l as [| a l IH]; intros l'; cbn [map_m].
  - intros [= <-]. reflexivity.
  - destruct (recalculate period a) as [a' |] eqn:Ha; cbn [bind]; [| discriminate].
    destruct (map_m (recalculate period) l) as [l0 |]; cbn [bind]; [| discriminate].
    intros [= <-]. cbn [map_m]. rewrite (recalculate_again a a' Ha). cbn [bind].
    rewrite (IH l0 eq_refl). reflexivity.
Qed.

Lemma init_inv_assemblies (name : option string) (epic_inputs : list input) (an : t) :
  __init__ name epic_inputs period = Ok an ->
  map_m (recalculate period) (input_assemblies epic_inputs) = Ok (epic_assemblies an) /\
  sum_by_assembly_and_material (epic_assemblies an) = Ok (flows an) /\
  period_of_analysis an = period.
Proof.
  rewrite init_assemblies.
  destruct (map_m (recalculate period) (input_assemblies epic_inputs)) as [l |];
    cbn [bind]; [| discriminate].
  destruct (sum_by_assembly_and_material l) as [fl |] eqn:Hfl; cbn [bind];
    [| discriminate].
  intros [= <-]. cbn [epic_assemblies flows period_of_analysis].
  split; [reflexivity |]. split; [exact Hfl | reflexivity].
Qed.

Lemma input_assemblies_analyses (ans : list t) :
  input_assemblies (map Analysis ans) = flat_map epic_assemblies ans.
Proof.
  unfold input_assemblies.
  assert (H1 : flat_map (fun x => match x with
                                  | Assembly a => [a]
                                  | Analysis _ => []
                                  end) (map Analysis ans) = []).
  { induction ans as [| b ans IH]; [reflexivity | exact IH]. }
  assert (H2 : flat_map (fun x => match x with
                                  | Analysis b => [b]
                                  | Assembly _ => []
                                  end) (map Analysis ans) = ans).
  { induction ans as [| b ans IH]; [reflexivity |]. cbn [map flat_map app].
    f_equal. apply IH. exact H1. }
  rewrite H1, H2. reflexivity.
Qed.

Lemma analyses_of_built_assets (xs : list input) (ans : list t) :
  map_m (fun x => __init__ (Some (input_name x)) [x] period) xs = Ok ans ->
  map_m (recalculate period) (flat_map (fun x => input_assemblies [x]) xs)
  = Ok (flat_map epic_assemblies ans).
Proof.
  revert ans. induction xs as [| x xs IH]; intros ans; cbn [map_m flat_map].
  - intros [= <-]. reflexivity.
  - destruct (__init__ (Some (input_name x)) [x] period) as [an |] eqn:Han;
      cbn [bind]; [| discriminate].
    destruct (map_m (fun x => __init__ (Some (input_name x)) [x] period) xs)
      as [ans' |]; cbn [bind]; [| discriminate].
    intros [= <-]. cbn [flat_map].
    destruct (init_inv_assemblies _ _ an Han) as (Hl & _).
    rewrite map_m_app, Hl, (IH ans' eq_refl). reflexivity.
Qed.

Lemma process_inputs_flat (epic_inputs : list (option input))
  (report_name epic_assemblies_name : string) (an : t) (kept : list input) :
  process_inputs epic_inputs period report_name epic_assemblies_name
  = Ok (Some an, kept) ->
  map_m (recalculate period) (analysed_assemblies (kept_inputs epic_inputs))
  = Ok (epic_assemblies an) /\
  sum_by_assembly_and_material (epic_assemblies an) = Ok (flows an) /\
  period_of_analysis an = period /\
  map_m (recalculated_input period) (kept_inputs epic_inputs) = Ok kept.
Proof.
  unfold process_inputs, analysed_assemblies. fold (kept_inputs epic_inputs).
  set (ins := kept_inputs epic_inputs).
  destruct (map_m (fun x => __init__ (Some (input_name x)) [x] period)
              (filter is_built_asset ins)) as [ans1 |] eqn:H1; cbn [bind];
    [| discriminate].
  pose proof (analyses_of_built_assets _ ans1 H1) as HL1.
  match goal with
  | |- bind ?M _ = _ -> _ => destruct M as [ans2 |] eqn:H2; cbn [bind]; [| discriminate]
  end.
  assert (HL2 : map_m (recalculate period) (input_assemblies (filter is_assembly ins))
                = Ok (flat_map epic_assemblies ans2)).
  { destruct (filter is_assembly ins) as [| x xs].
    - injection H2 as <-. reflexivity.
    - destruct (__init__ (Some epic_assemblies_name) (x :: xs) period) as [g |]
        eqn:Hg; cbn [bind] in H2; [| discriminate].
      injection H2 as <-.
      destruct (init_inv_assemblies _ _ g Hg) as (Hl & _).
      cbn [flat_map]. rewrite app_nil_r. exact Hl. }
  destruct (ans1 ++ ans2)%list as [| b bs] eqn:Hans; [discriminate |].
  rewrite <- Hans.
  destruct (__init__ (Some report_name) (map Analysis (ans1 ++ ans2)) period)
    as [top |] eqn:Htop; cbn [bind]; [| discriminate].
  destruct (map_m (recalculated_input period) ins) as [kept' |]; cbn [bind];
    [| discriminate].
  intros [= <- <-].
  destruct (init_inv_assemblies _ _ top Htop) as (Hl & Hsum & Hp).
  rewrite input_assemblies_analyses, flat_map_app, map_m_app in Hl.
  rewrite (recalculate_all_again _ _ HL1), (recalculate_all_again _ _ HL2) in Hl.
  cbn [bind] in Hl. injection Hl as Hl.
  rewrite map_m_app, HL1, HL2. cbn [bind]. rewrite Hl.
  split; [reflexivity |]. split; [exact Hsum |]. split; [exact Hp | reflexivity].
Qed.

End ProcessInputs.

(** X25. The report that [process_inputs] builds, an analysis of one analysis
    per built asset and one for the loose assemblies, is the analysis of
    all their assemblies at once: its assemblies are those of the built
    assets, then the assemblies given directly, each recalculated once
    with the period, and its flows are their aggregate.  The inputs
    handed back are the kept ones with their assemblies recalculated. *)
Theorem process_inputs_is_one_analysis (epic_inputs : list (option EPiCAnalysis.input))
  (period : option Z) (report_name epic_assemblies_name : string)
  (an : EPiCAnalysis.t) (kept : list EPiCAnalysis.input) :
  Inputs.process_inputs epic_inputs period report_name epic_assemblies_name
  = Ok (Some an, kept) ->
  map_m (EPiCAnalysis.recalculate period)
    (Inputs.analysed_assemblies (Inputs.kept_inputs epic_inputs))
  = Ok (EPiCAnalysis.epic_assemblies an) /\
  EPiCAnalysis.sum_by_assembly_and_material (EPiCAnalysis.epic_assemblies an)
  = Ok (EPiCAnalysis.flows an) /\
  EPiCAnalysis.period_of_analysis an = period /\
  map_m (Inputs.recalculated_input period) (Inputs.kept_inputs epic_inputs) = Ok kept.
Proof. apply process_inputs_flat. Qed.

Lemma process_inputs_is_one_analysis_witness :
  exists an kept,
    Inputs.process_inputs
      [Some (EPiCAnalysis.Assembly Examples.wall); None;
       Some (EPiCAnalysis.Assembly Examples.frame)]
      (Some 20) "EPiC Analysis" "Assembly Collection" = Ok (Some an, kept) /\
    map_m (EPiCAnalysis.recalculate (Some 20)) [Examples.wall; Examples.frame]
    = Ok (EPiCAnalysis.epic_assemblies an) /\
    EPiCAnalysis.sum_by_assembly_and_material (EPiCAnalysis.epic_assemblies an)
    = Ok (EPiCAnalysis.flows an) /\
    EPiCAnalysis.period_of_analysis an = Some 20.
Proof.
  assert (H : {ak | Inputs.process_inputs
                      [Some (EPiCAnalysis.Assembly Examples.wall); None;
                       Some (EPiCAnalysis.Assembly Examples.frame)]
                      (Some 20) "EPiC Analysis" "Assembly Collection"
                    = Ok (Some (fst ak), snd ak)})
    by (eexists (_, _); vm_compute; reflexivity).
  destruct H as [[an kept] E]. cbn [fst snd] in E.
  exists an, kept. split; [exact E |].
  destruct (process_inputs_is_one_analysis _ _ _ _ an kept E) as (H1 & H2 & H3 & _).
  split; [exact H1 |]. split; [exact H2 | exact H3].
Defined.

(** ** Nested lists *)

Section Flatten.

Context {A : Type}.

Lemma flatten_app (l1 l2 : list (nested A)) :
  _flatten_list (l1 ++ l2) = (_flatten_list l1 ++ _flatten_list l2)%list.
Proof. unfold _flatten_list. apply flat_map_app. Qed.

Lemma flatten_items (l : list A) : _flatten_list (map Item l) = l.
Proof.
  unfold _flatten_list. induction l as [| a l IH]; [reflexivity |].
  cbn [map flat_map flatten_item app]. rewrite IH. reflexivity.
Qed.

Lemma flatten_nested (l : list (nested A)) :
  _flatten_list [Nested l] = _flatten_list l.
Proof. unfold _flatten_list. cbn [flat_map flatten_item]. apply app_nil_r. Qed.

End Flatten.

(** X26. Flattening goes through concatenation, returns a list without nested
    lists as it is, and does not see the brackets around a part of the
    list; so flattening what was flattened changes nothing. *)
Theorem flatten_list_removes_nesting {A : Type} (l1 l2 l3 : list (nested A))
  (items : list A) :
  _flatten_list (l1 ++ l2) = (_flatten_list l1 ++ _flatten_list l2)%list /\
  _flatten_list (map Item items) = items /\
  _flatten_list (l1 ++ [Nested l2] ++ l3) = _flatten_list (l1 ++ l2 ++ l3) /\
  _flatten_list (map Item (_flatten_list l1)) = _flatten_list l1.
Proof.
  split; [apply flatten_app |]. split; [apply flatten_items |]. split.
  - rewrite !flatten_app, flatten_nested. reflexivity.
  - apply flatten_items.
Qed.

(** ** The units of an assembly *)

Section GeometryUnits.

Variable shape : Type.
Variable measure : string -> shape -> outcome (num * shape).

Lemma nsum_snoc (l : list num) (x : num) : nsum (l ++ [x]) = nadd (nsum l) x.
Proof. unfold nsum. rewrite fold_left_app. reflexivity. Qed.

Lemma add_geometry_total (assembly_units : string) (l : list (geometry shape)) :
  forall state state',
    fst (fst state) = nsum (snd (fst state)) ->
    fold_m (add_geometry shape measure assembly_units) l state = Ok state' ->
    fst (fst state') = nsum (snd (fst state')).
Proof.
  induction l as [| g l IH]; intros [[t ind] out] state' Hinv; cbn [fold_m].
  - intros [= <-]. exact Hinv.
  - cbn [fst snd] in Hinv.
    destruct (add_geometry shape measure assembly_units (t, ind, out) g) as [s1 |]
      eqn:Hstep; cbn [bind]; [| discriminate].
    apply IH. unfold add_geometry in Hstep. cbn [fst snd] in Hstep.
    destruct g as [| x | s].
    + injection Hstep as <-. exact Hinv.
    + destruct (truthy x); injection Hstep as <-; cbn [fst snd];
        [rewrite nsum_snoc, Hinv; reflexivity | exact Hinv].
    + match type of Hstep with
      | bind ?M _ = _ => destruct M as [[v s'] |]; cbn [bind] in Hstep; [| discriminate]
      end.
      injection Hstep as <-. cbn [fst snd]. rewrite nsum_snoc, Hinv. reflexivity.
Qed.

Lemma add_geometry_numbers (assembly_units : string) (l : list (geometry shape)) :
  numbers_only shape l ->
  forall t ind out,
    fold_m (add_geometry shape measure assembly_units) l (t, ind, out)
    = Ok (fold_left nadd (numbers_given shape l) t,
          (ind ++ numbers_given shape l)%list, out).
Proof.
  intros H. induction H as [| g l Hg _ IH]; intros t ind out; cbn [fold_m].
  - cbn [numbers_given flat_map fold_left]. rewrite app_nil_r. reflexivity.
  - unfold numbers_given in *. cbn [flat_map].
    destruct g as [| x | s]; [| | contradiction]; cbn [add_geometry bind fst snd app].
    + apply IH.
    + destruct (truthy x); cbn [bind app fold_left].
      * rewrite IH, <- app_assoc. reflexivity.
      * apply IH.
Qed.

Lemma add_geometry_counted (l : list (geometry shape)) :
  forall t ind out,
  exists out',
    fold_m (add_geometry shape measure "no.") l (t, ind, out)
    = Ok (fold_left nadd (counted shape l) t, (ind ++ counted shape l)%list, out').
Proof.
  induction l as [| g l IH]; intros t ind out; cbn [fold_m].
  - exists out. cbn [counted flat_map fold_left]. rewrite app_nil_r. reflexivity.
  - unfold counted in *. cbn [flat_map].
    destruct g as [| x | s].
    + cbn [add_geometry bind app]. apply IH.
    + cbn [add_geometry fst snd]. destruct (truthy x); cbn [bind app fold_left].
      * destruct (IH (nadd t x) (ind ++ [x])%list out) as [out' H].
        exists out'. rewrite H, <- app_assoc. reflexivity.
      * apply IH.
    + unfold add_geometry at 1. rewrite String.eqb_refl.
      cbn [bind fst snd fold_left app].
      destruct (IH (nadd t (NInt 1)) (ind ++ [NInt 1])%list (out ++ [s])%list)
        as [out' H].
      exists out'. rewrite H, <- app_assoc. reflexivity.
Qed.

Lemma geometry_units (selected_geometry : list (geometry shape))
  (assembly_units : string) :
  (forall total_units individual_units output_geometry,
     verify_input_and_calculate_geometry_units shape measure selected_geometry
       assembly_units = Ok (total_units, individual_units, output_geometry) ->
     total_units = nabs (nsum individual_units) /\
     (0 <= to_float total_units)%Q) /\
  (numbers_only shape selected_geometry ->
   verify_input_and_calculate_geometry_units shape measure selected_geometry
     assembly_units
   = Ok (nabs (nsum (numbers_given shape selected_geometry)),
         numbers_given shape selected_geometry, [])) /\
  (exists output_geometry,
     verify_input_and_calculate_geometry_units shape measure selected_geometry "no."
     = Ok (nabs (nsum (counted shape selected_geometry)),
           counted shape selected_geometry, output_geometry)).
Proof.
  unfold verify_input_and_calculate_geometry_units. split; [| split].
  - intros t ind out.
    destruct (fold_m (add_geometry shape measure assembly_units) selected_geometry
                (NInt 0, [], [])) as [[[t0 ind0] out0] |] eqn:Hfold; cbn [bind];
      [| discriminate].
    intros [= <- <- <-]. cbn [fst snd].
    pose proof (add_geometry_total assembly_units selected_geometry
                  (NInt 0, [], []) (t0, ind0, out0) eq_refl Hfold) as Ht.
    cbn [fst snd] in Ht. rewrite Ht. split; [reflexivity | apply to_float_nabs_nonneg].
  - intros Hn. rewrite (add_geometry_numbers assembly_units _ Hn). reflexivity.
  - destruct (add_geometry_counted selected_geometry (NInt 0) [] []) as [out H].
    exists out. rewrite H. reflexivity.
Qed.

End GeometryUnits.

(** X27. The units of an assembly: the total is the absolute value of the sum
    of the individual units, hence never negative.  Inputs that are
    numbers only are taken as they are, zeros dropped, whatever the
    functional unit says, even an unknown one; under the unit [no.]
    nothing is measured, a geometry counts for one, and no input
    raises. *)
Theorem geometry_units_are_summed (shape : Type)
  (measure : string -> shape -> outcome (num * shape))
  (selected_geometry : list (geometry shape)) (assembly_units : string) :
  (forall total_units individual_units output_geometry,
     verify_input_and_calculate_geometry_units shape measure selected_geometry
       assembly_units = Ok (total_units, individual_units, output_geometry) ->
     total_units = nabs (nsum individual_units) /\
     (0 <= to_float total_units)%Q) /\
  (numbers_only shape selected_geometry ->
   verify_input_and_calculate_geometry_units shape measure selected_geometry
     assembly_units
   = Ok (nabs (nsum (numbers_given shape selected_geometry)),
         numbers_given shape selected_geometry, [])) /\
  (exists output_geometry,
     verify_input_and_calculate_geometry_units shape measure selected_geometry "no."
     = Ok (nabs (nsum (counted shape selected_geometry)),
           counted shape selected_geometry, output_geometry)).
Proof. apply geometry_units. Qed.

Lemma geometry_units_are_summed_witness :
  verify_input_and_calculate_geometry_units unit (fun _ _ => Raise TypeError)
    [GNumber (NInt 5); GNone; GNumber (NInt 0); GNumber (NFloat (-15 # 2))]
    "furlong"
  = Ok (NFloat (5 # 2), [NInt 5; NFloat (-15 # 2)], []).
Proof.
  apply (proj1 (proj2 (geometry_units_are_summed unit (fun _ _ => Raise TypeError)
                         [GNumber (NInt 5); GNone; GNumber (NInt 0);
                          GNumber (NFloat (-15 # 2))] "furlong"))).
  repeat constructor.
Defined.

(** ** Ranking the columns of a graph *)

Section Ranking.

Lemma max_item_in (best : string * num) (rest : list (string * num)) :
  In (max_item best rest) (best :: rest).
Proof.
  revert best. induction rest as [| item rest IH]; intros best; cbn [max_item].
  - left. reflexivity.
  - destruct (num_ltb (snd best) (snd item)).
    + right. apply IH.
    + destruct (IH best) as [H | H]; [left; exact H | right; right; exact H].
Qed.

Lemma max_item_greatest (best : string * num) (rest : list (string * num)) :
  forall x, In x (best :: rest) ->
            (to_float (snd x) <= to_float (snd (max_item best rest)))%Q.
Proof.
  revert best. induction rest as [| item rest IH]; intros best x Hx; cbn [max_item].
  - destruct Hx as [<- | []]. apply Qle_refl.
  - destruct (num_ltb (snd best) (snd item)) eqn:E.
    + unfold num_ltb in E. apply negb_true_iff in E.
      assert (Hlt : (to_float (snd best) <= to_float (snd item))%Q).
      { destruct (Qlt_le_dec (to_float (snd best)) (to_float (snd item))) as [H | H].
        - apply Qlt_le_weak. exact H.
        - apply Qle_bool_iff in H. congruence. }
      destruct Hx as [<- | Hx].
      * apply (Qle_trans _ _ _ Hlt). apply IH. left. reflexivity.
      * apply IH. exact Hx.
    + unfold num_ltb in E. apply negb_false_iff in E. apply Qle_bool_iff in E.
      destruct Hx as [<- | [<- | Hx]].
      * apply IH. left. reflexivity.
      * apply (Qle_trans _ _ _ E). apply IH. left. reflexivity.
      * apply IH. right. exact Hx.
Qed.

Lemma remove_key_perm {A : Type} (k : string) (v : A) (d : list (string * A)) :
  NoDup (map fst d) -> In (k, v) d ->
  Permutation d ((k, v) :: remove_key k d) /\
  NoDup (map fst (remove_key k d)) /\
  ~ In k (map fst (remove_key k d)).
Proof.
  induction d as [| [k' v'] d IH]; intros Hnd Hin; [destruct Hin |].
  cbn [map fst] in Hnd. inversion Hnd as [| ? ? Hnotin Hnd']; subst.
  cbn [remove_key]. destruct (k' =? k)%string eqn:E.
  - apply String.eqb_eq in E. subst k'.
    destruct Hin as [[= <-] | Hin].
    + split; [apply Permutation_refl |]. split; assumption.
    + exfalso. apply Hnotin. apply (in_map fst) in Hin. exact Hin.
  - apply String.eqb_neq in E.
    destruct Hin as [[= -> ->] | Hin]; [contradiction |].
    destruct (IH Hnd' Hin) as (Hp & Hnd2 & Hk).
    assert (Hsub : forall x, In x (map fst (remove_key k d)) -> In x (map fst d)).
    { intros x Hx. apply (Permutation_in x (Permutation_map fst (Permutation_sym Hp))).
      right. exact Hx. }
    split; [| split].
    + apply (perm_trans (perm_skip (k', v') Hp)). apply perm_swap.
    + cbn [map fst]. constructor; [| exact Hnd2].
      intros Hx. apply Hnotin. apply Hsub. exact Hx.
    + cbn [map fst]. intros [Hx | Hx]; [contradiction |]. apply Hk. exact Hx.
Qed.

Lemma update_map_new (acc : list (string * num)) (item : string * num) :
  ~ In (fst item) (map fst acc) ->
  update (fst item) (snd (ranked_entry item)) (map ranked_entry acc)
  = map ranked_entry (acc ++ [item]).
Proof.
  induction acc as [| [k v] acc IH]; intros Hk; cbn [map update app].
  - destruct item; reflexivity.
  - cbn [ranked_entry fst snd]. cbn [map fst] in Hk.
    destruct (k =? fst item)%string eqn:E.
    + apply String.eqb_eq in E. exfalso. apply Hk. left. exact E.
    + f_equal. apply IH. intros H. apply Hk. right. exact H.
Qed.

Lemma rank_sorts (fuel : nat) :
  forall (d acc : list (string * num)),
    List.length d = fuel ->
    NoDup (map fst d) ->
    (forall k, In k (map fst d) -> ~ In k (map fst acc)) ->
    exists sorted,
      rank fuel d (map ranked_entry acc) = (map ranked_entry (acc ++ sorted), []) /\
      Permutation sorted d /\
      StronglySorted (fun a b => (to_float (snd b) <= to_float (snd a))%Q) sorted.
Proof.
  induction fuel as [| fuel IH]; intros d acc Hlen Hnd Hdisj.
  - destruct d; [| discriminate]. exists []. rewrite app_nil_r.
    split; [reflexivity |]. split; constructor.
  - destruct d as [| first rest]; [discriminate |].
    cbn [rank]. set (m := max_item first rest).
    pose proof (max_item_in first rest) as Hin. fold m in Hin.
    pose proof (max_item_greatest first rest) as Hmax. fold m in Hmax.
    destruct m as [k v] eqn:Hm. cbn [fst].
    destruct (remove_key_perm k v (first :: rest) Hnd Hin) as (Hp & Hnd' & Hk).
    pose proof (update_map_new acc (k, v)) as Hu. cbn [fst] in Hu.
    rewrite Hu.
    2:{ apply Hdisj. apply (in_map fst) in Hin. exact Hin. }
    clear Hu.
    destruct (IH (remove_key k (first :: rest)) (acc ++ [(k, v)])%list)
      as (sorted & Hrank & Hperm & Hsorted).
    + apply Permutation_length in Hp. cbn [List.length] in Hp, Hlen. lia.
    + exact Hnd'.
    + intros x Hx. rewrite map_app, in_app_iff. cbn [map fst].
      intros [Hacc | [<- | []]].
      * apply (Hdisj x); [| exact Hacc].
        apply (Permutation_in x (Permutation_map fst (Permutation_sym Hp))).
        right. exact Hx.
      * exact (Hk Hx).
    + exists ((k, v) :: sorted). rewrite Hrank, <- app_assoc.
      split; [reflexivity |]. split.
      * apply (perm_trans (perm_skip (k, v) Hperm)). apply Permutation_sym. exact Hp.
      * constructor; [exact Hsorted |].
        apply Forall_forall. intros x Hx.
        change (to_float (snd x) <= to_float (snd (k, v)))%Q. apply Hmax.
        apply (Permutation_in x (Permutation_sym Hp)). right.
        apply (Permutation_in x Hperm). exact Hx.
Qed.

End Ranking.

(** X28. The ranking holds every key of the dictionary once, with its value
    under [max_value], in the order of decreasing values; the loop ends
    with the argument emptied. *)
Theorem ranking_is_sorted (dictionary_to_rank : list (string * num)) :
  NoDup (map fst dictionary_to_rank) ->
  exists sorted,
    _sort_dictionary_highest_to_lowest_value dictionary_to_rank
    = (map ranked_entry sorted, []) /\
    Permutation sorted dictionary_to_rank /\
    StronglySorted (fun a b => (to_float (snd b) <= to_float (snd a))%Q) sorted.
Proof.
  intros Hnd. unfold _sort_dictionary_highest_to_lowest_value.
  destruct (rank_sorts (List.length dictionary_to_rank) dictionary_to_rank []
              eq_refl Hnd) as (sorted & H & Hp & Hs).
  - intros k _ [].
  - exists sorted. split; [exact H |]. split; [exact Hp | exact Hs].
Qed.

Lemma ranking_is_sorted_witness :
  exists sorted,
    _sort_dictionary_highest_to_lowest_value
      [("Walls", NFloat 3%Q); ("Roof", NFloat 7%Q); ("Floor", NInt 5)]
    = (map ranked_entry sorted, []) /\
    Permutation sorted [("Walls", NFloat 3%Q); ("Roof", NFloat 7%Q); ("Floor", NInt 5)] /\
    StronglySorted (fun a b => (to_float (snd b) <= to_float (snd a))%Q) sorted.
Proof.
  apply ranking_is_sorted.
  repeat constructor; cbn; intuition discriminate.
Defined.

(** ** Tints *)

Section Tints.

Lemma to_float_nsub (a b : num) : (to_float (nsub a b) == to_float a - to_float b)%Q.
Proof.
  destruct a, b; cbn [nsub to_float]; rewrite ?Qred_correct; try reflexivity.
  unfold Z.sub. rewrite inject_Z_plus, inject_Z_opp. reflexivity.
Qed.

Lemma nmin_cases (a b : num) :
  (to_float (nmin a b) <= to_float a)%Q /\
  (to_float (nmin a b) <= to_float b)%Q /\
  (nmin a b = a \/ nmin a b = b).
Proof.
  unfold nmin, num_ltb.
  destruct (Qle_bool (to_float a) (to_float b)) eqn:E; cbn [negb].
  - apply Qle_bool_iff in E. split; [apply Qle_refl |]. split; [exact E | left; reflexivity].
  - assert (H : (to_float b < to_float a)%Q).
    { destruct (Qlt_le_dec (to_float b) (to_float a)) as [H | H]; [exact H |].
      apply Qle_bool_iff in H. congruence. }
    split; [apply Qlt_le_weak; exact H |]. split; [apply Qle_refl | right; reflexivity].
Qed.

Lemma tint_channel (c t : num) :
  let new := nmin (NInt 255) (nadd c (nmul (nsub (NInt 255) c) t)) in
  (to_float new <= 255)%Q /\
  ((0 <= to_float c)%Q -> (to_float c <= 255)%Q ->
   (0 <= to_float t)%Q -> (to_float t <= 1)%Q ->
   (to_float c <= to_float new)%Q /\
   (to_float new == to_float c + (255 - to_float c) * to_float t)%Q).
Proof.
  intros new.
  destruct (nmin_cases (NInt 255) (nadd c (nmul (nsub (NInt 255) c) t)))
    as (H255 & Hval & Hcase).
  fold new in H255, Hval, Hcase. split; [exact H255 |].
  intros Hc0 Hc1 Ht0 Ht1.
  assert (Hform : (to_float (nadd c (nmul (nsub (NInt 255) c) t))
                   == to_float c + (255 - to_float c) * to_float t)%Q).
  { rewrite to_float_nadd, to_float_nmul, to_float_nsub. reflexivity. }
  assert (Hgap : (0 <= 255 - to_float c)%Q).
  { rewrite <- (Qplus_opp_r (to_float c)). apply Qplus_le_compat; [exact Hc1 | apply Qle_refl]. }
  assert (Hlow : (to_float c <= to_float c + (255 - to_float c) * to_float t)%Q).
  { rewrite <- (Qplus_0_r (to_float c)) at 1.
    apply Qplus_le_compat; [apply Qle_refl |]. apply Qmult_le_0_compat; assumption. }
  assert (Hhigh : (to_float c + (255 - to_float c) * to_float t <= 255)%Q).
  { setoid_replace 255%Q with (to_float c + (255 - to_float c) * 1)%Q at 2 by ring.
    apply Qplus_le_compat; [apply Qle_refl |].
    rewrite (Qmult_comm _ (to_float t)), (Qmult_comm _ 1).
    apply Qmult_le_compat_r; assumption. }
  destruct Hcase as [E | E]; rewrite E.
  - cbn [to_float].
    assert (Heq : (to_float c + (255 - to_float c) * to_float t == 255)%Q).
    { apply Qle_antisym; [exact Hhigh |]. rewrite <- Hform.
      rewrite E in Hval. exact Hval. }
    split; [exact Hc1 | symmetry; exact Heq].
  - split; [rewrite Hform; exact Hlow | exact Hform].
Qed.

End Tints.

(** X29. A tint keeps the alpha channel, and no colour channel of it exceeds
    255, whatever the arguments.  For a channel between 0 and 255 and a
    tint factor between 0 and 1 the new channel is
    [c + (255 - c) * tint_factor], between the old channel and 255. *)
Theorem tint_stays_in_range (alpha red green blue tint_factor : num) :
  let tint := make_tint (alpha, red, green, blue) tint_factor in
  fst (fst (fst tint)) = alpha /\
  (to_float (snd (fst (fst tint))) <= 255)%Q /\
  (to_float (snd (fst tint)) <= 255)%Q /\
  (to_float (snd tint) <= 255)%Q /\
  ((0 <= to_float tint_factor)%Q -> (to_float tint_factor <= 1)%Q ->
   ((0 <= to_float red)%Q -> (to_float red <= 255)%Q ->
    (to_float red <= to_float (snd (fst (fst tint))))%Q /\
    (to_float (snd (fst (fst tint)))
     == to_float red + (255 - to_float red) * to_float tint_factor)%Q) /\
   ((0 <= to_float green)%Q -> (to_float green <= 255)%Q ->
    (to_float green <= to_float (snd (fst tint)))%Q /\
    (to_float (snd (fst tint))
     == to_float green + (255 - to_float green) * to_float tint_factor)%Q) /\
   ((0 <= to_float blue)%Q -> (to_float blue <= 255)%Q ->
    (to_float blue <= to_float (snd tint))%Q /\
    (to_float (snd tint)
     == to_float blue + (255 - to_float blue) * to_float tint_factor)%Q)).
Proof.
  cbn zeta. unfold make_tint. cbn [fst snd].
  destruct (tint_channel red tint_factor) as [Hr Hr'].
  destruct (tint_channel green tint_factor) as [Hg Hg'].
  destruct (tint_channel blue tint_factor) as [Hb Hb'].
  split; [reflexivity |]. split; [exact Hr |]. split; [exact Hg |]. split; [exact Hb |].
  intros Ht0 Ht1. split; [| split]; intros H0 H1.
  - apply Hr'; assumption.
  - apply Hg'; assumption.
  - apply Hb'; assumption.
Qed.

Lemma tint_stays_in_range_witness :
  (to_float (NInt 63) <= to_float (snd (fst (fst (make_tint
       (NInt 255, NInt 63, NInt 167, NInt 196) (NFloat (1 # 2)))))))%Q /\
  (to_float (snd (fst (fst (make_tint
       (NInt 255, NInt 63, NInt 167, NInt 196) (NFloat (1 # 2))))))
   == to_float (NInt 63) + (255 - to_float (NInt 63)) * to_float (NFloat (1 # 2)))%Q.
Proof.
  destruct (tint_stays_in_range (NInt 255) (NInt 63) (NInt 167) (NInt 196)
              (NFloat (1 # 2))) as (_ & _ & _ & _ & H).
  apply H; cbn; discriminate.
Defined.

(** ** Looking a material up by its name *)

Section Lookup.

Lemma first_key_of_unique (names : list (string * value)) (id name : string) :
  In (id, VStr name) names ->
  (forall id', In (id', VStr name) names -> id' = id) ->
  first_key_of name names = Some id.
Proof.
  induction names as [| [k v] names IH]; intros Hin Huniq; [destruct Hin |].
  cbn [first_key_of]. destruct (eq_str v name) eqn:E.
  - destruct v as [| | s | |]; cbn [eq_str] in E; try discriminate.
    apply String.eqb_eq in E. subst s. f_equal. apply Huniq. left. reflexivity.
  - destruct Hin as [[= -> ->] | Hin].
    + cbn [eq_str] in E. rewrite String.eqb_refl in E. discriminate.
    + apply IH; [exact Hin |]. intros id' H. apply Huniq. right. exact H.
Qed.

Lemma has_bar_concatenate (mat_name functional_unit : string) :
  has_char "|"%char (_concatenate_mat_name_func_unit mat_name functional_unit) = true.
Proof.
  induction mat_name as [| c rest IH]; [reflexivity |].
  rewrite concatenate_cons. cbn [has_char]. rewrite IH. apply orb_true_r.
Qed.

Lemma query_by_name (names legacy : list (string * value)) (id name unit : string) :
  has_char "|"%char name = false ->
  In (id, VStr name) names ->
  (forall id', In (id', VStr name) names -> id' = id) ->
  _query_for_name_or_old_mat_id names legacy
    (_concatenate_mat_name_func_unit name unit) = Ok (Some id) /\
  _query_for_name_or_old_mat_id names legacy name = Ok (Some id).
Proof.
  intros Hbar Hin Huniq. unfold _query_for_name_or_old_mat_id.
  rewrite has_bar_concatenate, (remove_after_concatenate name unit Hbar), Hbar.
  cbn [bind]. rewrite (first_key_of_unique names id name Hin Huniq).
  split; reflexivity.
Qed.

End Lookup.

(** X30. A material is found by its name, bare or decorated with any
    functional unit as the dropdown lists show it: the lookup returns
    its identifier, provided the name holds no bar and belongs to no
    other identifier; the legacy names are not consulted then. *)
Theorem material_found_by_name (dict_of_ids_and_names dict_of_legacy_names
  : list (string * value)) (material_id mat_name functional_unit : string) :
  has_char "|"%char mat_name = false ->
  In (material_id, VStr mat_name) dict_of_ids_and_names ->
  (forall id', In (id', VStr mat_name) dict_of_ids_and_names -> id' = material_id) ->
  _query_for_name_or_old_mat_id dict_of_ids_and_names dict_of_legacy_names
    (_concatenate_mat_name_func_unit mat_name functional_unit) = Ok (Some material_id) /\
  _query_for_name_or_old_mat_id dict_of_ids_and_names dict_of_legacy_names mat_name
  = Ok (Some material_id).
Proof. apply query_by_name. Qed.

Lemma material_found_by_name_witness :
  _query_for_name_or_old_mat_id
    [("AU24SS001", VStr "Steel"); ("AU24CP001", VStr "Concrete 20 MPa")]
    [("AU24SS001", VNone); ("AU24CP001", VStr "Concrete")]
    (_concatenate_mat_name_func_unit "Concrete 20 MPa" "m3") = Ok (Some "AU24CP001") /\
  _query_for_name_or_old_mat_id
    [("AU24SS001", VStr "Steel"); ("AU24CP001", VStr "Concrete 20 MPa")]
    [("AU24SS001", VNone); ("AU24CP001", VStr "Concrete")]
    "Concrete 20 MPa" = Ok (Some "AU24CP001").
Proof.
  apply material_found_by_name.
  - reflexivity.
  - right. left. reflexivity.
  - intros id' [[= <-] | [[= <-] | []]]. reflexivity.
Defined.
